(** * PayStream: budgeted multi-agent orchestration

    A shallow embedding of the two orchestrators of the PayStream backend,
    [runMainAgent] (agentService.js) and [runCodebaseAnalysis]
    (codebaseAgentService.js), together with the arithmetic they run on the
    budget, and the properties of the budget, the payments and the event
    stream that follow from the code.

    JavaScript numbers are IEEE 754 binary64 values.  The orchestrators are
    written once, over an interface [JsNumber] of the operations they use,
    with two instances. [F64], Rocq's primitive binary64 floats, computes
    bit for bit what the JavaScript computes: what is proved of every
    instance, or of [F64], is proved of the code. [Exact], the rationals, in
    which no operation rounds unless [Math.round] is called, is the
    arithmetic the services are written for, not the one they run on: it
    has no NaN, no infinity and no rounding error, and it pays other amounts
    than the code on ordinary budgets (see [Exact_is_not_binary64]). What is
    proved of [Exact] alone says what the formulas mean, and is
    never the whole of a theorem about the code. *)

From Stdlib Require Import List String ZArith QArith Qround Bool Arith Lia Lqa.
From Stdlib Require Import Floats.
From Stdlib Require Import Ascii NArith Permutation Sorted DecimalString.
Import ListNotations.

Local Open Scope string_scope.
Local Open Scope list_scope.

Set Implicit Arguments.
Set Warnings "-inexact-float".

(* ================================================================= *)
(** ** Numbers *)

(** The operations on numbers that the two services use. [lit] is an integer
    literal, [decimal m k] the decimal literal [m * 10^-k]. *)
Class JsNumber (num : Type) : Type := {
  lit : Z -> num;
  decimal : Z -> nat -> num;
  nadd : num -> num -> num;
  nsub : num -> num -> num;
  nmul : num -> num -> num;
  ndiv : num -> num -> num;
  nlt : num -> num -> bool;
  Math_round : num -> num
}.

Declare Scope js_scope.
Delimit Scope js_scope with js.
Infix "+" := nadd : js_scope.
Infix "-" := nsub : js_scope.
Infix "*" := nmul : js_scope.
Infix "/" := ndiv : js_scope.
Infix "<?" := nlt : js_scope.

(** *** binary64 *)

(** An integer as a number: exact below 2^53 in absolute value, which the
    literals of the services and the results of [Math.round] on a number
    with a fractional bit are. *)
Definition f64_of_Z (z : Z) : float :=
  match z with
  | Z0 => PrimFloat.zero
  | Zpos _ => PrimFloat.of_uint63 (Uint63.of_Z z)
  | Zneg _ => PrimFloat.opp (PrimFloat.of_uint63 (Uint63.of_Z (- z)))
  end.

(** [Math.round]: the integral number closest to [x], the one closer to plus
    infinity when two are equally close; NaN, the infinities and the zeros
    are returned as they are, and so is a number with no fractional bit. A
    finite [x] is [(-1)^s * m * 2^e] exactly, so the result is
    [floor (x + 1/2)] computed on integers. *)
Definition f64_round (x : float) : float :=
  match Prim2SF x with
  | S754_finite s m e =>
      if (0 <=? e)%Z then x
      else
        let k := (- e)%Z in
        let twice := (if s then Zneg (2 * m) else Zpos (2 * m)) in
        let n := ((twice + 2 ^ k) / 2 ^ (k + 1))%Z in
        if (n =? 0)%Z then (if s then PrimFloat.neg_zero else PrimFloat.zero)
        else f64_of_Z n
  | _ => x
  end.

#[export] Instance F64 : JsNumber float := {
  lit := f64_of_Z;
  decimal m k := PrimFloat.div (f64_of_Z m) (f64_of_Z (10 ^ Z.of_nat k));
  nadd := PrimFloat.add;
  nsub := PrimFloat.sub;
  nmul := PrimFloat.mul;
  ndiv := PrimFloat.div;
  nlt := PrimFloat.ltb;
  Math_round := f64_round
}.

(** *** Exact rationals *)

(** The numbers without their rounding errors: every operation is exact,
    and [Math.round] is [floor (x + 1/2)]. The services divide by the
    literal 100 only. This is not what the code computes: a product such
    as 0.35 * 0.1 * 100, which is 3.5 here and rounds to 4, is
    3.4999999999999996 in binary64 and rounds to 3; and no number here is
    NaN or infinite. *)
Definition Q_round (x : Q) : Q := inject_Z (Qfloor (x + (1 # 2))).

Definition Q_ltb (x y : Q) : bool := negb (Qle_bool y x).

#[export] Instance Exact : JsNumber Q := {
  lit := inject_Z;
  decimal m k := Qmake m (Z.to_pos (10 ^ Z.of_nat k));
  nadd := Qplus;
  nsub := Qminus;
  nmul := Qmult;
  ndiv := Qdiv;
  nlt := Q_ltb;
  Math_round := Q_round
}.

(* ================================================================= *)
(** ** Promises, effects and the calls to the outside *)

(** What an awaited call gives back: the value it resolves to, or the error
    it rejects with (a synchronous call returns or throws). *)
Inductive Outcome (A : Type) : Type :=
| Resolved (value : A)
| Rejected (message : string).
Arguments Resolved {A} value.
Arguments Rejected {A} message.

(** The record of one sub-agent's work in [runMainAgent]'s [results]. *)
Record SubAgentResult : Type := {
  agentName : string;
  resultTask : string;
  result : string
}.

(** What the Code Reader agent returns, and the other agents' structured
    answers, which the orchestrator passes along without looking into. *)
Record CodeReaderResult : Type := {
  techStack : list string;
  modules : list string;
  dependencies : list string;
  architectureMap : string * string
}.

Inductive AgentResult : Type :=
| CodeReaderOutput (r : CodeReaderResult)
| ToolOutput (input : string).

(** The [results] object of [runCodebaseAnalysis]: keys in insertion order. *)
Definition Results : Type := list (string * AgentResult).

Section Services.

Context {num : Type} {JS : JsNumber num}.
Local Open Scope js_scope.

(** One step of a plan, as the planner's JSON gives it. *)
Record Step : Type := {
  agent : string;
  task : string;
  allocation : num
}.

(** The events handed to [onEvent], of both services. *)
Inductive Event : Type :=
| step_start (agent task : string) (allocation payment : num)
| step_complete (agent task : string) (payment : num) (txId : string) (remainingBudget : num)
| report (text : string)
| refund (amount : num) (txId : string)
| agent_start (agent : string) (allocation payment : num)
| agent_error (agent message : string)
| agent_complete (agent key : string) (result : AgentResult) (txId : string)
    (payment remainingBudget : num)
| analysis_complete (data : Results)
| report_saved (shareId : string).

(** The calls made to the collaborators: the ledger (hederaService), the
    language model, and the persistence function. *)
Inductive Call : Type :=
| call_initClient
| call_createHCSTopic
| call_fundAgent (budgetInHbar : num)
| call_plan (task : string)
| call_runSubAgent (agentName stepDescription : string)
| call_paySubAgent (agentName : string) (amountInHbar : num) (stepDescription : string)
| call_formatFinalReport (task : string) (results : list SubAgentResult)
| call_agent (name : string)
| call_persistFn (results : Results)
| call_refundRemainder (scheduleId : string) (remainingHbar : num).

(** What a run does that can be seen from outside, in the order of time: an
    event handed to [onEvent], a call to a collaborator, a line written with
    [console.error], the line [Budget exhausted - stopping. Completed n of m
    steps.] written with [console.log], an assignment to the variable
    [remainingBudget]. *)
Inductive Effect : Type :=
| Emit (e : Event)
| Invoke (c : Call)
| ConsoleError (line : string)
| LogBudgetExhausted (completed planned : nat)
| Assign (remainingBudget : num).

Definition Trace : Type := list Effect.

Definition events (t : Trace) : list Event :=
  flat_map (fun x => match x with Emit e => [e] | _ => [] end) t.

Definition calls (t : Trace) : list Call :=
  flat_map (fun x => match x with Invoke c => [c] | _ => [] end) t.

Definition errors (t : Trace) : list string :=
  flat_map (fun x => match x with ConsoleError l => [l] | _ => [] end) t.

Definition assigned (t : Trace) : list num :=
  flat_map (fun x => match x with Assign v => [v] | _ => [] end) t.

(** A computation of the services: what it returns or throws, and the trace
    it leaves. *)
Definition M (A : Type) : Type := (Outcome A * Trace)%type.

Definition ret {A} (a : A) : M A := (Resolved a, []).

Definition throw {A} (message : string) : M A := (Rejected message, []).

Definition bind {A B} (c : M A) (k : A -> M B) : M B :=
  match c with
  | (Resolved a, t) => let (r, t') := k a in (r, t ++ t')
  | (Rejected message, t) => (Rejected message, t)
  end.

(** [try { c } catch (err) { handler err.message }] *)
Definition try_catch {A} (c : M A) (handler : string -> M A) : M A :=
  match c with
  | (Resolved a, t) => (Resolved a, t)
  | (Rejected message, t) => let (r, t') := handler message in (r, t ++ t')
  end.

Definition onEvent (e : Event) : M unit := (Resolved tt, [Emit e]).

Definition console_error (line : string) : M unit := (Resolved tt, [ConsoleError line]).

Definition console_log_exhausted (completed planned : nat) : M unit :=
  (Resolved tt, [LogBudgetExhausted completed planned]).

Definition assign_remainingBudget (v : num) : M unit := (Resolved tt, [Assign v]).

(** A call to a collaborator: it is recorded, and gives what the outside
    world answers. *)
Definition await {A} (c : Call) (answer : Outcome A) : M A := (answer, [Invoke c]).

(** A call whose promise is kept and awaited later. *)
Definition start (c : Call) : M unit := (Resolved tt, [Invoke c]).

End Services.

Arguments Step num : clear implicits.
Arguments Event num : clear implicits.
Arguments Call num : clear implicits.
Arguments Effect num : clear implicits.
Arguments Trace num : clear implicits.
Arguments M num A : clear implicits.

Declare Scope monad_scope.
Delimit Scope monad_scope with monad.
Notation "x <- c ;; k" := (bind c (fun x => k))
  (at level 61, c at next level, right associativity) : monad_scope.
Notation "c ;; k" := (bind c (fun _ => k))
  (at level 61, right associativity) : monad_scope.

(* ================================================================= *)
(** ** The outside world *)

(** The planner's reply, read as lines 124-126 of agentService.js read it:
    the reply has no text or the text holds no [{...}] ([match] gives null
    and [jsonMatch[0]] throws), or what it holds is not JSON ([JSON.parse]
    throws), or it parses to an object whose [steps] property is an array of
    step objects, or anything else ([None]: [steps.length] or
    [steps.forEach] throws a TypeError). *)
Inductive PlanText (num : Type) : Type :=
| NoJsonObject
| InvalidJson
| JsonObject (steps : option (list (Step num))).
Arguments NoJsonObject {num}.
Arguments InvalidJson {num}.
Arguments JsonObject {num} steps.

(** The answers of the collaborators during one run. The ledger's payment
    and the sub-agents are asked once per step, and answer by the step's
    position; [payLatency] is the time the payment of the parallel step at
    that position takes to settle. *)
Record World (num : Type) : Type := {
  initClient : Outcome unit;
  createHCSTopic : Outcome string;
  fundAgent : num -> Outcome string;
  paySubAgent : nat -> string -> num -> string -> Outcome string;
  payLatency : nat -> nat;
  refundRemainder : string -> num -> Outcome string;
  planResponse : string -> Outcome (PlanText num);
  runSubAgent : nat -> string -> string -> Outcome string;
  formatFinalReport : string -> list SubAgentResult -> Outcome string;
  runCodeReaderAgent : Outcome CodeReaderResult;
  runSimplifierAgent : CodeReaderResult -> Outcome AgentResult;
  runAnalogyAgent : CodeReaderResult -> Outcome AgentResult;
  runInsightAgent : CodeReaderResult -> Outcome AgentResult
}.

(** The repository handed to [runCodebaseAnalysis]. *)
Record RepoContent : Type := {
  repoName : string;
  fileCount : nat;
  languages : list string;
  files : list (string * string)
}.

(* ================================================================= *)
(** ** agentService.js *)

Section AgentService.

Context {num : Type} {JS : JsNumber num}.
Variable w : World num.
Local Open Scope js_scope.
Local Open Scope monad_scope.

(** [const AGENT_BUDGET_RATIO = 0.30] *)
Definition AGENT_BUDGET_RATIO : num := decimal 30 2.

(** The steps of the [catch] branch, lines 129-133. *)
Definition defaultSteps (task : string) : list (Step num) :=
  [ {| agent := "Research Agent";
       task := "Research and find relevant information for: " ++ task;
       allocation := lit 40 |};
    {| agent := "Analysis Agent";
       task := "Analyze and evaluate the findings for: " ++ task;
       allocation := lit 35 |};
    {| agent := "Writer Agent";
       task := "Write a clear final report for: " ++ task;
       allocation := lit 25 |} ].

(** Lines 123-134: [steps] after the [try]/[catch]. Both failures of the
    [try] block fall back to the default steps; a parsed object gives its
    [steps] property, whatever it is. *)
Definition parseSteps (text : PlanText num) (task : string) : option (list (Step num)) :=
  match text with
  | NoJsonObject | InvalidJson => Some (defaultSteps task)
  | JsonObject steps => steps
  end.

(** [Math.round(budgetInHbar * AGENT_BUDGET_RATIO * 100) / 100] *)
Definition totalAgentBudget (budgetInHbar : num) : num :=
  Math_round (budgetInHbar * AGENT_BUDGET_RATIO * lit 100) / lit 100.

(** [Math.round((step.allocation / 100) * totalAgentBudget * 100) / 100] *)
Definition payment (allocation total : num) : num :=
  Math_round ((allocation / lit 100) * total * lit 100) / lit 100.

(** [Math.round((remainingBudget - payment) * 100) / 100] *)
Definition deduct (remainingBudget pay : num) : num :=
  Math_round ((remainingBudget - pay) * lit 100) / lit 100.

(** The loop of lines 149-176 from the step at position [i] on, [planned]
    being [steps.length]; it gives the final [remainingBudget] and
    [results]. *)
Fixpoint runSteps (total : num) (planned i : nat) (steps : list (Step num))
    (remainingBudget : num) (results : list SubAgentResult)
    : M num (num * list SubAgentResult) :=
  match steps with
  | [] => ret (remainingBudget, results)
  | step :: rest =>
      let pay := payment (allocation step) total in
      if remainingBudget <? pay then
        console_log_exhausted (List.length results) planned ;;
        ret (remainingBudget, results)
      else
        onEvent (step_start (agent step) (task step) (allocation step) pay) ;;
        result <- await (call_runSubAgent (agent step) (task step))
                    (runSubAgent w i (agent step) (task step)) ;;
        txId <- await (call_paySubAgent (agent step) pay (task step))
                  (paySubAgent w i (agent step) pay (task step)) ;;
        let remainingBudget := deduct remainingBudget pay in
        assign_remainingBudget remainingBudget ;;
        onEvent (step_complete (agent step) (task step) pay txId remainingBudget) ;;
        runSteps total planned (S i) rest remainingBudget
          (results ++ [ {| agentName := agent step; resultTask := task step;
                           result := result |} ])
  end.

(** What [runMainAgent] returns. *)
Record MainOutcome : Type := {
  finalReport : string;
  results : list SubAgentResult;
  spent : num;
  refunded : num;
  refundTxId : string
}.

Definition runMainAgent (task : string) (budgetInHbar : num) : M num MainOutcome :=
  await call_initClient (initClient w) ;;
  await call_createHCSTopic (createHCSTopic w) ;;
  scheduleId <- await (call_fundAgent budgetInHbar) (fundAgent w budgetInHbar) ;;
  let remainingBudget := budgetInHbar in
  planText <- await (call_plan task) (planResponse w task) ;;
  match parseSteps planText task with
  | None => throw "TypeError"
  | Some steps =>
      let total := totalAgentBudget budgetInHbar in
      done <- runSteps total (List.length steps) 0 steps remainingBudget [] ;;
      let (remainingBudget, results) := done : num * list SubAgentResult in
      finalReport <- await (call_formatFinalReport task results)
                       (formatFinalReport w task results) ;;
      onEvent (report finalReport) ;;
      refundTxId <- await (call_refundRemainder scheduleId remainingBudget)
                      (refundRemainder w scheduleId remainingBudget) ;;
      onEvent (refund remainingBudget refundTxId) ;;
      ret {| finalReport := finalReport;
             results := results;
             spent := budgetInHbar - remainingBudget;
             refunded := remainingBudget;
             refundTxId := refundTxId |}
  end.

End AgentService.

(* ================================================================= *)
(** ** codebaseAgentService.js *)

(** The four agents of the codebase analysis. *)
Inductive Agent : Type :=
| CodeReaderAgent
| SimplifierAgent
| AnalogyAgent
| InsightAgent.

Definition agent_name (a : Agent) : string :=
  match a with
  | CodeReaderAgent => "Code Reader Agent"
  | SimplifierAgent => "Simplifier Agent"
  | AnalogyAgent => "Analogy Agent"
  | InsightAgent => "Insight Agent"
  end.

(** The key of [results] an agent's answer is stored under. *)
Definition agent_key (a : Agent) : string :=
  match a with
  | CodeReaderAgent => "codeReader"
  | SimplifierAgent => "simplifier"
  | AnalogyAgent => "analogy"
  | InsightAgent => "insight"
  end.

(** [const AGENT_ALLOCATIONS = {...}] *)
Definition AGENT_ALLOCATIONS (a : Agent) : Z :=
  match a with
  | CodeReaderAgent => 30
  | SimplifierAgent => 20
  | AnalogyAgent => 25
  | InsightAgent => 25
  end.

(** The result used in place of the Code Reader's when it throws, line 415. *)
Definition codeReaderFallback : CodeReaderResult :=
  {| techStack := []; modules := []; dependencies := [];
     architectureMap := ("graph TD
  A[App]", "Analysis unavailable.") |}.

(** Stable insertion sort by a key: the order in which pending promises
    settle, by the time each takes, and in the order they were started when
    two take the same time. *)
Fixpoint insert_by {A} (key : A -> nat) (x : A) (l : list A) : list A :=
  match l with
  | [] => [x]
  | y :: l' => if (key x <=? key y)%nat then x :: l else y :: insert_by key x l'
  end.

Definition sort_by {A} (key : A -> nat) (l : list A) : list A :=
  fold_right (insert_by key) [] l.

Section CodebaseAgentService.

Context {num : Type} {JS : JsNumber num}.
Variable w : World num.
Local Open Scope js_scope.
Local Open Scope monad_scope.

(** The closure [pay] of line 401. *)
Definition pay (total : num) (a : Agent) : num :=
  Math_round ((lit (AGENT_ALLOCATIONS a) / lit 100) * total * lit 100) / lit 100.

(** The array [phase2] of lines 425-429: each agent with its position and
    the call [fn] makes. *)
Definition phase2 (codeReader : CodeReaderResult)
    : list (nat * Agent * Outcome AgentResult) :=
  [ (1%nat, SimplifierAgent, runSimplifierAgent w codeReader);
    (2%nat, AnalogyAgent, runAnalogyAgent w codeReader);
    (3%nat, InsightAgent, runInsightAgent w codeReader) ].

(** [phase2.forEach(a => onEvent({type: 'agent_start', ...}))] *)
Fixpoint emitStarts (total : num) (l : list (nat * Agent * Outcome AgentResult))
    : M num unit :=
  match l with
  | [] => ret tt
  | (_, a, _) :: rest =>
      onEvent (agent_start (agent_name a) (lit (AGENT_ALLOCATIONS a)) (pay total a)) ;;
      emitStarts total rest
  end.

(** [Promise.allSettled(phase2.map(a => a.fn()))]: every call is made, and
    none of their rejections is thrown. *)
Fixpoint allSettled (l : list (nat * Agent * Outcome AgentResult))
    : M num (list (nat * Agent * Outcome AgentResult)) :=
  match l with
  | [] => ret []
  | (i, a, answer) :: rest =>
      start (call_agent (agent_name a)) ;;
      settled <- allSettled rest ;;
      ret ((i, a, answer) :: settled)
  end.

(** A payment whose call has been made and whose answer is awaited. *)
Record Pending : Type := {
  position : nat;
  pendingAgent : Agent;
  value : AgentResult;
  pendingPayment : num;
  answer : Outcome string
}.

(** Lines 442-457, the part of each callback of [phase2.map] that runs
    before its first [await]: the callbacks run one after the other, in the
    order of the array. A fulfilled agent's result is stored and its payment
    is called; a rejected agent's error is written and emitted. It gives the
    [results] and the payments awaited. *)
Fixpoint dispatchPayments (jobDesc : string) (total : num)
    (settled : list (nat * Agent * Outcome AgentResult)) (results : Results)
    : M num (Results * list Pending) :=
  match settled with
  | [] => ret (results, [])
  | (i, a, Resolved v) :: rest =>
      let results := results ++ [(agent_key a, v)] in
      let amount := pay total a in
      start (call_paySubAgent (agent_name a) amount jobDesc) ;;
      more <- dispatchPayments jobDesc total rest results ;;
      let (results, pendings) := more : Results * list Pending in
      ret (results,
           {| position := i; pendingAgent := a; value := v; pendingPayment := amount;
              answer := paySubAgent w i (agent_name a) amount jobDesc |} :: pendings)
  | (i, a, Rejected message) :: rest =>
      console_error ("[" ++ agent_name a ++ "] Error: " ++ message) ;;
      onEvent (agent_error (agent_name a) message) ;;
      dispatchPayments jobDesc total rest results
  end.

(** The rest of the callbacks, each run when its payment settles, in the
    order the payments settle: the budget is reduced and the completion is
    emitted. The first payment that rejects rejects [Promise.all], and the
    run with it: the trace of the run ends there. The callbacks whose
    payments settle later still run, after the run has thrown; what they do
    is [settleLater]. *)
Fixpoint settlePayments (pendings : list Pending) (remainingBudget : num) : M num num :=
  match pendings with
  | [] => ret remainingBudget
  | p :: rest =>
      match answer p with
      | Rejected message => throw message
      | Resolved txId =>
          let remainingBudget := deduct remainingBudget (pendingPayment p) in
          assign_remainingBudget remainingBudget ;;
          onEvent (agent_complete (agent_name (pendingAgent p)) (agent_key (pendingAgent p))
                     (value p) txId (pendingPayment p) remainingBudget) ;;
          settlePayments rest remainingBudget
      end
  end.

(** The callbacks of [Promise.all] whose payments settle after the run has
    thrown: one whose payment resolves reduces the budget and emits its
    completion, as in [settlePayments]; one whose payment rejects throws
    into a promise that is already rejected, and nothing is seen of it. *)
Fixpoint settleLater (pendings : list Pending) (remainingBudget : num) : Trace num :=
  match pendings with
  | [] => []
  | p :: rest =>
      match answer p with
      | Rejected _ => settleLater rest remainingBudget
      | Resolved txId =>
          let remainingBudget := deduct remainingBudget (pendingPayment p) in
          Assign remainingBudget
          :: Emit (agent_complete (agent_name (pendingAgent p)) (agent_key (pendingAgent p))
                     (value p) txId (pendingPayment p) remainingBudget)
          :: settleLater rest remainingBudget
      end
  end.

(** What is still done after [settlePayments]: nothing when every payment
    resolved; otherwise what the callbacks do whose payments settle after
    the first one that rejects. *)
Fixpoint leftPending (pendings : list Pending) (remainingBudget : num) : Trace num :=
  match pendings with
  | [] => []
  | p :: rest =>
      match answer p with
      | Rejected _ => settleLater rest remainingBudget
      | Resolved _ => leftPending rest (deduct remainingBudget (pendingPayment p))
      end
  end.

(** Lines 462-472. [persistFn] is [None] when the argument is not a
    function; the function gives a share identifier, or nothing ([None], a
    falsy value), or throws. *)
Definition persist (persistFn : option (Results -> Outcome (option string)))
    (results : Results) : M num unit :=
  match persistFn with
  | None => ret tt
  | Some f =>
      try_catch
        (shareId <- await (call_persistFn results) (f results) ;;
         match shareId with
         | Some id => onEvent (report_saved id)
         | None => ret tt
         end)
        (fun message => console_error ("[MongoDB] Failed to save report: " ++ message))
  end.

(** What [runCodebaseAnalysis] returns. *)
Record AnalysisOutcome : Type := {
  analysisResults : Results;
  analysisSpent : num;
  analysisRefunded : num
}.

(** Phase 1, lines 404-421: the Code Reader runs first and alone. It gives
    the Code Reader's result (the fallback if it threw), [results] and the
    remaining budget. *)
Definition foundation (jobDesc : string) (total remainingBudget : num)
    : M num (CodeReaderResult * Results * num) :=
  let crPayment := pay total CodeReaderAgent in
  onEvent (agent_start (agent_name CodeReaderAgent)
             (lit (AGENT_ALLOCATIONS CodeReaderAgent)) crPayment) ;;
  codeReader <- try_catch
      (await (call_agent (agent_name CodeReaderAgent)) (runCodeReaderAgent w))
      (fun message =>
         console_error ("[Code Reader Agent] Error: " ++ message) ;;
         onEvent (agent_error (agent_name CodeReaderAgent) message) ;;
         ret codeReaderFallback) ;;
  let results : Results := [(agent_key CodeReaderAgent, CodeReaderOutput codeReader)] in
  crTxId <- await (call_paySubAgent (agent_name CodeReaderAgent) crPayment jobDesc)
              (paySubAgent w 0 (agent_name CodeReaderAgent) crPayment jobDesc) ;;
  let remainingBudget := deduct remainingBudget crPayment in
  assign_remainingBudget remainingBudget ;;
  onEvent (agent_complete (agent_name CodeReaderAgent) (agent_key CodeReaderAgent)
             (CodeReaderOutput codeReader) crTxId crPayment remainingBudget) ;;
  ret (codeReader, results, remainingBudget).

(** Phase 2, lines 423-457: the three other agents run in parallel, and each
    one that succeeded is paid. It gives [results] and the remaining
    budget. *)
Definition fanOut (jobDesc : string) (total : num) (codeReader : CodeReaderResult)
    (results : Results) (remainingBudget : num) : M num (Results * num) :=
  emitStarts total (phase2 codeReader) ;;
  phase2Results <- allSettled (phase2 codeReader) ;;
  dispatched <- dispatchPayments jobDesc total phase2Results results ;;
  let (results, pendings) := dispatched : Results * list Pending in
  remainingBudget <- settlePayments
      (sort_by (fun p => payLatency w (position p)) pendings) remainingBudget ;;
  ret (results, remainingBudget).

(** What is still done after phase 2 has thrown: the callbacks that
    [settlePayments] left pending. *)
Definition fanOutLater (jobDesc : string) (total : num) (codeReader : CodeReaderResult)
    (results : Results) (remainingBudget : num) : Trace num :=
  match fst (allSettled (phase2 codeReader)) with
  | Resolved phase2Results =>
      match fst (dispatchPayments jobDesc total phase2Results results) with
      | Resolved (_, pendings) =>
          leftPending (sort_by (fun p => payLatency w (position p)) pendings) remainingBudget
      | Rejected _ => []
      end
  | Rejected _ => []
  end.

(** Lines 459-482: the results are announced and persisted, the remaining
    budget is refunded, and the outcome is returned. *)
Definition finalize (persistFn : option (Results -> Outcome (option string)))
    (scheduleId : string) (budgetInHbar : num) (results : Results) (remainingBudget : num)
    : M num AnalysisOutcome :=
  onEvent (analysis_complete results) ;;
  persist persistFn results ;;
  refundTxId <- await (call_refundRemainder scheduleId remainingBudget)
                  (refundRemainder w scheduleId remainingBudget) ;;
  onEvent (refund remainingBudget refundTxId) ;;
  ret {| analysisResults := results;
         analysisSpent := budgetInHbar - remainingBudget;
         analysisRefunded := remainingBudget |}.

(** The whole of [runCodebaseAnalysis], the three parts above in the order
    of the source. *)
Definition runCodebaseAnalysis (repoContent : RepoContent) (budgetInHbar : num)
    (persistFn : option (Results -> Outcome (option string))) : M num AnalysisOutcome :=
  await call_initClient (initClient w) ;;
  await call_createHCSTopic (createHCSTopic w) ;;
  scheduleId <- await (call_fundAgent budgetInHbar) (fundAgent w budgetInHbar) ;;
  let remainingBudget := budgetInHbar in
  let total := totalAgentBudget budgetInHbar in
  let jobDesc := ("Codebase intelligence for " ++ repoName repoContent)%string in
  phase1 <- foundation jobDesc total remainingBudget ;;
  let '(codeReader, results, remainingBudget) := phase1 in
  phase2 <- fanOut jobDesc total codeReader results remainingBudget ;;
  let (results, remainingBudget) := phase2 : Results * num in
  finalize persistFn scheduleId budgetInHbar results remainingBudget.

(** What is still done after [runCodebaseAnalysis] has settled: nothing,
    unless a payment of phase 2 was rejected while others were pending. *)
Definition stillPending (repoContent : RepoContent) (budgetInHbar : num) : Trace num :=
  match initClient w, createHCSTopic w, fundAgent w budgetInHbar with
  | Resolved _, Resolved _, Resolved _ =>
      let remainingBudget := budgetInHbar in
      let total := totalAgentBudget budgetInHbar in
      let jobDesc := ("Codebase intelligence for " ++ repoName repoContent)%string in
      match fst (foundation jobDesc total remainingBudget) with
      | Resolved (codeReader, results, remainingBudget) =>
          fanOutLater jobDesc total codeReader results remainingBudget
      | Rejected _ => []
      end
  | _, _, _ => []
  end.

End CodebaseAgentService.

(* ================================================================= *)
(** ** Reading a run *)

Definition resolved {A} (o : Outcome A) : bool :=
  match o with
  | Resolved _ => true
  | Rejected _ => false
  end.

Definition count {A} (f : A -> bool) (l : list A) : nat := List.length (filter f l).

(** Where a step stands, for one who reads the events in order. *)
Inductive Progress : Type :=
| NotStarted
| Started
| Finished.

Section Reading.

Context {num : Type} {JS : JsNumber num}.
Local Open Scope js_scope.

(** Every call to the ledger resolves. *)
Definition ledger_ok (w : World num) : Prop :=
  resolved (initClient w) = true
  /\ resolved (createHCSTopic w) = true
  /\ (forall b, resolved (fundAgent w b) = true)
  /\ (forall i name amount memo, resolved (paySubAgent w i name amount memo) = true)
  /\ (forall scheduleId r, resolved (refundRemainder w scheduleId r) = true).

(** Every call to the language model resolves. *)
Definition model_ok (w : World num) : Prop :=
  (forall task, resolved (planResponse w task) = true)
  /\ (forall i name task, resolved (runSubAgent w i name task) = true)
  /\ (forall task results, resolved (formatFinalReport w task results) = true).

Definition is_start_of (name : string) (e : Event num) : bool :=
  match e with
  | step_start a _ _ _ | agent_start a _ _ => String.eqb a name
  | _ => false
  end.

Definition is_complete_of (name : string) (e : Event num) : bool :=
  match e with
  | step_complete a _ _ _ _ | agent_complete a _ _ _ _ _ => String.eqb a name
  | _ => false
  end.

Definition is_error_of (name : string) (e : Event num) : bool :=
  match e with
  | agent_error a _ => String.eqb a name
  | _ => false
  end.

Definition is_work_of (name : string) (c : Call num) : bool :=
  match c with
  | call_runSubAgent a _ | call_agent a => String.eqb a name
  | _ => false
  end.

Definition is_payment_to (name : string) (c : Call num) : bool :=
  match c with
  | call_paySubAgent a _ _ => String.eqb a name
  | _ => false
  end.

Definition is_refund (c : Call num) : bool :=
  match c with
  | call_refundRemainder _ _ => true
  | _ => false
  end.

Definition is_persist (c : Call num) : bool :=
  match c with
  | call_persistFn _ => true
  | _ => false
  end.

Definition is_exhausted (x : Effect num) : bool :=
  match x with
  | LogBudgetExhausted _ _ => true
  | _ => false
  end.

(** Where the agent [name] stands after the events [evs], having stood at
    [p] before them: it starts once, and being started it completes or
    fails once. [None] when the events break this order. *)
Fixpoint progress (name : string) (p : Progress) (evs : list (Event num)) : option Progress :=
  match evs with
  | [] => Some p
  | e :: rest =>
      if is_start_of name e then
        match p with NotStarted => progress name Started rest | _ => None end
      else if is_complete_of name e || is_error_of name e then
        match p with Started => progress name Finished rest | _ => None end
      else progress name p rest
  end.

(** The events of the agent [name] are one start and then one completion or
    one error, in this order, and no other. *)
Definition lifecycle (name : string) (evs : list (Event num)) : bool :=
  match progress name NotStarted evs with
  | Some Finished => true
  | _ => false
  end.

(** How many times the agent [name] was called, paid, reported failed and
    reported complete in a trace. *)
Definition worked (name : string) (t : Trace num) : nat := count (is_work_of name) (calls t).
Definition paidTo (name : string) (t : Trace num) : nat := count (is_payment_to name) (calls t).
Definition failed (name : string) (t : Trace num) : nat := count (is_error_of name) (events t).
Definition completed (name : string) (t : Trace num) : nat :=
  count (is_complete_of name) (events t).

(** The two events of a step of [runMainAgent] that was dispatched and
    settled with the receipt [txId], leaving [r]. *)
Definition step_events (total : num) (d : Step num * string * num) : list (Event num) :=
  let '(st, txId, r) := d in
  [ step_start (agent st) (task st) (allocation st) (payment (allocation st) total);
    step_complete (agent st) (task st) (payment (allocation st) total) txId r ].

(** The steps that the start events of a run announce. *)
Definition started (evs : list (Event num)) : list (Step num) :=
  flat_map (fun e => match e with
                     | step_start a t alloc _ => [ {| agent := a; task := t; allocation := alloc |} ]
                     | _ => []
                     end) evs.

(** The steps the loop of [runMainAgent] dispatches when its calls resolve,
    by the test of line 154, [remainingBudget < payment]: a step is
    dispatched when the test is false, the payment is then taken from the
    remaining budget, and no step is dispatched after one for which the
    test is true. *)
Fixpoint affordable (total : num) (steps : list (Step num)) (remainingBudget : num)
    : list (Step num) :=
  match steps with
  | [] => []
  | st :: rest =>
      let p := payment (allocation st) total in
      if remainingBudget <? p then []
      else st :: affordable total rest (deduct remainingBudget p)
  end.

(** The remaining budgets that the completions of a run announce. *)
Definition settled_remaining (evs : list (Event num)) : list num :=
  flat_map (fun e => match e with
                     | step_complete _ _ _ _ r | agent_complete _ _ _ _ _ r => [r]
                     | _ => []
                     end) evs.

(** Each value of [l] is the one before it, [r] for the first, less a
    payment that [ok] holds of and rounded. *)
Fixpoint chained (ok : num -> Prop) (r : num) (l : list num) : Prop :=
  match l with
  | [] => True
  | r' :: rest => (exists p, ok p /\ r' = deduct r p) /\ chained ok r' rest
  end.

(** The amounts of the payments called, in order. *)
Definition paid (t : Trace num) : list num :=
  flat_map (fun c => match c with call_paySubAgent _ amount _ => [amount] | _ => [] end)
    (calls t).

(** The values that a budget [r] takes when the payments [ps] are taken from
    it one after the other, each with the rounding of [deduct]. *)
Fixpoint balances (r : num) (ps : list num) : list num :=
  match ps with
  | [] => []
  | p :: rest => deduct r p :: balances (deduct r p) rest
  end.

(** The sum of the allocations of a plan. *)
Definition allocated (steps : list (Step num)) : num :=
  fold_left (fun acc st => acc + allocation st) steps (lit 0).

(** The Code Reader's result that the parallel agents are given. *)
Definition codeReaderUsed (w : World num) : CodeReaderResult :=
  match runCodeReaderAgent w with
  | Resolved r => r
  | Rejected _ => codeReaderFallback
  end.

(** What an agent of the parallel phase answers in the world [w], given the
    Code Reader's result. *)
Definition parallel_answer (w : World num) (codeReader : CodeReaderResult) (a : Agent)
    : Outcome AgentResult :=
  match a with
  | CodeReaderAgent => Rejected "not a parallel agent"
  | SimplifierAgent => runSimplifierAgent w codeReader
  | AnalogyAgent => runAnalogyAgent w codeReader
  | InsightAgent => runInsightAgent w codeReader
  end.

Definition is_parallel (a : Agent) : bool :=
  match a with
  | CodeReaderAgent => false
  | _ => true
  end.

(** What an agent of the codebase analysis answers in the world [w]. *)
Definition agent_answer (w : World num) (a : Agent) : Outcome AgentResult :=
  match a with
  | CodeReaderAgent =>
      match runCodeReaderAgent w with
      | Resolved r => Resolved (CodeReaderOutput r)
      | Rejected message => Rejected message
      end
  | _ => parallel_answer w (codeReaderUsed w) a
  end.

(** A world in which the ledger always resolves, the planner replies
    [plan], the sub-agent at position [i] answers [sub i], and the four
    agents of the analysis answer as given. *)
Definition world (plan : PlanText num) (sub : nat -> Outcome string)
    (reader : Outcome CodeReaderResult) (simplifier analogy insight : Outcome AgentResult)
    (latency : nat -> nat) : World num :=
  {| initClient := Resolved tt;
     createHCSTopic := Resolved "0.0.5001";
     fundAgent := fun _ => Resolved "0.0.5002";
     paySubAgent := fun _ name _ _ => Resolved ("tx:" ++ name)%string;
     payLatency := latency;
     refundRemainder := fun _ _ => Resolved "tx:refund";
     planResponse := fun _ => Resolved plan;
     runSubAgent := fun i _ _ => sub i;
     formatFinalReport := fun _ _ => Resolved "Final report";
     runCodeReaderAgent := reader;
     runSimplifierAgent := fun _ => simplifier;
     runAnalogyAgent := fun _ => analogy;
     runInsightAgent := fun _ => insight |}.

End Reading.

(** A reply of the Code Reader, and a repository. *)
Definition someReading : CodeReaderResult :=
  {| techStack := ["express"]; modules := ["server.js"]; dependencies := ["cors"];
     architectureMap := ("graph TD", "One server.") |}.

Definition someRepo : RepoContent :=
  {| repoName := "owner/repo"; fileCount := 1; languages := ["js"];
     files := [("server.js", "//")] |}.

(** The world in which everything succeeds and the planner replies [plan]. *)
Definition replying {num : Type} (plan : PlanText num) : World num :=
  world plan (fun _ => Resolved "done") (Resolved someReading)
    (Resolved (ToolOutput "simplifier")) (Resolved (ToolOutput "analogy"))
    (Resolved (ToolOutput "insight")) (fun _ => 0%nat).

(** The same, the planner's reply holding no JSON. *)
Definition calm {num : Type} : World num := replying NoJsonObject.

(** The world in which the language model is overloaded when a sub-agent of
    [runMainAgent] calls it, and all else succeeds. *)
Definition subFails {num : Type} : World num :=
  world NoJsonObject (fun _ => Rejected "529 overloaded") (Resolved someReading)
    (Resolved (ToolOutput "simplifier")) (Resolved (ToolOutput "analogy"))
    (Resolved (ToolOutput "insight")) (fun _ => 0%nat).

(** The world in which the Code Reader throws, and all else succeeds. *)
Definition readerFails {num : Type} : World num :=
  world NoJsonObject (fun _ => Resolved "done")
    (Rejected "code_reader_output returned no structured output (stop_reason: max_tokens)")
    (Resolved (ToolOutput "simplifier")) (Resolved (ToolOutput "analogy"))
    (Resolved (ToolOutput "insight")) (fun _ => 0%nat).

(** The world in which the Analogy agent throws, all else succeeds, and the
    payment of the Insight agent settles before that of the Simplifier. *)
Definition analogyFails {num : Type} : World num :=
  world NoJsonObject (fun _ => Resolved "done") (Resolved someReading)
    (Resolved (ToolOutput "simplifier")) (Rejected "529 overloaded")
    (Resolved (ToolOutput "insight")) (fun i => (3 - i)%nat).

(** The world in which the ledger rejects the payment of the Simplifier
    and all else succeeds. *)
Definition paymentFails {num : Type} : World num :=
  {| initClient := Resolved tt;
     createHCSTopic := Resolved "0.0.5001";
     fundAgent := fun _ => Resolved "0.0.5002";
     paySubAgent := fun _ name _ _ =>
       if String.eqb name "Simplifier Agent" then Rejected "INSUFFICIENT_PAYER_BALANCE"
       else Resolved ("tx:" ++ name)%string;
     payLatency := fun _ => 0%nat;
     refundRemainder := fun _ _ => Resolved "tx:refund";
     planResponse := fun _ => Resolved NoJsonObject;
     runSubAgent := fun _ _ _ => Resolved "done";
     formatFinalReport := fun _ _ => Resolved "Final report";
     runCodeReaderAgent := Resolved someReading;
     runSimplifierAgent := fun _ => Resolved (ToolOutput "simplifier");
     runAnalogyAgent := fun _ => Resolved (ToolOutput "analogy");
     runInsightAgent := fun _ => Resolved (ToolOutput "insight") |}.

(** A plan of one step. *)
Definition soloPlan {num : Type} {JS : JsNumber num} (percent : Z) : list (Step num) :=
  [ {| agent := "Research Agent"; task := "Find out"; allocation := lit percent |} ].

(** A plan whose two allocations are out of the bounds the prompt asks for,
    and sum to 180. *)
Definition greedyPlan {num : Type} {JS : JsNumber num} : list (Step num) :=
  [ {| agent := "Research Agent"; task := "Find out"; allocation := lit 90 |};
    {| agent := "Writer Agent"; task := "Write up"; allocation := lit 90 |} ].

(* ================================================================= *)
(** ** The budget check in the spec's words, on binary64 *)

(** [remainingBudget >= payment]: false when one of the two is NaN. *)
Definition atLeast (remainingBudget payment : float) : bool :=
  PrimFloat.leb payment remainingBudget.

(** The steps a budget covers, in the spec's words: a step is dispatched
    when the remaining budget is at least its payment, the payment is then
    taken from the remaining budget, and no step is dispatched after one
    that is not covered. *)
Fixpoint covered (total : float) (steps : list (Step float)) (remainingBudget : float)
    : list (Step float) :=
  match steps with
  | [] => []
  | st :: rest =>
      let p := payment (allocation st) total in
      if atLeast remainingBudget p then st :: covered total rest (deduct remainingBudget p)
      else []
  end.

(** None of the numbers that the loop compares is NaN. *)
Fixpoint comparable (total : float) (steps : list (Step float)) (remainingBudget : float)
    : bool :=
  match steps with
  | [] => true
  | st :: rest =>
      let p := payment (allocation st) total in
      negb (PrimFloat.is_nan remainingBudget) && negb (PrimFloat.is_nan p)
      && (if PrimFloat.ltb remainingBudget p then true
          else comparable total rest (deduct remainingBudget p))
  end.

(** A plan of one step whose allocation is not a number, as when the reply
    of the planner leaves it out: [undefined / 100] is NaN. *)
Definition nanPlan : list (Step float) :=
  [ {| agent := "Research Agent"; task := "Find out"; allocation := PrimFloat.nan |} ].

(** A plan of one step that is allocated nothing. *)
Definition zeroPlan : list (Step float) :=
  [ {| agent := "Research Agent"; task := "Find out"; allocation := PrimFloat.zero |} ].

(* ================================================================= *)
(** ** Budgets of whole cents, on binary64 *)

(** The budget of [k] cents as [parseFloat] reads it from a decimal of two
    places: the binary64 number nearest to [k / 100]. *)
Definition centBudget (k : Z) : float := decimal k 2.

(** The amounts reported for a budget [B] of which [r] is refunded add up
    to the budget: [(B - r) + r] compares equal to [B]. *)
Definition conserved (B r : float) : bool :=
  PrimFloat.eqb (PrimFloat.add (PrimFloat.sub B r) r) B.

(** No value of [l] is above the one before it, [r] for the first. *)
Fixpoint descending (r : float) (l : list float) : bool :=
  match l with
  | [] => true
  | x :: rest => PrimFloat.leb x r && descending x rest
  end.

Definition Agent_eqb (a b : Agent) : bool :=
  match a, b with
  | CodeReaderAgent, CodeReaderAgent
  | SimplifierAgent, SimplifierAgent
  | AnalogyAgent, AnalogyAgent
  | InsightAgent, InsightAgent => true
  | _, _ => false
  end.

(** The loop of [runMainAgent] over the allocations [allocs], from the
    remaining budget [r] of a budget [B]: what is refunded if the loop
    stops here is conserved, the next step is covered, and its payment
    does not raise the remaining budget; and so on to the end of the
    plan. *)
Fixpoint loopChecked (total B r : float) (allocs : list float) : bool :=
  conserved B r
  && match allocs with
     | [] => true
     | a :: rest =>
         let p := payment a total in
         let r' := deduct r p in
         negb (PrimFloat.ltb r p) && PrimFloat.leb r' r && loopChecked total B r' rest
     end.

(** Phase 2 of [runCodebaseAnalysis] from the remaining budget [r] of a
    budget [B], in every order in which the payments of some of the agents
    [rest] can settle, [fuel] of them at most: what is refunded if no other
    payment settles is conserved, and no payment raises the remaining
    budget. *)
Fixpoint ordersChecked (fuel : nat) (total B r : float) (rest : list Agent) : bool :=
  conserved B r
  && match fuel with
     | O => true
     | S fuel' =>
         forallb (fun a =>
                    let r' := deduct r (pay total a) in
                    PrimFloat.leb r' r
                    && ordersChecked fuel' total B r'
                         (filter (fun b => negb (Agent_eqb a b)) rest))
           rest
     end.

(** Both orchestrators on the budget [B]: [runMainAgent] on the default
    plan, and [runCodebaseAnalysis] whichever agents succeed and in
    whichever order their payments settle. *)
Definition budgetChecked (B : float) : bool :=
  let total := totalAgentBudget B in
  loopChecked total B B [f64_of_Z 40; f64_of_Z 35; f64_of_Z 25]
  && (let r := deduct B (pay total CodeReaderAgent) in
      PrimFloat.leb r B
      && ordersChecked 3 total B r [SimplifierAgent; AnalogyAgent; InsightAgent]).

(** The budgets of 1 to [n] cents. *)
Definition centsChecked (n : nat) : bool :=
  forallb (fun k => budgetChecked (centBudget (Z.of_nat (S k)))) (seq 0 n).

(** The budgets checked here: 0.01 to 100.00. *)
Definition CHECKED_CENTS : Z := 10000.

(* ================================================================= *)
(** ** Amounts in cents, in exact arithmetic *)

(** An amount rounded to cents, in cents. *)
Definition cents (x : Q) : Z := Qfloor (x * 100 + (1 # 2)).

(** An amount that is a whole number of cents. *)
Definition whole_cents (x : Q) : Prop := exists z : Z, x == inject_Z z / 100.

(** The payments of a plan, in cents. *)
Definition due (total : Q) (steps : list (Step Q)) : Z :=
  fold_right (fun st acc => (cents (allocation st / 100 * total) + acc)%Z) 0%Z steps.

(** A plan of non-negative allocations. *)
Definition nonneg_plan (steps : list (Step Q)) : Prop :=
  Forall (fun st => 0 <= allocation st) steps.

(** A payment that is a whole and non-negative number of cents. *)
Definition fair (p : Q) : Prop := exists pc : Z, (0 <= pc)%Z /\ p = inject_Z pc / 100.

(** The values [l] taken one after the other by a budget that was [r] never
    increase. *)
Fixpoint settles_down (r : Q) (l : list Q) : Prop :=
  match l with
  | [] => True
  | r' :: rest => r' <= r /\ settles_down r' rest
  end.

(** The same, except that the first value may exceed the budget [B] by the
    rounding to cents, half a cent at most, when [B] is not a whole number
    of cents. *)
Definition settles_gently (B : Q) (l : list Q) : Prop :=
  match l with
  | [] => True
  | r1 :: rest =>
      r1 <= B + (1 # 200) /\ (whole_cents B -> r1 <= B) /\ settles_down r1 rest
  end.

(* ================================================================= *)
(** ** JavaScript strings and arrays *)

(** A string is the sequence of its code units; the characters of Rocq's
    strings are the code units below 256, which the literals of the services
    modelled here and the paths and URLs they are written for are made of. *)

(** [toLowerCase] of one code unit below 256: the letters A-Z, and the
    letters of U+00C0-U+00DE (the sign U+00D7 apart) have their lower case 32
    places above; no other code unit below 256 changes. *)
Definition toLowerCase_char (c : ascii) : ascii :=
  let n := N_of_ascii c in
  if ((65 <=? n) && (n <=? 90) || (192 <=? n) && (n <=? 222) && negb (n =? 215))%N
  then ascii_of_N (n + 32)
  else c.

(** [s.toLowerCase()] *)
Fixpoint toLowerCase (s : string) : string :=
  match s with
  | EmptyString => EmptyString
  | String c s' => String (toLowerCase_char c) (toLowerCase s')
  end.

(** [s.includes(sub)]: [sub] starts at some position of [s]. *)
Fixpoint includes (s sub : string) : bool :=
  prefix sub s
  || match s with
     | EmptyString => false
     | String _ s' => includes s' sub
     end.

(** [s.endsWith(suffix)]: what is left of [s] from some position on is
    [suffix]. *)
Fixpoint endsWith (s suffix : string) : bool :=
  String.eqb s suffix
  || match s with
     | EmptyString => false
     | String _ s' => endsWith s' suffix
     end.

(** [s.split(sep)] for a separator of one character: the pieces between the
    separators, one more than there are separators. *)
Fixpoint split (sep : ascii) (s : string) : list string :=
  match s with
  | EmptyString => [EmptyString]
  | String c s' =>
      if Ascii.eqb c sep then EmptyString :: split sep s'
      else match split sep s' with
           | [] => [String c EmptyString]
           | piece :: pieces => String c piece :: pieces
           end
  end.

(** [pieces.pop()] on the array that [split] gives, which is never empty. *)
Definition pop (pieces : list string) : string := last pieces EmptyString.

(** [s.lastIndexOf(c)] for one character: the last position of [c], or -1. *)
Fixpoint lastIndexOf (c : ascii) (s : string) : Z :=
  match s with
  | EmptyString => -1
  | String d s' =>
      let i := lastIndexOf c s' in
      if (0 <=? i)%Z then (i + 1)%Z
      else if Ascii.eqb d c then 0%Z
      else (-1)%Z
  end.

(** An integer argument of [slice] as a position: a negative one counts from
    the end, and both kinds are clamped to the length. *)
Definition relativeIndex (len i : Z) : Z :=
  if (i <? 0)%Z then Z.max (len + i) 0 else Z.min i len.

(** [s.slice(start, end)] on a string, [end] being left out when [None]. *)
Definition String_slice (s : string) (start : Z) (finish : option Z) : string :=
  let len := Z.of_nat (String.length s) in
  let from := relativeIndex len start in
  let to := match finish with
            | None => len
            | Some e => relativeIndex len e
            end in
  substring (Z.to_nat from) (Z.to_nat (to - from)) s.

(** [l.slice(start, end)] on an array. *)
Definition Array_slice {A} (l : list A) (start : Z) (finish : option Z) : list A :=
  let len := Z.of_nat (List.length l) in
  let from := relativeIndex len start in
  let to := match finish with
            | None => len
            | Some e => relativeIndex len e
            end in
  firstn (Z.to_nat (to - from)) (skipn (Z.to_nat from) l).

(** [(s.match(/c/g) || []).length] for one character: how many times [c]
    occurs in [s]. *)
Fixpoint occurrences (c : ascii) (s : string) : nat :=
  match s with
  | EmptyString => 0
  | String d s' => (if Ascii.eqb d c then 1 else 0) + occurrences c s'
  end.

(** [l.sort(compare)]. The sort of JavaScript is stable, and what it gives
    for a comparator that orders the elements consistently is the one stable
    sorted arrangement; this is the insertion sort that computes it, an
    element going before the first one it does not come after. *)
Fixpoint Array_insert {A} (compare : A -> A -> Z) (x : A) (l : list A) : list A :=
  match l with
  | [] => [x]
  | y :: l' => if (compare x y <=? 0)%Z then x :: l else y :: Array_insert compare x l'
  end.

Definition Array_sort {A} (compare : A -> A -> Z) (l : list A) : list A :=
  fold_right (Array_insert compare) [] l.

(** The comparator [(a, b) => key(a) - key(b)], and the order it sorts
    into. *)
Definition byKey {A} (key : A -> Z) : A -> A -> Z := fun a b => (key a - key b)%Z.

Definition keyOrder {A} (key : A -> Z) : A -> A -> Prop := fun a b => (key a <= key b)%Z.

(** [set.has(x)] and [array.includes(x)] on strings. *)
Definition has (set : list string) (x : string) : bool := existsb (String.eqb x) set.

(** The white space that [trim] removes, among the code units below 256:
    tab, line feed, vertical tab, form feed, carriage return, space and the
    no-break space. *)
Definition isWhiteSpace (c : ascii) : bool :=
  let n := N_of_ascii c in
  ((9 <=? n) && (n <=? 13) || (n =? 32) || (n =? 160))%N.

Fixpoint trimStart (s : string) : string :=
  match s with
  | EmptyString => EmptyString
  | String c s' => if isWhiteSpace c then trimStart s' else s
  end.

Fixpoint trimEnd (s : string) : string :=
  match s with
  | EmptyString => EmptyString
  | String c s' =>
      match trimEnd s' with
      | EmptyString => if isWhiteSpace c then EmptyString else String c EmptyString
      | rest => String c rest
      end
  end.

(** [s.trim()] *)
Definition trim (s : string) : string := trimEnd (trimStart s).

(** [s.replace(/lit$/, '')] for a literal [lit]: the first position from
    which what is left of [s] is [lit] is where the match is, and the match
    is removed. *)
Fixpoint removeAtEnd (lit s : string) : string :=
  if String.eqb s lit then EmptyString
  else match s with
       | EmptyString => EmptyString
       | String c s' => String c (removeAtEnd lit s')
       end.

(** Every character of [s] is of the class. *)
Fixpoint every (class : ascii -> bool) (s : string) : bool :=
  match s with
  | EmptyString => true
  | String c s' => class c && every class s'
  end.

(** A run of characters of the class ends where [rest] starts: at the end
    of the text or at a character that is not of the class. *)
Definition stops (class : ascii -> bool) (rest : string) : bool :=
  match rest with
  | EmptyString => true
  | String d _ => negb (class d)
  end.

(** [s.replace(/c/g, '')] for one character. *)
Fixpoint removeAll (c : ascii) (s : string) : string :=
  match s with
  | EmptyString => EmptyString
  | String d s' => if Ascii.eqb d c then removeAll c s' else String d (removeAll c s')
  end.

(* ================================================================= *)
(** ** Regular expressions *)

(** A matcher, as the language definition gives the meaning of a pattern:
    it is handed the text from the current position on and a continuation
    for the rest of the pattern, and gives what the continuation gives for
    the first way of matching that the continuation accepts. *)
Section Matchers.

Variable R : Type.

(** One character of a class. *)
Definition oneOf (class : ascii -> bool) (s : string) (k : string -> option R) : option R :=
  match s with
  | String c s' => if class c then k s' else None
  | EmptyString => None
  end.

(** A literal text. *)
Fixpoint literally (lit : string) (s : string) (k : string -> option R) : option R :=
  match lit with
  | EmptyString => k s
  | String c lit' => oneOf (Ascii.eqb c) s (fun s' => literally lit' s' k)
  end.

(** [([class]+)], a greedy capture: the longest run is tried first, then the
    shorter ones; [taken] is what the group holds so far, and the
    continuation is given what the group captured. *)
Fixpoint oneOrMore (class : ascii -> bool) (s : string) (taken : string)
    (k : string -> string -> option R) : option R :=
  match s with
  | String c s' =>
      if class c then
        match oneOrMore class s' (taken ++ String c EmptyString)%string k with
        | Some r => Some r
        | None => k (taken ++ String c EmptyString)%string s'
        end
      else None
  | EmptyString => None
  end.

(** [s.match(pattern)] for a pattern without the flag g: the match at the
    first position that has one. *)
Fixpoint firstMatch (pattern : string -> option R) (s : string) : option R :=
  match pattern s with
  | Some r => Some r
  | None =>
      match s with
      | EmptyString => None
      | String _ s' => firstMatch pattern s'
      end
  end.

End Matchers.

(* ================================================================= *)
(** ** codebaseAgentService.js: the summary of the files *)

(** The closure [priority] of lines 34-42. *)
Definition priority (path : string) : Z :=
  let lower := toLowerCase path in
  let depth := Z.of_nat (occurrences "/" path) in
  if has ["package.json"; "readme.md"; "go.mod"; "cargo.toml"; "requirements.txt"] lower
  then 0
  else if includes lower "index." || includes lower "main." || includes lower "app."
  then 1
  else if includes lower "server" || includes lower "router" || includes lower "route"
  then 2
  else if includes lower "config" || includes lower ".env"
  then 3
  else 4 + depth.

(** The files of [sorted.slice(0, maxFiles)], lines 44-46; a file is the pair
    of its path and its content. *)
Definition summarized (files : list (string * string)) (maxFiles : Z)
    : list (string * string) :=
  let sorted := Array_sort (byKey (fun f => priority (fst f))) files in
  Array_slice sorted 0 (Some maxFiles).

(** The text of one file, the argument of [map] at line 47. *)
Definition fileSection (maxCharsPerFile : Z) (f : string * string) : string :=
  ("=== " ++ fst f ++ " ===
" ++ String_slice (snd f) 0 (Some maxCharsPerFile))%string.

(** [buildFilesSummary(files, maxFiles, maxCharsPerFile)] *)
Definition buildFilesSummary (files : list (string * string)) (maxFiles maxCharsPerFile : Z)
    : string :=
  concat "

" (map (fileSection maxCharsPerFile) (summarized files maxFiles)).

(* ================================================================= *)
(** ** githubService.js *)

Definition GITHUB_API : string := "https://api.github.com".
Definition GITHUB_RAW : string := "https://raw.githubusercontent.com".

Definition ALLOWED_EXTENSIONS : list string :=
  [ ".js"; ".ts"; ".tsx"; ".jsx"; ".mjs"; ".cjs";
    ".py"; ".go"; ".rs"; ".rb"; ".java"; ".cs"; ".cpp"; ".c"; ".h";
    ".json"; ".yaml"; ".yml"; ".toml"; ".ini"; ".cfg";
    ".md"; ".txt"; ".sh"; ".bash"; ".zsh";
    ".env.example"; ".env.sample"; ".env.template";
    ".graphql"; ".gql"; ".sql"; ".prisma" ].

Definition ALWAYS_INCLUDE : list string :=
  [ "package.json"; "requirements.txt"; "pipfile"; "go.mod"; "cargo.toml";
    "gemfile"; "pom.xml"; "build.gradle"; "dockerfile"; "docker-compose.yml";
    "docker-compose.yaml"; ".env.example"; ".env.sample"; "readme.md"; "readme";
    ".gitignore"; "tsconfig.json"; "vite.config.ts"; "vite.config.js";
    "webpack.config.js"; "next.config.js"; "next.config.ts";
    "tailwind.config.js"; "tailwind.config.ts" ].

Definition SKIP_DIRS : list string :=
  [ "node_modules/"; "dist/"; "build/"; ".git/"; "__pycache__/"; ".next/";
    "vendor/"; ".venv/"; "venv/"; "coverage/"; ".nyc_output/"; "target/";
    ".gradle/"; ".idea/"; ".vscode/"; "out/"; ".cache/" ].

Definition MAX_FILES : Z := 50.
Definition MAX_TOTAL_BYTES : Z := 100000.
Definition MAX_BYTES_PER_FILE : Z := 3000.

(** [shouldIncludeFile(path)], lines 44-53. *)
Definition shouldIncludeFile (path : string) : bool :=
  let lower := toLowerCase path in
  if existsb (fun dir => includes lower dir) SKIP_DIRS then false
  else if endsWith lower ".lock" || endsWith lower "-lock.json" then false
  else
    let basename := pop (split "/" lower) in
    if has ALWAYS_INCLUDE basename then true
    else
      let dot := lastIndexOf "." basename in
      if (dot =? -1)%Z then false
      else has ALLOWED_EXTENSIONS (String_slice basename dot None).

(** The two classes of the pattern: [[^\/]] and [[^\/\?#]]. *)
Definition ownerChar (c : ascii) : bool := negb (Ascii.eqb c "/").

Definition repoChar (c : ascii) : bool :=
  negb (Ascii.eqb c "/" || Ascii.eqb c "?" || Ascii.eqb c "#").

(** The pattern [/github\.com[\/:]([^\/]+)\/([^\/\?#]+)/] of line 57, from
    one position: it gives the two groups. *)
Definition githubPattern (s : string) : option (string * string) :=
  literally "github.com" s (fun s =>
  oneOf (fun c => Ascii.eqb c "/" || Ascii.eqb c ":") s (fun s =>
  oneOrMore ownerChar s EmptyString (fun owner s =>
  literally "/" s (fun s =>
  oneOrMore repoChar s EmptyString (fun repo _ => Some (owner, repo)))))).

(** A character of a name: any but white space and the three that end the
    name of a repository in an address. *)
Definition nameChar (c : ascii) : bool := negb (isWhiteSpace c) && repoChar c.

(** What may follow the name of the repository in an address: nothing, or
    a path, a query or a fragment. *)
Definition delimited (rest : string) : bool := stops repoChar rest.

(** [url.trim().replace(/\.git$/, '').replace(/\/$/, '')], line 56. *)
Definition cleaned (url : string) : string :=
  removeAtEnd "/" (removeAtEnd ".git" (trim url)).

(** An address up to the name of the repository: its first character,
    what follows it, a [/] and the name. *)
Definition addressOf (h : ascii) (front repo : string) : string :=
  String h (front ++ String "/" repo).

(** [parseGithubUrl(url)], lines 55-60: the owner and the repository. *)
Definition parseGithubUrl (url : string) : Outcome (string * string) :=
  match firstMatch githubPattern (cleaned url) with
  | None => Rejected "Invalid GitHub URL. Expected: https://github.com/owner/repo"
  | Some groups => Resolved groups
  end.

(* ================================================================= *)
(** ** Computations of the other services *)

(** A computation that leaves a trace of effects of the type [E]: the
    requests of githubService.js, the calls of mongoService.js, what
    server.js does with a response. The lines that these three files write
    with [console.log] are no part of a trace. *)
Section Acts.

Context {E : Type}.

Definition Act (A : Type) : Type := (Outcome A * list E)%type.

Definition done {A} (a : A) : Act A := (Resolved a, []).

Definition raise {A} (message : string) : Act A := (Rejected message, []).

Definition andThen {A B} (c : Act A) (k : A -> Act B) : Act B :=
  match c with
  | (Resolved a, t) => let (r, t') := k a in (r, t ++ t')
  | (Rejected message, t) => (Rejected message, t)
  end.

(** [try { c } catch (err) { handler err.message }] *)
Definition attempt {A} (c : Act A) (handler : string -> Act A) : Act A :=
  match c with
  | (Resolved a, t) => (Resolved a, t)
  | (Rejected message, t) => let (r, t') := handler message in (r, t ++ t')
  end.

(** An effect that gives nothing back. *)
Definition perform (e : E) : Act unit := (Resolved tt, [e]).

(** A call to the outside: it is recorded, and gives what the outside
    answers. *)
Definition request {A} (e : E) (answer : Outcome A) : Act A := (answer, [e]).

(** A value read from what a call gave: it resolves or rejects, and leaves
    no trace. *)
Definition reading {A} (o : Outcome A) : Act A := (o, []).

End Acts.

Arguments Act E A : clear implicits.

Declare Scope act_scope.
Delimit Scope act_scope with act.
Notation "x <- c ;; k" := (andThen c (fun x => k))
  (at level 61, c at next level, right associativity) : act_scope.
Notation "c ;; k" := (andThen c (fun _ => k))
  (at level 61, right associativity) : act_scope.

(** A value of an environment variable or of a query parameter is truthy
    when it is there and not the empty string. *)
Definition truthy (v : option string) : bool :=
  match v with
  | Some s => negb (String.eqb s EmptyString)
  | None => false
  end.

(** [v || fallback] on such a value. *)
Definition orElse (v : option string) (fallback : string) : string :=
  match v with
  | Some s => if String.eqb s EmptyString then fallback else s
  | None => fallback
  end.

(* ================================================================= *)
(** ** githubService.js: fetching a repository *)

(** A call of [fetch]: the address, and the headers when the call gives
    any. *)
Record Request : Type := {
  url : string;
  headers : option (list (string * string))
}.

(** What [fetch] resolves to: [ok], [status], and what reading the body
    with [json()] or [text()] gives. *)
Record Response (A : Type) : Type := {
  ok : bool;
  status : Z;
  body : Outcome A
}.

(** The answer of [GET /repos/{owner}/{repo}], as far as it is read. *)
Record RepoData : Type := {
  default_branch : option string
}.

(** A node of the tree, and the answer of [GET /git/trees/...]. *)
Record TreeNode : Type := {
  type : string;
  path : string
}.

Record TreeData : Type := {
  truncated : bool;
  tree : option (list TreeNode)
}.

(** The network and the environment during one call of [fetchRepoContent]:
    the token, the collation of the host that [localeCompare] uses, and
    what [fetch] answers. *)
Record Web : Type := {
  GITHUB_TOKEN : option string;
  localeCompare : string -> string -> Z;
  fetchRepo : Request -> Outcome (Response RepoData);
  fetchTree : Request -> Outcome (Response TreeData);
  fetchRaw : Request -> Outcome (Response string)
}.

(** What [fetchRepoContent] returns: the owner, the repository and the
    content handed to [runCodebaseAnalysis]. *)
Record Fetched : Type := {
  owner : string;
  repo : string;
  repoContent : RepoContent
}.

(** A status in decimal, as string concatenation writes an integer. *)
Definition showStatus (n : Z) : string := NilZero.string_of_int (Z.to_int n).

Section GithubService.

Variable web : Web.
Local Open Scope act_scope.

(** [apiHeaders()], lines 62-66. *)
Definition apiHeaders : list (string * string) :=
  [("Accept", "application/vnd.github.v3+json"); ("User-Agent", "PayStream")]
  ++ (if truthy (GITHUB_TOKEN web)
      then [("Authorization", ("token " ++ orElse (GITHUB_TOKEN web) "")%string)]
      else []).

(** The number of [/] in a path, lines 100-101. *)
Definition depth (p : string) : Z := Z.of_nat (occurrences "/" p).

(** The comparator of lines 99-103. *)
Definition compareBlobs (a b : TreeNode) : Z :=
  let da := depth (path a) in
  let db := depth (path b) in
  if negb (da =? db)%Z then (da - db)%Z else localeCompare web (path a) (path b).

(** Lines 96-104: the blobs kept, in order. *)
Definition selectBlobs (treeData : TreeData) : list TreeNode :=
  let allBlobs :=
    filter (fun n => String.eqb (type n) "blob" && shouldIncludeFile (path n))
      (match tree treeData with Some nodes => nodes | None => [] end) in
  Array_slice (Array_sort compareBlobs allBlobs) 0 (Some MAX_FILES).

(** [langCount[ext] = (langCount[ext] || 0) + 1]; the object keeps its keys
    in the order they were first written. (A key that is an array index
    would stand first in [Object.entries], and a key that every object
    inherits would not count from 0; what follows the last dot of a path
    that [shouldIncludeFile] accepts ends with the letters of an allowed
    extension or of a file name always read, and is neither.) *)
Fixpoint bump (ext : string) (langCount : list (string * Z)) : list (string * Z) :=
  match langCount with
  | [] => [(ext, 1%Z)]
  | (key, n) :: others =>
      if String.eqb key ext then (key, (n + 1)%Z) :: others
      else (key, n) :: bump ext others
  end.

(** Lines 107-115. *)
Definition detectLanguages (blobs : list TreeNode) : list string :=
  let langCount :=
    fold_left (fun langCount f =>
                 let ext := pop (split "." (path f)) in
                 if negb (String.eqb ext EmptyString) && negb (String.eqb ext (path f))
                 then bump ext langCount
                 else langCount)
      blobs [] in
  map fst (Array_slice (Array_sort (fun a b => (snd b - snd a)%Z) langCount) 0 (Some 8%Z)).

(** The batches of line 121: [blobs.slice(i, i + 10)] for i = 0, 10, ...
    below [blobs.length]. *)
Definition batchesOf (blobs : list TreeNode) : list (list TreeNode) :=
  map (fun k => Array_slice blobs (10 * Z.of_nat k) (Some (10 * Z.of_nat k + 10)%Z))
    (seq 0 ((List.length blobs + 9) / 10)).

(** The callback of lines 127-135 for one blob: the file, or [null]. *)
Definition fetchFile (owner repo defaultBranch : string) (blob : TreeNode)
    : Act Request (option (string * string)) :=
  let rawUrl := (GITHUB_RAW ++ "/" ++ owner ++ "/" ++ repo ++ "/" ++ defaultBranch
                 ++ "/" ++ path blob)%string in
  attempt
    (res <- request {| url := rawUrl; headers := None |}
              (fetchRaw web {| url := rawUrl; headers := None |}) ;;
     if negb (ok res) then done None
     else
       text <- reading (body res) ;;
       done (Some (path blob, String_slice text 0 (Some MAX_BYTES_PER_FILE))))
    (fun _ => done None).

(** [Promise.all(batch.map(...))]: the callbacks call [fetch] one after the
    other, in the order of the batch, and nothing else of what they do is
    seen from outside; none of them rejects. *)
Fixpoint fetchAll (owner repo defaultBranch : string) (batch : list TreeNode)
    : Act Request (list (option (string * string))) :=
  match batch with
  | [] => done []
  | blob :: others =>
      f <- fetchFile owner repo defaultBranch blob ;;
      fs <- fetchAll owner repo defaultBranch others ;;
      done (f :: fs)
  end.

(** The loop of lines 138-143 over the results of one batch. *)
Fixpoint collect (results : list (option (string * string)))
    (files : list (string * string)) (totalBytes : Z) : list (string * string) * Z :=
  match results with
  | [] => (files, totalBytes)
  | None :: others => collect others files totalBytes
  | Some f :: others =>
      let totalBytes := (totalBytes + Z.of_nat (String.length (snd f)))%Z in
      if (MAX_TOTAL_BYTES <? totalBytes)%Z then (files, totalBytes)
      else collect others (files ++ [f]) totalBytes
  end.

(** The loop of lines 123-144 over the batches. *)
Fixpoint fetchBatches (owner repo defaultBranch : string) (batches : list (list TreeNode))
    (files : list (string * string)) (totalBytes : Z)
    : Act Request (list (string * string) * Z) :=
  match batches with
  | [] => done (files, totalBytes)
  | batch :: others =>
      if (MAX_TOTAL_BYTES <=? totalBytes)%Z then done (files, totalBytes)
      else
        results <- fetchAll owner repo defaultBranch batch ;;
        let (files, totalBytes) := collect results files totalBytes in
        fetchBatches owner repo defaultBranch others files totalBytes
  end.

(** [fetchRepoContent(githubUrl)], lines 68-149. *)
Definition fetchRepoContent (githubUrl : string) : Act Request Fetched :=
  parsed <- reading (parseGithubUrl githubUrl) ;;
  let (owner, repo) := parsed : string * string in
  let repoUrl := (GITHUB_API ++ "/repos/" ++ owner ++ "/" ++ repo)%string in
  repoRes <- request {| url := repoUrl; headers := Some apiHeaders |}
               (fetchRepo web {| url := repoUrl; headers := Some apiHeaders |}) ;;
  if negb (ok repoRes) then
    if (status repoRes =? 404)%Z then
      raise ("Repo not found or is private: " ++ owner ++ "/" ++ repo)%string
    else if (status repoRes =? 403)%Z then
      raise "GitHub API rate limit hit on repo metadata. Wait 1 hour or add GITHUB_TOKEN to .env"
    else raise ("GitHub API error " ++ showStatus (status repoRes))%string
  else
    repoData <- reading (body repoRes) ;;
    let defaultBranch := orElse (default_branch repoData) "main" in
    let treeUrl := (GITHUB_API ++ "/repos/" ++ owner ++ "/" ++ repo ++ "/git/trees/"
                    ++ defaultBranch ++ "?recursive=1")%string in
    treeRes <- request {| url := treeUrl; headers := Some apiHeaders |}
                 (fetchTree web {| url := treeUrl; headers := Some apiHeaders |}) ;;
    if negb (ok treeRes) then
      if (status treeRes =? 403)%Z then
        raise "GitHub API rate limit hit on tree fetch. Wait 1 hour or add GITHUB_TOKEN to .env"
      else raise ("Failed to fetch repo tree: " ++ showStatus (status treeRes))%string
    else
      treeData <- reading (body treeRes) ;;
      let blobs := selectBlobs treeData in
      let languages := detectLanguages blobs in
      fetched <- fetchBatches owner repo defaultBranch (batchesOf blobs) [] 0%Z ;;
      let files := fst fetched in
      done {| owner := owner;
              repo := repo;
              repoContent := {| repoName := (owner ++ "/" ++ repo)%string;
                                fileCount := List.length files;
                                languages := languages;
                                files := files |} |}.

(** The two requests to the API, lines 73 and 84-87. *)
Definition repoRequest (owner repo : string) : Request :=
  {| url := (GITHUB_API ++ "/repos/" ++ owner ++ "/" ++ repo)%string;
     headers := Some apiHeaders |}.

Definition treeRequest (owner repo defaultBranch : string) : Request :=
  {| url := (GITHUB_API ++ "/repos/" ++ owner ++ "/" ++ repo ++ "/git/trees/"
             ++ defaultBranch ++ "?recursive=1")%string;
     headers := Some apiHeaders |}.

(** The address a file is fetched from, line 129. *)
Definition rawUrlOf (owner repo defaultBranch : string) (blob : TreeNode) : string :=
  (GITHUB_RAW ++ "/" ++ owner ++ "/" ++ repo ++ "/" ++ defaultBranch ++ "/" ++ path blob)%string.

(** A request to the API of GitHub, with the headers of [apiHeaders], and
    a request for a raw file, with none. *)
Definition apiRequest (r : Request) : Prop :=
  headers r = Some apiHeaders /\ prefix "https://api.github.com/" (url r) = true.

Definition rawRequest (r : Request) : Prop :=
  headers r = None /\ prefix "https://raw.githubusercontent.com/" (url r) = true.

(** The file [f] is one of the [blobs], as the raw host served it: the
    request for its path was answered with [ok], and the content of [f] is
    the start of the text of the answer, [MAX_BYTES_PER_FILE] characters at
    most. *)
Definition served (owner repo defaultBranch : string) (blobs : list TreeNode)
    (f : string * string) : Prop :=
  exists blob res text,
    In blob blobs
    /\ fst f = path blob
    /\ fetchRaw web {| url := rawUrlOf owner repo defaultBranch blob; headers := None |}
       = Resolved res
    /\ ok res = true
    /\ body res = Resolved text
    /\ snd f = String_slice text 0 (Some MAX_BYTES_PER_FILE).

(** The two requests to the API are answered with [ok] and a body that can
    be read. *)
Definition api_ok : Prop :=
  (forall req, exists res repoData,
     fetchRepo web req = Resolved res /\ ok res = true /\ body res = Resolved repoData)
  /\ (forall req, exists res treeData,
        fetchTree web req = Resolved res /\ ok res = true /\ body res = Resolved treeData).

End GithubService.

(** The number of characters of the contents of some files. *)
Definition totalSize (files : list (string * string)) : nat :=
  list_sum (map (fun f => String.length (snd f)) files).

(* ================================================================= *)
(** ** mongoService.js *)

(** A document of the collection of reports. *)
Record Report : Type := {
  _id : string;
  reportRepoName : string;
  repoUrl : string;
  meta : nat * list string;
  data : Results
}.

(** The calls to the database. *)
Inductive MongoCall : Type :=
| mongoose_connect (uri : string)
| doc_save (doc : Report)
| Report_findById (shareId : string).

(** The database and the environment when a function of the service is
    called: the state of the connection, the address, and what the
    database answers. *)
Record Mongo : Type := {
  readyState : Z;
  MONGODB_URI : option string;
  connect : string -> Outcome unit;
  save : Report -> Outcome unit;
  findById : string -> Outcome (option Report)
}.

Section MongoService.

Variable db : Mongo.
Local Open Scope act_scope.

(** [connectDB()], lines 30-36. *)
Definition connectDB : Act MongoCall unit :=
  if (readyState db =? 1)%Z then done tt
  else if negb (truthy (MONGODB_URI db)) then raise "MONGODB_URI is not set in .env"
  else
    let uri := orElse (MONGODB_URI db) "" in
    request (mongoose_connect uri) (connect db uri).

(** [saveReport({ shareId, repoName, repoUrl, meta, data })], lines 40-45. *)
Definition saveReport (doc : Report) : Act MongoCall string :=
  connectDB ;;
  request (doc_save doc) (save db doc) ;;
  done (_id doc).

(** [getReport(shareId)], lines 47-50. *)
Definition getReport (shareId : string) : Act MongoCall (option Report) :=
  connectDB ;;
  request (Report_findById shareId) (findById db shareId).

End MongoService.

(* ================================================================= *)
(** ** server.js *)

(** [isNaN] on the numbers. *)
Class JsNaN (num : Type) : Type := {
  isNaN : num -> bool
}.

(** NaN is the one binary64 value that is not equal to itself. *)
#[export] Instance F64_NaN : JsNaN float := {
  isNaN x := negb (PrimFloat.eqb x x)
}.

(** No rational is NaN. *)
#[export] Instance Exact_NaN : JsNaN Q := {
  isNaN _ := false
}.

Section Server.

Context {num : Type} {JS : JsNumber num} {NaN : JsNaN num}.

(** The objects written as JSON with [res.json]. *)
Inductive Body : Type :=
| error_body (error : string)
| report_body (doc : Report)
| health_body.

(** The objects handed to [sendEvent]: the events of the orchestrators, and
    those of the server itself. *)
Inductive SseData : Type :=
| agent_event (e : Event num)
| error_event (message : string)
| fetching_repo (repo : string)
| repo_fetched (repoName : string) (fileCount : nat) (languages : list string).

(** What a handler does, in the order of time: with the response; with
    [console.error]; and what the services it calls do to the outside,
    which are the effects of an orchestrator other than its events, the
    requests to GitHub and the calls to the database. *)
Inductive Wire : Type :=
| res_status_json (code : Z) (body : Body)
| res_json (body : Body)
| res_setHeader (name value : string)
| res_flushHeaders
| res_write (data : SseData)
| res_end
| console_error_line (line : string)
| Outside (x : Effect num)
| Http (r : Request)
| Db (c : MongoCall).

End Server.

Arguments SseData num : clear implicits.
Arguments Wire num : clear implicits.

Section Handlers.

Context {num : Type} {JS : JsNumber num} {NaN : JsNaN num}.
Variable w : World num.
Variable web : Web.
Variable db : Mongo.

(** What [randomUUID()] gives when the report is saved. *)
Variable randomUUID : string.

Local Open Scope act_scope.

(** [sendEvent(data)]: [res.write('data: ' + JSON.stringify(data) + '\n\n')] *)
Definition sendEvent (data : SseData num) : Act (Wire num) unit := perform (res_write data).

(** The three headers of an event stream, and [res.flushHeaders()]. *)
Definition openStream : Act (Wire num) unit :=
  perform (res_setHeader "Content-Type" "text/event-stream") ;;
  perform (res_setHeader "Cache-Control" "no-cache") ;;
  perform (res_setHeader "Connection" "keep-alive") ;;
  perform res_flushHeaders.

(** The body of [persistFn], lines 96-109 of server.js. *)
Definition persistReport (repoUrl : string) (repoContent : RepoContent) (results : Results)
    : Act MongoCall string :=
  let shareId := String_slice (removeAll "-" randomUUID) 0 (Some 16%Z) in
  saveReport db {| _id := shareId;
                   reportRepoName := repoName repoContent;
                   repoUrl := repoUrl;
                   meta := (fileCount repoContent, languages repoContent);
                   data := results |} ;;
  done shareId.

(** [persistFn] as [runCodebaseAnalysis] sees it: absent when
    [MONGODB_URI] is not set; what it resolves to is read for its truth. *)
Definition persistFn (repoUrl : string) (repoContent : RepoContent)
    : option (Results -> Outcome (option string)) :=
  if truthy (MONGODB_URI db) then
    Some (fun results =>
            match fst (persistReport repoUrl repoContent results) with
            | Resolved shareId =>
                Resolved (if String.eqb shareId EmptyString then None else Some shareId)
            | Rejected message => Rejected message
            end)
  else None.

(** An effect of an orchestrator, as the handler that runs it has it: an
    event is written to the response by [sendEvent], and the call of
    [persistFn] is followed by the calls to the database that
    [persistFn] makes. *)
Definition wire (persisting : Results -> list MongoCall) (x : Effect num) : list (Wire num) :=
  match x with
  | Emit e => [res_write (agent_event e)]
  | Invoke (call_persistFn results) => Outside x :: map Db (persisting results)
  | _ => [Outside x]
  end.

(** A run of an orchestrator inside a handler. *)
Definition running {A} (persisting : Results -> list MongoCall) (c : M num A)
    : Act (Wire num) A :=
  (fst c, flat_map (wire persisting) (snd c)).

(** A call of another service inside a handler. *)
Definition calling {E A} (inject : E -> Wire num) (c : Act E A) : Act (Wire num) A :=
  (fst c, map inject (snd c)).

(** [GET /api/run], lines 26-53; [budget] is the value of
    [parseFloat(req.query.budget)]. *)
Definition api_run (task : option string) (budget : num) : Act (Wire num) unit :=
  if negb (truthy task) || isNaN budget then
    perform (res_status_json 400 (error_body "Missing task or budget"))
  else
    openStream ;;
    attempt
      (running (fun _ => []) (runMainAgent w (orElse task "") budget) ;;
       done tt)
      (fun message =>
         perform (console_error_line ("Agent error: " ++ message)%string) ;;
         sendEvent (error_event message)) ;;
    perform res_end.

(** What is done after the handler of [/api/analyze] has ended the stream:
    the callbacks of [Promise.all] that were pending when the analysis threw
    run when their payments settle, and [sendEvent] writes the events they
    emit to the response that was ended. *)
Definition afterAnalyze (repo : string) (budget : num) : Act (Wire num) unit :=
  match fst (fetchRepoContent web repo) with
  | Resolved fetched =>
      (Resolved tt,
       flat_map (wire (fun _ => [])) (stillPending w (repoContent fetched) budget))
  | Rejected _ => done tt
  end.

(** [GET /api/analyze], lines 60-121, and what follows it. *)
Definition api_analyze (repo : option string) (budget : num) : Act (Wire num) unit :=
  if negb (truthy repo) || isNaN budget then
    perform (res_status_json 400 (error_body "Missing repo URL or budget"))
  else
    let repo := orElse repo "" in
    openStream ;;
    attempt
      (sendEvent (fetching_repo repo) ;;
       fetched <- calling Http (fetchRepoContent web repo) ;;
       let content := repoContent fetched in
       sendEvent (repo_fetched (repoName content) (fileCount content) (languages content)) ;;
       running (fun results => snd (persistReport repo content results))
         (runCodebaseAnalysis w content budget (persistFn repo content)) ;;
       done tt)
      (fun message =>
         perform (console_error_line ("Analysis error: " ++ message)%string) ;;
         sendEvent (error_event message)) ;;
    perform res_end ;;
    afterAnalyze repo budget.

(** [GET /api/report/:shareId], lines 127-139. *)
Definition api_report (shareId : string) : Act (Wire num) unit :=
  if negb (truthy (MONGODB_URI db)) then
    perform (res_status_json 503 (error_body "MongoDB not configured on this server."))
  else
    attempt
      (found <- calling Db (getReport db shareId) ;;
       match found with
       | None => perform (res_status_json 404 (error_body "Report not found or expired."))
       | Some doc => perform (res_json (report_body doc))
       end)
      (fun message =>
         perform (console_error_line ("Report fetch error: " ++ message)%string) ;;
         perform (res_status_json 500 (error_body message))).

(** [GET /api/health], lines 142-144. *)
Definition api_health : Act (Wire num) unit := perform (res_json health_body).

End Handlers.

(* ================================================================= *)
(** ** Reading what a handler did *)

Section WireReading.

Context {num : Type}.

(** What was written to the stream, in order. *)
Definition writes (t : list (Wire num)) : list (SseData num) :=
  flat_map (fun x => match x with res_write d => [d] | _ => [] end) t.

(** What the orchestrator did to the outside: its calls, its lines on the
    console and its assignments. *)
Definition outside (t : list (Wire num)) : list (Effect num) :=
  flat_map (fun x => match x with Outside e => [e] | _ => [] end) t.

(** The requests sent to GitHub. *)
Definition requests (t : list (Wire num)) : list Request :=
  flat_map (fun x => match x with Http r => [r] | _ => [] end) t.

(** What ends the handling of a request: a response in JSON, or the end of
    the stream. *)
Definition isAnswer (x : Wire num) : bool :=
  match x with
  | res_status_json _ _ | res_json _ | res_end => true
  | _ => false
  end.

(** A handler that does not fail and answers once, the answer being the
    last thing it does. *)
Definition answersOnce (h : Act (Wire num) unit) : Prop :=
  fst h = Resolved tt
  /\ exists t a, snd h = t ++ [a] /\ isAnswer a = true /\ filter isAnswer t = [].

(** A handler that does not fail and answers once, [later] being what is
    done after the answer. *)
Definition answersOnceThen (h : Act (Wire num) unit) (later : list (Wire num)) : Prop :=
  fst h = Resolved tt
  /\ exists t a,
       snd h = t ++ [a] ++ later
       /\ isAnswer a = true /\ filter isAnswer t = [] /\ filter isAnswer later = [].

(** A completion written to the stream, or an assignment to
    [remainingBudget]. *)
Definition isLateCompletion (x : Wire num) : bool :=
  match x with
  | res_write (agent_event (agent_complete _ _ _ _ _ _)) => true
  | Outside (Assign _) => true
  | _ => false
  end.

(** The events as the stream carries them. *)
Definition streamed (evs : list (Event num)) : list (SseData num) := map agent_event evs.

(** An effect of the analysis that is neither the call of [persistFn] nor
    the announcement of a saved report. *)
Definition apartFromSaving (x : Effect num) : bool :=
  match x with
  | Emit (report_saved _) => false
  | Invoke (call_persistFn _) => false
  | _ => true
  end.

End WireReading.

(** The four effects that open a stream. *)
Definition opening {num : Type} : list (Wire num) :=
  [ res_setHeader "Content-Type" "text/event-stream";
    res_setHeader "Cache-Control" "no-cache";
    res_setHeader "Connection" "keep-alive";
    res_flushHeaders ].

(* ================================================================= *)
(** ** The payments of a run *)

(** The remaining budget after the payments [ps], taken one after the
    other from [r], each with the rounding of line 169 of agentService.js
    and of lines 419 and 450 of codebaseAgentService.js. *)
Definition deductAll {num : Type} {JS : JsNumber num} (r : num) (ps : list num) : num :=
  fold_left deduct ps r.

(** The agents of the parallel phase that succeeded, in the order of the
    array [phase2]. *)
Definition succeeded {num : Type} (w : World num) (c : CodeReaderResult) : list Agent :=
  filter (fun a => resolved (parallel_answer w c a))
    [SimplifierAgent; AnalogyAgent; InsightAgent].

(* ================================================================= *)
(** ** Some repositories, networks and databases *)

(** The tree of a repository: a directory, three files that are read, a
    file of a skipped directory and a lock file. *)
Definition someTree : list TreeNode :=
  [ {| type := "tree"; path := "src" |};
    {| type := "blob"; path := "src/server.js" |};
    {| type := "blob"; path := "README.md" |};
    {| type := "blob"; path := "node_modules/cors/index.js" |};
    {| type := "blob"; path := "package-lock.json" |};
    {| type := "blob"; path := "package.json" |} ].

(** The order of the code units, for [localeCompare]. *)
Definition byCodeUnits (a b : string) : Z :=
  match String.compare a b with
  | Lt => (-1)%Z
  | Eq => 0%Z
  | Gt => 1%Z
  end.

(** The network on which the API answers with [someTree] on the branch
    [main], and the raw host answers every request with [raw]. *)
Definition answering (raw : Outcome (Response string)) : Web :=
  {| GITHUB_TOKEN := None;
     localeCompare := byCodeUnits;
     fetchRepo := fun _ =>
       Resolved {| ok := true; status := 200%Z;
                   body := Resolved {| default_branch := Some "main" |} |};
     fetchTree := fun _ =>
       Resolved {| ok := true; status := 200%Z;
                   body := Resolved {| truncated := false; tree := Some someTree |} |};
     fetchRaw := fun _ => raw |}.

(** The raw host serves every file, and serves none. *)
Definition github : Web :=
  answering (Resolved {| ok := true; status := 200%Z; body := Resolved "module.exports = 1" |}).

Definition rawDown : Web :=
  answering (Resolved {| ok := false; status := 500%Z; body := Rejected "no body" |}).

(** No request is answered. *)
Definition offline : Web :=
  {| GITHUB_TOKEN := None;
     localeCompare := byCodeUnits;
     fetchRepo := fun _ => Rejected "fetch failed";
     fetchTree := fun _ => Rejected "fetch failed";
     fetchRaw := fun _ => Rejected "fetch failed" |}.

(** A database that is set, not yet connected, and does what it is asked. *)
Definition someMongo : Mongo :=
  {| readyState := 0%Z;
     MONGODB_URI := Some "mongodb://localhost:27017/paystream";
     connect := fun _ => Resolved tt;
     save := fun _ => Resolved tt;
     findById := fun _ => Resolved None |}.

Definition someUUID : string := "123e4567-e89b-42d3-a456-426614174000".

(** Some files to summarize. *)
Definition someFiles : list (string * string) :=
  [("src/server.js", "const express = require('express')"); ("README.md", "# PayStream")].

(** A report, and a database that is connected and holds it. *)
Definition someReport : Report :=
  {| _id := "123e4567e89b42d3";
     reportRepoName := "owner/repo";
     repoUrl := "https://github.com/owner/repo";
     meta := (1%nat, ["js"]);
     data := [] |}.

Definition keeping : Mongo :=
  {| readyState := 1%Z;
     MONGODB_URI := Some "mongodb://localhost:27017/paystream";
     connect := fun _ => Rejected "already connected";
     save := fun _ => Resolved tt;
     findById := fun shareId =>
       if String.eqb shareId "123e4567e89b42d3" then Resolved (Some someReport)
       else Resolved None |}.

(* ================================================================= *)
(** ** The numbers at work *)

(** [Math.round] on binary64 numbers: halves go up, also below zero; a
    negative number that rounds to zero gives the negative zero; the
    largest number below one half rounds to zero; whole numbers and NaN are
    returned as they are. *)
Lemma Math_round_binary64 :
  f64_round 0.5 = 1%float
  /\ f64_round 2.5 = 3%float
  /\ f64_round (-1.5) = (-1)%float
  /\ f64_round (-0.2) = PrimFloat.neg_zero
  /\ f64_round 10.499999999999998 = 10%float
  /\ f64_round 0.49999999999999994 = 0%float
  /\ f64_round 1e21 = 1e21%float
  /\ f64_round PrimFloat.nan = PrimFloat.nan.
Proof. repeat split; vm_compute; reflexivity. Qed.

(** The literal 0.30 in the two models. *)
Lemma AGENT_BUDGET_RATIO_value :
  AGENT_BUDGET_RATIO (JS := F64) = 0.3%float /\ AGENT_BUDGET_RATIO (JS := Exact) = 30 # 100.
Proof. split; vm_compute; reflexivity. Qed.

(** What the exact arithmetic pays is not always what binary64 pays: on
    a budget of 0.32 the default plan pays 0.04, 0.03 and 0.03 in
    binary64, where 0.35 * 0.1 * 100 is 3.4999999999999996, and 0.04,
    0.04 and 0.03 in exact arithmetic. *)
Lemma Exact_is_not_binary64 :
  map (fun st => payment (JS := F64) (allocation st) (totalAgentBudget 0.32%float))
    (defaultSteps "task")
  = [0.04; 0.03; 0.03]%float
  /\ map (fun st => payment (JS := Exact) (allocation st) (totalAgentBudget (32 # 100)))
       (defaultSteps "task")
     = [4 # 100; 4 # 100; 3 # 100]%Q.
Proof. split; vm_compute; reflexivity. Qed.

(* ================================================================= *)
(** ** Calls that resolve *)

Lemma resolved_inv {A} (o : Outcome A) : resolved o = true -> exists v, o = Resolved v.
Proof. destruct o as [v|m]; [eauto | discriminate]. Qed.

Lemma rejected_not_resolved {A} (o : Outcome A) message :
  o = Rejected message -> resolved o = true -> False.
Proof. intros ->; discriminate. Qed.

(** Name the value a call resolves to, when the hypotheses say that it
    resolves. *)
Ltac name_answer o :=
  let v := fresh "v" in
  let E := fresh "E" in
  destruct o as [v|?] eqn:E;
  [ | exfalso;
      first [ eapply rejected_not_resolved; [exact E | solve [auto]]
            | match goal with H : resolved (Rejected _) = true |- _ => discriminate H end ] ].

(** The same for a call that the goal is waiting for. *)
Ltac await_ok :=
  match goal with
  | |- context [match ?o with Resolved _ => _ | Rejected _ => _ end] => name_answer o
  end.

Lemma bind_resolved {num A B} (c : M num A) (k : A -> M num B) b t :
  bind c k = (Resolved b, t) ->
  exists a t1 t2, c = (Resolved a, t1) /\ k a = (Resolved b, t2) /\ t = t1 ++ t2.
Proof.
  unfold bind. destruct c as [[a|m] t1]; [|discriminate].
  destruct (k a) as [r t2] eqn:E. intros H. injection H as -> <-. eauto 6.
Qed.

(** Take apart a hypothesis that says that a computation of the services
    returned: every step of it returned, and the trace is the traces of the
    steps one after the other. *)
Ltac returned :=
  repeat match goal with
  | H : bind _ _ = (Resolved _, _) |- _ =>
      let a := fresh "a" in
      let t1 := fresh "t" in
      let t2 := fresh "t" in
      let H1 := fresh "H" in
      apply bind_resolved in H; destruct H as (a & t1 & t2 & H1 & H & ->)
  | H : await _ _ = (Resolved _, _) |- _ => unfold await in H; injection H as H <-
  | H : start _ = (Resolved _, _) |- _ => unfold start in H; inversion H; clear H; subst
  | H : onEvent _ = (Resolved _, _) |- _ => unfold onEvent in H; inversion H; clear H; subst
  | H : console_error _ = (Resolved _, _) |- _ =>
      unfold console_error in H; inversion H; clear H; subst
  | H : console_log_exhausted _ _ = (Resolved _, _) |- _ =>
      unfold console_log_exhausted in H; inversion H; clear H; subst
  | H : assign_remainingBudget _ = (Resolved _, _) |- _ =>
      unfold assign_remainingBudget in H; inversion H; clear H; subst
  | H : ret _ = (Resolved _, _) |- _ => unfold ret in H; inversion H; clear H; subst
  | H : throw _ = (Resolved _, _) |- _ => discriminate H
  | H : (let (_, _) := ?p in _) = (Resolved _, _) |- _ => destruct p
  | H : match ?x with Some _ => _ | None => _ end = (Resolved _, _) |- _ => destruct x eqn:?
  end.

Section Traces.

Context {num : Type} {JS : JsNumber num}.

Lemma events_app (t1 t2 : Trace num) : events (t1 ++ t2) = events t1 ++ events t2.
Proof. apply flat_map_app. Qed.

Lemma events_invoke c (t : Trace num) : events (Invoke c :: t) = events t.
Proof. reflexivity. Qed.

Lemma calls_app (t1 t2 : Trace num) : calls (t1 ++ t2) = calls t1 ++ calls t2.
Proof. apply flat_map_app. Qed.

Lemma errors_app (t1 t2 : Trace num) : errors (t1 ++ t2) = errors t1 ++ errors t2.
Proof. apply flat_map_app. Qed.

Lemma assigned_app (t1 t2 : Trace num) : assigned (t1 ++ t2) = assigned t1 ++ assigned t2.
Proof. apply flat_map_app. Qed.

Lemma last_after {A} (l1 l2 : list A) (d : A) : l2 <> [] -> last (l1 ++ l2) d = last l2 d.
Proof.
  intros Hne. induction l1 as [|x l1 IH]; [reflexivity|].
  cbn [app]. destruct (l1 ++ l2) eqn:E; [|exact IH].
  apply app_eq_nil in E. now destruct E.
Qed.

Lemma count_app {A} (f : A -> bool) (l1 l2 : list A) :
  count f (l1 ++ l2) = (count f l1 + count f l2)%nat.
Proof. unfold count. now rewrite filter_app, length_app. Qed.

Lemma calm_ledger_ok : ledger_ok (@calm num).
Proof. repeat split. Qed.

Lemma calm_model_ok : model_ok (@calm num).
Proof. repeat split. Qed.

(** What [runMainAgent] returns when it returns: the refund it made is what
    it reports as refunded, and what it reports as spent is the budget less
    the refund. *)
Lemma runMainAgent_returns (w : World num) task B out t :
  runMainAgent w task B = (Resolved out, t) ->
  spent out = (B - refunded out)%js
  /\ exists scheduleId,
       In (Invoke (call_refundRemainder scheduleId (refunded out))) t
       /\ In (Emit (refund (refunded out) (refundTxId out))) t.
Proof.
  unfold runMainAgent. intros H. returned. cbn [spent refunded refundTxId].
  split; [reflexivity|].
  eexists. rewrite !in_app_iff. cbn. split; eauto 12.
Qed.

(** The same for [runCodebaseAnalysis]. *)
Lemma runCodebaseAnalysis_returns (w : World num) repo B persistFn out t :
  runCodebaseAnalysis w repo B persistFn = (Resolved out, t) ->
  analysisSpent out = (B - analysisRefunded out)%js
  /\ exists scheduleId txId,
       In (Invoke (call_refundRemainder scheduleId (analysisRefunded out))) t
       /\ In (Emit (refund (analysisRefunded out) txId)) t.
Proof.
  unfold runCodebaseAnalysis. intros H. returned. unfold finalize in H. returned.
  cbn [analysisSpent analysisRefunded].
  split; [reflexivity|].
  do 2 eexists. rewrite !in_app_iff. cbn. split; eauto 20.
Qed.

End Traces.

(* ================================================================= *)
(** ** The loop of [runMainAgent] *)

Section Loop.

Context {num : Type} {JS : JsNumber num}.
Variable w : World num.
Local Open Scope js_scope.

Lemma started_app (l1 l2 : list (Event num)) : started (l1 ++ l2) = started l1 ++ started l2.
Proof. apply flat_map_app. Qed.

Lemma started_step_events total ds :
  started (flat_map (step_events total) ds) = map (fun d => fst (fst d)) ds.
Proof.
  induction ds as [|[[st txId] r] ds IH]; [reflexivity|].
  cbn [flat_map map fst]. rewrite started_app, IH. now destruct st.
Qed.

(** A loop that returns has emitted, for each step it dispatched, the start
    and then the completion, and nothing else; the steps it dispatched are
    the first steps of the plan. *)
Lemma runSteps_returned total planned steps : forall i r res r' res' t,
  runSteps w total planned i steps r res = (Resolved (r', res'), t) ->
  exists ds,
    events t = flat_map (step_events total) ds
    /\ map (fun d => fst (fst d)) ds = firstn (List.length ds) steps
    /\ assigned t = map snd ds
    /\ paid t = map (fun d => payment (allocation (fst (fst d))) total) ds.
Proof.
  induction steps as [|st rest IH]; intros i r res r' res' t H; cbn [runSteps] in H.
  - returned. now exists [].
  - destruct (r <? payment (allocation st) total) eqn:Hcheck.
    + returned. now exists [].
    + returned. apply IH in H. destruct H as (ds & Hev & Hpre & Has & Hpaid).
      exists ((st, a1, deduct r (payment (allocation st) total)) :: ds).
      unfold paid in *.
      rewrite !events_app, !assigned_app, !calls_app.
      cbn. rewrite Hev, Hpre, Has, Hpaid. auto.
Qed.

(** When the sub-agents and the payments resolve, the loop returns, and the
    steps it dispatched are those the budget covers. *)
Lemma runSteps_covered total planned steps :
  (forall i name task, resolved (runSubAgent w i name task) = true) ->
  (forall i name amount memo, resolved (paySubAgent w i name amount memo) = true) ->
  forall i r res, exists r' res' t,
    runSteps w total planned i steps r res = (Resolved (r', res'), t)
    /\ started (events t) = affordable total steps r
    /\ (affordable total steps r = [] -> r' = r /\ calls t = []).
Proof.
  intros Hsub Hpay.
  induction steps as [|st rest IH]; intros i r res; cbn [runSteps affordable].
  - do 3 eexists. repeat split; reflexivity.
  - destruct (r <? payment (allocation st) total) eqn:Hcheck.
    + do 3 eexists. repeat split; reflexivity.
    + destruct (resolved_inv _ (Hsub i (agent st) (task st))) as [out Eout].
      destruct (resolved_inv _ (Hpay i (agent st) (payment (allocation st) total) (task st)))
        as [txId Etx].
      destruct (IH (S i) (deduct r (payment (allocation st) total))
                  (res ++ [ {| agentName := agent st; resultTask := task st;
                               result := out |} ]))
        as (r' & res' & t & Hrun & Hst & _).
      exists r', res'. eexists.
      split; [|split].
      * unfold bind at 1. cbn [onEvent]. unfold bind at 1. rewrite Eout. cbn [await].
        unfold bind at 1. rewrite Etx. cbn [await].
        unfold bind at 1. cbn [assign_remainingBudget].
        unfold bind at 1. cbn [onEvent]. rewrite Hrun. reflexivity.
      * rewrite !events_app, !started_app. cbn. rewrite Hst. now destruct st.
      * discriminate.
Qed.

(** The events of a run of [runMainAgent] that returns. *)
Lemma runMainAgent_events task B out t :
  runMainAgent w task B = (Resolved out, t) ->
  exists text steps ds,
    planResponse w task = Resolved text
    /\ parseSteps text task = Some steps
    /\ map (fun d => fst (fst d)) ds = firstn (List.length ds) steps
    /\ events t = flat_map (step_events (totalAgentBudget B)) ds
                  ++ [report (finalReport out); refund (refunded out) (refundTxId out)]
    /\ assigned t = map snd ds.
Proof.
  unfold runMainAgent. intros H. returned.
  match goal with
  | E : runSteps _ _ _ _ _ _ _ = _ |- _ =>
      apply runSteps_returned in E; destruct E as (ds & Hev & Hpre & Has & _)
  end.
  do 2 eexists. exists ds. split; [eassumption|]. split; [eassumption|].
  repeat split; auto.
  - rewrite !events_app. cbn. now rewrite Hev.
  - rewrite !assigned_app. cbn. now rewrite Has, app_nil_r.
Qed.

(** When every call resolves and the planner's reply gives the steps
    [steps], the run returns, and the steps it dispatched are those the
    budget covers. *)
Lemma runMainAgent_covered task B text steps :
  ledger_ok w -> model_ok w ->
  planResponse w task = Resolved text -> parseSteps text task = Some steps ->
  exists out t,
    runMainAgent w task B = (Resolved out, t)
    /\ started (events t) = affordable (totalAgentBudget B) steps B
    /\ (affordable (totalAgentBudget B) steps B = [] ->
        refunded out = B /\ paid t = [] /\ count (fun c => match c with
                                                           | call_runSubAgent _ _ => true
                                                           | _ => false
                                                           end) (calls t) = 0%nat).
Proof.
  intros (Hinit & Htopic & Hfund & Hpay & Hrefund) (Hplan & Hsub & Hreport) Etext Esteps.
  destruct (resolved_inv _ Hinit) as [[] E0].
  destruct (resolved_inv _ Htopic) as [topic E1].
  destruct (resolved_inv _ (Hfund B)) as [scheduleId E2].
  destruct (@runSteps_covered (totalAgentBudget B) (List.length steps) steps Hsub Hpay
              0%nat B []) as (r' & res' & t & Hrun & Hst & Hnone).
  destruct (resolved_inv _ (Hreport task res')) as [text' E3].
  destruct (resolved_inv _ (Hrefund scheduleId r')) as [txId E4].
  do 2 eexists. split; [|split].
  - unfold runMainAgent. rewrite E0, E1, E2, Etext. cbn [bind await].
    rewrite Esteps, Hrun. cbn [bind await]. rewrite E3. cbn [bind await onEvent].
    rewrite E4. cbn [bind await onEvent ret]. reflexivity.
  - rewrite !events_app, !started_app. cbn. now rewrite Hst, app_nil_r.
  - intros Hnil. destruct (Hnone Hnil) as [-> Hcalls]. cbn [refunded].
    unfold paid. rewrite !calls_app, Hcalls. cbn. auto.
Qed.

End Loop.

(* ================================================================= *)
(** ** Comparing binary64 numbers *)

Section Comparing.

Local Open Scope float_scope.

Lemma SFcompare_antisym (x y : spec_float) :
  SFcompare y x = option_map CompOpp (SFcompare x y).
Proof.
  destruct x as [s1| s1 | |s1 m1 e1], y as [s2| s2 | |s2 m2 e2]; cbn;
    try destruct s1; try destruct s2; try reflexivity.
  - rewrite (Z.compare_antisym e1 e2). destruct (e1 ?= e2)%Z; cbn; try reflexivity.
    f_equal. f_equal. exact (eq_sym (Pos.compare_cont_antisym m1 m2 Eq)).
  - rewrite (Z.compare_antisym e1 e2). destruct (e1 ?= e2)%Z; cbn; try reflexivity.
    f_equal. exact (eq_sym (Pos.compare_cont_antisym m1 m2 Eq)).
Qed.

Lemma is_nan_false (x : float) : PrimFloat.is_nan x = false -> Prim2SF x <> S754_nan.
Proof.
  unfold PrimFloat.is_nan. rewrite FloatAxioms.eqb_spec. intros H E. rewrite E in H. discriminate.
Qed.

Lemma is_nan_true (x : float) : PrimFloat.is_nan x = true -> Prim2SF x = S754_nan.
Proof.
  unfold PrimFloat.is_nan. rewrite FloatAxioms.eqb_spec. unfold SFeqb.
  destruct (Prim2SF x) as [s|s| |s m e]; cbn [SFcompare negb];
    try destruct s; try discriminate; try reflexivity.
  all: rewrite Z.compare_refl, Pos.compare_cont_refl; discriminate.
Qed.

(** On numbers that are not NaN, the test of the loop is the check of the
    spec: [r < p] is false when [r] is at least [p], and then only. *)
Lemma ltb_atLeast (r p : float) :
  PrimFloat.is_nan r = false -> PrimFloat.is_nan p = false ->
  PrimFloat.ltb r p = negb (atLeast r p).
Proof.
  intros Hr Hp. apply is_nan_false in Hr. apply is_nan_false in Hp.
  unfold atLeast. rewrite FloatAxioms.ltb_spec, FloatAxioms.leb_spec. unfold SFltb, SFleb.
  rewrite (SFcompare_antisym (Prim2SF r) (Prim2SF p)).
  destruct (SFcompare (Prim2SF r) (Prim2SF p)) as [[| |]|] eqn:E; try reflexivity.
  exfalso. destruct (Prim2SF r) as [s1| s1 | |s1 m1 e1], (Prim2SF p) as [s2| s2 | |s2 m2 e2];
    try discriminate E; congruence.
Qed.

(** A payment that is NaN passes the test of the loop, and is not covered
    in the words of the spec. *)
Lemma nan_passes (r p : float) :
  PrimFloat.is_nan p = true -> PrimFloat.ltb r p = false /\ atLeast r p = false.
Proof.
  intros Hp. apply is_nan_true in Hp. unfold atLeast.
  rewrite FloatAxioms.ltb_spec, FloatAxioms.leb_spec, Hp. unfold SFltb, SFleb.
  split; [destruct (Prim2SF r) | reflexivity]; reflexivity.
Qed.

(** When no number compared is NaN, the steps that the loop dispatches are
    those that the budget covers in the words of the spec. *)
Lemma affordable_covered total steps : forall r,
  comparable total steps r = true -> affordable total steps r = covered total steps r.
Proof.
  induction steps as [|st rest IH]; intros r H; [reflexivity|].
  cbn [comparable affordable covered] in *.
  apply andb_prop in H. destruct H as [H Hrest].
  apply andb_prop in H. destruct H as [Hr Hp].
  apply negb_true_iff in Hr. apply negb_true_iff in Hp.
  cbn [nlt F64]. rewrite (@ltb_atLeast r _ Hr Hp) in *.
  destruct (atLeast r (payment (allocation st) total)); cbn [negb] in *; [|reflexivity].
  now rewrite IH.
Qed.

End Comparing.

(* ================================================================= *)
(** ** Planning *)

Section Planning.

Local Open Scope float_scope.

(** C2, as the spec states it, fails: a reply that parses is used as it is.
    An empty list of steps is the plan of the run, which dispatches nothing
    (its allocations sum to 0); allocations of 90 and 90, out of the bounds
    and of sum 180, are the plan of the run; and a reply without a list of
    steps ends the run with a TypeError. *)
Lemma parsed_plan_is_not_validated :
  parseSteps (JS := F64) (JsonObject (Some [])) "task" = Some []
  /\ allocated (JS := F64) [] = 0
  /\ started (events (snd (runMainAgent (JS := F64) (replying (JsonObject (Some []))) "task" 1)))
     = []
  /\ parseSteps (JS := F64) (JsonObject (Some greedyPlan)) "task" = Some greedyPlan
  /\ allocated (JS := F64) greedyPlan = 180
  /\ started (events (snd (runMainAgent (JS := F64) (replying (JsonObject (Some greedyPlan)))
                             "task" 1)))
     = greedyPlan
  /\ fst (runMainAgent (JS := F64) (replying (JsonObject None)) "task" 1) = Rejected "TypeError".
Proof. repeat split; vm_compute; reflexivity. Qed.

(** C2, amended: when the planner's reply cannot be parsed (it holds no JSON
    object, or [JSON.parse] throws), the plan is the default plan built from
    the task, of allocations 40, 35 and 25, which sum to 100; and when the
    other calls resolve the run returns, having dispatched the steps of the
    default plan that the budget covers. *)
Theorem fallback_on_unparsable_reply (w : World float) (task : string) (B : float) :
  ledger_ok w -> model_ok w ->
  planResponse w task = Resolved NoJsonObject \/ planResponse w task = Resolved InvalidJson ->
  (exists text, planResponse w task = Resolved text
                /\ parseSteps (JS := F64) text task = Some (defaultSteps task))
  /\ map (@allocation float) (defaultSteps task) = [40; 35; 25]
  /\ allocated (defaultSteps task) = 100
  /\ exists out t,
       runMainAgent w task B = (Resolved out, t)
       /\ started (events t) = affordable (totalAgentBudget B) (defaultSteps task) B.
Proof.
  intros Hledger Hmodel Hreply.
  assert (Hparse : exists text, planResponse w task = Resolved text
                     /\ parseSteps (JS := F64) text task = Some (defaultSteps task))
    by (destruct Hreply as [E | E]; eexists; (split; [exact E | reflexivity])).
  split; [exact Hparse|].
  split; [reflexivity|].
  split; [vm_compute; reflexivity|].
  destruct Hparse as (text & Etext & Esteps).
  destruct (runMainAgent_covered task B Hledger Hmodel Etext Esteps) as (out & t & Hrun & Hst & _).
  eauto.
Qed.

Lemma fallback_on_unparsable_reply_witness :
  ledger_ok (@calm float) /\ model_ok (@calm float)
  /\ exists out t,
       runMainAgent (JS := F64) calm "task" 1 = (Resolved out, t)
       /\ started (events t) = affordable (totalAgentBudget 1) (defaultSteps "task") 1.
Proof.
  split; [apply calm_ledger_ok|]. split; [apply calm_model_ok|].
  apply (fallback_on_unparsable_reply (w := calm) "task" 1);
    [apply calm_ledger_ok | apply calm_model_ok | left; reflexivity].
Defined.




End Planning.

(* ================================================================= *)
(** ** Conservation *)

(** In exact arithmetic, a run of either orchestrator that returns reports
    amounts spent and refunded whose sum is the budget, whatever the work
    steps did; the amount refunded is the remaining budget handed to the
    ledger's refund, and the amount spent is the budget less it. *)
Lemma conservation_exact (w : World Q) (task : string) (repo : RepoContent)
    (persistFn : option (Results -> Outcome (option string))) (B : Q) :
  (forall out t, runMainAgent w task B = (Resolved out, t) ->
     spent out + refunded out == B
     /\ spent out = B - refunded out
     /\ exists scheduleId, In (Invoke (call_refundRemainder scheduleId (refunded out))) t)
  /\ (forall out t, runCodebaseAnalysis w repo B persistFn = (Resolved out, t) ->
     analysisSpent out + analysisRefunded out == B
     /\ analysisSpent out = B - analysisRefunded out
     /\ exists scheduleId,
          In (Invoke (call_refundRemainder scheduleId (analysisRefunded out))) t).
Proof.
  split; intros out t H.
  - apply runMainAgent_returns in H. destruct H as (Hs & sched & Hr & _).
    cbn in Hs. rewrite Hs. repeat split; [ring | eauto].
  - apply runCodebaseAnalysis_returns in H. destruct H as (Hs & sched & tx & Hr & _).
    cbn in Hs. rewrite Hs. repeat split; [ring | eauto].
Qed.

(* ================================================================= *)
(** ** Scenario A: budget 1, the default plan *)

Section ScenarioA.

Local Open Scope float_scope.

(** The agent pool of a budget of 1 is 0.3, and the three shares of the
    default plan are rounded to cents. *)
Lemma scenarioA_amounts :
  totalAgentBudget (JS := F64) 1 = 0.3
  /\ payment (JS := F64) 40 0.3 = 0.12
  /\ payment (JS := F64) 35 0.3 = 0.11
  /\ payment (JS := F64) 25 0.3 = 0.08.
Proof. repeat split; vm_compute; reflexivity. Qed.

(** C6, as the spec states it, fails: the run of the default plan on a budget
    of 1 pays 0.12, 0.11 and 0.08, not 0.12, 0.105 and 0.075; it reports
    0.31 spent (as the binary64 difference 1 - 0.69) and 0.69 refunded, not
    0.3 and 0.7. Exact arithmetic gives the same payments and the same
    remaining budgets. *)
Lemma scenarioA_spec_amounts_differ :
  paid (snd (runMainAgent (JS := F64) calm "task" 1)) = [0.12; 0.11; 0.08]
  /\ fst (runMainAgent (JS := F64) calm "task" 1)
     = Resolved {| finalReport := "Final report";
                   results := [ {| agentName := "Research Agent";
                                   resultTask := "Research and find relevant information for: task";
                                   result := "done" |};
                                {| agentName := "Analysis Agent";
                                   resultTask := "Analyze and evaluate the findings for: task";
                                   result := "done" |};
                                {| agentName := "Writer Agent";
                                   resultTask := "Write a clear final report for: task";
                                   result := "done" |} ];
                   spent := 0.31000000000000005;
                   refunded := 0.69;
                   refundTxId := "tx:refund" |}
  /\ PrimFloat.eqb 0.11 0.105 = false
  /\ PrimFloat.eqb 0.08 0.075 = false
  /\ PrimFloat.eqb 0.31000000000000005 0.3 = false
  /\ PrimFloat.eqb 0.69 0.7 = false
  /\ paid (snd (runMainAgent (JS := Exact) calm "task" 1%Q))
     = [(12 # 100)%Q; (11 # 100)%Q; (8 # 100)%Q]
  /\ assigned (snd (runMainAgent (JS := Exact) calm "task" 1%Q))
     = [(88 # 100)%Q; (77 # 100)%Q; (69 # 100)%Q].
Proof. repeat split; vm_compute; reflexivity. Qed.

(** C6, amended: on a budget of 1, when the planner's reply cannot be parsed
    and every call resolves, the agent pool is 0.3, the three payments are
    0.12, 0.11 and 0.08, the run returns, and it reports 0.31 spent (the
    binary64 value of 1 - 0.69) and 0.69 refunded. *)
Theorem scenarioA (w : World float) (task : string) :
  ledger_ok w -> model_ok w ->
  planResponse w task = Resolved NoJsonObject \/ planResponse w task = Resolved InvalidJson ->
  totalAgentBudget (JS := F64) 1 = 0.3
  /\ paid (snd (runMainAgent w task 1)) = [0.12; 0.11; 0.08]
  /\ exists out, fst (runMainAgent w task 1) = Resolved out
       /\ spent out = 0.31000000000000005 /\ refunded out = 0.69.
Proof.
  intros (Hinit & Htopic & Hfund & Hpay & Hrefund) (Hplan & Hsub & Hreport) Hreply.
  split; [vm_compute; reflexivity|].
  unfold runMainAgent.
  destruct Hreply as [E2 | E2]; rewrite E2; clear E2 Hplan.
  all: destruct w; cbn in Hinit, Htopic, Hfund, Hpay, Hrefund, Hsub, Hreport.
  all: vm_compute; repeat (await_ok; vm_compute).
  all: split; [reflexivity | eexists; split; [reflexivity | split; reflexivity]].
Qed.

End ScenarioA.


(* ================================================================= *)
(** ** The phases of the codebase analysis *)

(** Follow a computation that returned through every answer the world may
    have given: an agent resolved or rejected, the payments settled in one
    order or another. *)
Ltac explore H :=
  repeat (cbn in H;
          match type of H with
          | context [match ?o with Resolved _ => _ | Rejected _ => _ end] => destruct o eqn:?
          | context [match ?o with Some _ => _ | None => _ end] => destruct o eqn:?
          | context [if ?b then _ else _] => destruct b eqn:?
          end);
  cbn in H; try discriminate H; inversion H; subst; clear H.

(** Take each of the four agents in turn. *)
Ltac each_agent :=
  match goal with
  | |- forall a : Agent, _ => intros []
  | |- _ => idtac
  end.

(** One goal for each part of a conjunction. *)
Ltac parts := repeat match goal with |- _ /\ _ => split end.

(** Use what is known of the answers of the world. *)
Ltac recall :=
  repeat match goal with
  | E : ?o = Resolved _, H : ?o = _ |- _ => rewrite E in H
  | E : ?o = Rejected _, H : ?o = _ |- _ => rewrite E in H
  | E : ?o = Resolved _ |- context [?o] => rewrite E
  | E : ?o = Rejected _ |- context [?o] => rewrite E
  end.

Section Phases.

Context {num : Type} {JS : JsNumber num}.
Variable w : World num.

Lemma progress_app name (evs1 evs2 : list (Event num)) : forall p,
  progress name p (evs1 ++ evs2)
  = match progress name p evs1 with
    | Some p' => progress name p' evs2
    | None => None
    end.
Proof.
  induction evs1 as [|e evs1 IH]; intros p; [reflexivity|].
  cbn [app progress].
  destruct (is_start_of name e); [destruct p; auto|].
  destruct (is_complete_of name e || is_error_of name e); [destruct p; auto|].
  apply IH.
Qed.

Lemma worked_app name (t1 t2 : Trace num) :
  worked name (t1 ++ t2) = (worked name t1 + worked name t2)%nat.
Proof. unfold worked. now rewrite calls_app, count_app. Qed.

Lemma paidTo_app name (t1 t2 : Trace num) :
  paidTo name (t1 ++ t2) = (paidTo name t1 + paidTo name t2)%nat.
Proof. unfold paidTo. now rewrite calls_app, count_app. Qed.

Lemma failed_app name (t1 t2 : Trace num) :
  failed name (t1 ++ t2) = (failed name t1 + failed name t2)%nat.
Proof. unfold failed. now rewrite events_app, count_app. Qed.

Lemma completed_app name (t1 t2 : Trace num) :
  completed name (t1 ++ t2) = (completed name t1 + completed name t2)%nat.
Proof. unfold completed. now rewrite events_app, count_app. Qed.

(** Phase 1 when it returns. *)
Lemma foundation_summary jobDesc total r c res r' t :
  foundation w jobDesc total r = (Resolved (c, res, r'), t) ->
  c = codeReaderUsed w
  /\ res = [(agent_key CodeReaderAgent, CodeReaderOutput c)]
  /\ r' = deduct r (pay total CodeReaderAgent)
  /\ assigned t = [r']
  /\ (forall a, worked (agent_name a) t = if is_parallel a then 0 else 1)%nat
  /\ (forall a, paidTo (agent_name a) t = if is_parallel a then 0 else 1)%nat
  /\ (forall a, completed (agent_name a) t = if is_parallel a then 0 else 1)%nat
  /\ (forall a, failed (agent_name a) t
                = if is_parallel a || resolved (runCodeReaderAgent w) then 0 else 1)%nat
  /\ (forall message, runCodeReaderAgent w = Rejected message ->
        In (agent_error (agent_name CodeReaderAgent) message) (events t))
  /\ (forall a p, is_parallel a = true -> progress (agent_name a) p (events t) = Some p)
  /\ (resolved (runCodeReaderAgent w) = true ->
        progress (agent_name CodeReaderAgent) NotStarted (events t) = Some Finished)
  /\ count is_persist (calls t) = 0%nat
  /\ settled_remaining (events t) = [r'].
Proof.
  unfold foundation, codeReaderUsed. intros H. explore H.
  all: parts; each_agent; intros; cbn in *; recall; try discriminate; auto.
  all: try match goal with H : Rejected _ = Rejected _ |- _ => injection H as <- end; auto.
Qed.

(** Phase 2 when it returns. *)
Lemma fanOut_summary jobDesc total c res r res' r' t :
  fanOut w jobDesc total c res r = (Resolved (res', r'), t) ->
  incl res res'
  /\ (forall a, worked (agent_name a) t = if is_parallel a then 1 else 0)%nat
  /\ (forall a, paidTo (agent_name a) t
                = if is_parallel a && resolved (parallel_answer w c a) then 1 else 0)%nat
  /\ (forall a, completed (agent_name a) t
                = if is_parallel a && resolved (parallel_answer w c a) then 1 else 0)%nat
  /\ (forall a, failed (agent_name a) t
                = if is_parallel a && negb (resolved (parallel_answer w c a)) then 1 else 0)%nat
  /\ (forall a message, is_parallel a = true -> parallel_answer w c a = Rejected message ->
        In (agent_error (agent_name a) message) (events t))
  /\ (forall a v, is_parallel a = true -> parallel_answer w c a = Resolved v ->
        In (agent_key a, v) res'
        /\ In (call_paySubAgent (agent_name a) (pay total a) jobDesc) (calls t))
  /\ (forall a, is_parallel a = true ->
        progress (agent_name a) NotStarted (events t) = Some Finished)
  /\ (forall p, progress (agent_name CodeReaderAgent) p (events t) = Some p)
  /\ count is_persist (calls t) = 0%nat
  /\ assigned t = settled_remaining (events t)
  /\ chained (fun p => exists a, p = pay total a) r (assigned t).
Proof.
  unfold fanOut, phase2. intros H. explore H.
  all: parts; each_agent; intros; cbn in *; recall; try discriminate; auto.
  all: try match goal with H : Rejected _ = Rejected _ |- _ => injection H as <- end.
  all: try match goal with H : Resolved _ = Resolved _ |- _ => injection H as <- end.
  all: parts; cbn; rewrite ?in_app_iff; cbn; auto 12.
  all: try (intros x Hx; rewrite ?in_app_iff; auto).
  all: eexists; split; [eexists; reflexivity | reflexivity].
Qed.

(** The last part when it returns. *)
Lemma finalize_summary persistFn scheduleId B res r out t :
  finalize w persistFn scheduleId B res r = (Resolved out, t) ->
  analysisResults out = res
  /\ analysisRefunded out = r
  /\ last (calls t) call_initClient = call_refundRemainder scheduleId r
  /\ (exists txId, last (events t) (analysis_complete []) = refund r txId)
  /\ assigned t = []
  /\ settled_remaining (events t) = []
  /\ forall name,
       worked name t = 0%nat /\ paidTo name t = 0%nat
       /\ failed name t = 0%nat /\ completed name t = 0%nat
       /\ forall p, progress name p (events t) = Some p.
Proof.
  unfold finalize, persist. intros H. destruct persistFn as [f|]; explore H.
  all: parts; intros; parts; cbn; eauto.
Qed.

(** When the ledger resolves, each part returns. *)
Lemma foundation_resolves jobDesc total r :
  (forall i name amount memo, resolved (paySubAgent w i name amount memo) = true) ->
  exists x t, foundation w jobDesc total r = (Resolved x, t).
Proof.
  intros Hpay. unfold foundation.
  repeat (cbn; match goal with
               | |- context [match ?o with Resolved _ => _ | Rejected _ => _ end] =>
                   first [ name_answer o | destruct o eqn:? ]
               end).
  all: cbn; eauto.
Qed.

Lemma fanOut_resolves jobDesc total c res r :
  (forall i name amount memo, resolved (paySubAgent w i name amount memo) = true) ->
  exists x t, fanOut w jobDesc total c res r = (Resolved x, t).
Proof.
  intros Hpay. unfold fanOut, phase2.
  repeat (cbn; match goal with
               | |- context [match ?o with Resolved _ => _ | Rejected _ => _ end] =>
                   first [ name_answer o | destruct o eqn:? ]
               | |- context [if ?b then _ else _] => destruct b eqn:?
               end).
  all: cbn; eauto.
Qed.

Lemma finalize_resolves persistFn scheduleId B res r :
  (forall s x, resolved (refundRemainder w s x) = true) ->
  exists out t, finalize w persistFn scheduleId B res r = (Resolved out, t).
Proof.
  intros Hrefund. unfold finalize, persist. destruct persistFn as [f|].
  all: repeat (cbn; match goal with
               | |- context [match ?o with Resolved _ => _ | Rejected _ => _ end] =>
                   first [ name_answer o | destruct o eqn:? ]
               | |- context [match ?o with Some _ => _ | None => _ end] => destruct o eqn:?
               end).
  all: cbn; eauto.
Qed.

(** A run of the analysis that returns is its three parts, each of which
    returned, after the three calls that open it. *)
Lemma runCodebaseAnalysis_parts repo B persistFn out t :
  runCodebaseAnalysis w repo B persistFn = (Resolved out, t) ->
  exists scheduleId c res1 r1 t1 res2 r2 t2 t3,
    foundation w ("Codebase intelligence for " ++ repoName repo) (totalAgentBudget B) B
    = (Resolved (c, res1, r1), t1)
    /\ fanOut w ("Codebase intelligence for " ++ repoName repo) (totalAgentBudget B) c res1 r1
       = (Resolved (res2, r2), t2)
    /\ finalize w persistFn scheduleId B res2 r2 = (Resolved out, t3)
    /\ t = [Invoke call_initClient; Invoke call_createHCSTopic; Invoke (call_fundAgent B)]
           ++ t1 ++ t2 ++ t3.
Proof.
  unfold runCodebaseAnalysis. intros H. returned.
  do 9 eexists. repeat split; eauto.
Qed.

(** When the ledger resolves, the analysis returns. *)
Lemma runCodebaseAnalysis_resolves repo B persistFn :
  ledger_ok w -> exists out t, runCodebaseAnalysis w repo B persistFn = (Resolved out, t).
Proof.
  intros (Hinit & Htopic & Hfund & Hpay & Hrefund).
  destruct (resolved_inv _ Hinit) as [[] E0].
  destruct (resolved_inv _ Htopic) as [topic E1].
  destruct (resolved_inv _ (Hfund B)) as [scheduleId E2].
  destruct (foundation_resolves ("Codebase intelligence for " ++ repoName repo)
              (totalAgentBudget B) B Hpay) as ([[c res1] r1] & t1 & E3).
  destruct (fanOut_resolves ("Codebase intelligence for " ++ repoName repo)
              (totalAgentBudget B) c res1 r1 Hpay) as ([res2 r2] & t2 & E4).
  destruct (finalize_resolves persistFn scheduleId B res2 r2 Hrefund) as (out & t3 & E5).
  exists out. eexists.
  unfold runCodebaseAnalysis. rewrite E0, E1, E2. cbn [bind await].
  rewrite E3. cbn [bind]. rewrite E4. cbn [bind]. rewrite E5. reflexivity.
Qed.

End Phases.

(* ================================================================= *)
(** ** Failures of the work steps *)

Section Isolation.

Context {num : Type} {JS : JsNumber num}.

(** The counts of a run of the analysis, from those of its parts. *)
Ltac by_parts :=
  repeat rewrite ?worked_app, ?paidTo_app, ?failed_app, ?completed_app.

(** C3, amended: in [runCodebaseAnalysis], when the calls to the ledger
    resolve, the run returns and its last call is the refund of the
    remaining budget, whatever the agents do. Each agent is called once. An
    agent that fails leaves one error event, with its message; an agent that
    succeeds is paid once, leaves one completion and no error, and its
    result is among the results returned. *)
Theorem worker_failure_is_isolated (w : World num) (repo : RepoContent) (B : num)
    (persistFn : option (Results -> Outcome (option string))) :
  ledger_ok w ->
  exists out t,
    runCodebaseAnalysis w repo B persistFn = (Resolved out, t)
    /\ (exists scheduleId,
          last (calls t) call_initClient
          = call_refundRemainder scheduleId (analysisRefunded out))
    /\ forall a : Agent,
         worked (agent_name a) t = 1%nat
         /\ (forall message, agent_answer w a = Rejected message ->
               failed (agent_name a) t = 1%nat
               /\ In (agent_error (agent_name a) message) (events t))
         /\ (forall v, agent_answer w a = Resolved v ->
               paidTo (agent_name a) t = 1%nat
               /\ completed (agent_name a) t = 1%nat
               /\ failed (agent_name a) t = 0%nat
               /\ In (agent_key a, v) (analysisResults out)).
Proof.
  intros Hok.
  destruct (runCodebaseAnalysis_resolves repo B persistFn Hok) as (out & t & Hrun).
  exists out, t. split; [exact Hrun|].
  apply runCodebaseAnalysis_parts in Hrun.
  destruct Hrun as (sched & c & res1 & r1 & t1 & res2 & r2 & t2 & t3 & E1 & E2 & E3 & ->).
  apply foundation_summary in E1.
  destruct E1 as (-> & -> & -> & _ & W1 & P1 & C1 & F1 & I1 & _ & _ & _).
  apply fanOut_summary in E2.
  destruct E2 as (Hincl & W2 & P2 & C2 & F2 & I2 & R2 & _ & _ & _).
  apply finalize_summary in E3.
  destruct E3 as (-> & -> & L3 & _ & _ & _ & Z3).
  split.
  - exists sched.
    assert (Hne : calls t3 <> []) by (intros E; rewrite E in L3; discriminate L3).
    rewrite !calls_app, !app_assoc, last_after by exact Hne. exact L3.
  - intros a.
    destruct (Z3 (agent_name a)) as (W3 & P3 & F3 & C3 & _).
    by_parts. rewrite W1, W2, W3, P1, P2, P3, F1, F2, F3, C1, C2, C3.
    assert (Hpre : forall x, In x (events t1) \/ In x (events t2) ->
              In x (events ([Invoke call_initClient; Invoke call_createHCSTopic;
                             Invoke (call_fundAgent B)] ++ t1 ++ t2 ++ t3))).
    { intros x Hx. rewrite !events_app, !in_app_iff. tauto. }
    unfold agent_answer.
    destruct a; cbn [agent_name agent_key is_parallel andb orb parallel_answer];
      (split; [reflexivity|]); split; intros ? Hanswer.
    + destruct (runCodeReaderAgent w) eqn:Er; inversion Hanswer; subst.
      cbn [resolved]. split; [reflexivity|]. apply Hpre. left. now apply I1.
    + destruct (runCodeReaderAgent w) eqn:Er; inversion Hanswer; subst.
      cbn [resolved]. parts; try reflexivity.
      apply Hincl. left. unfold codeReaderUsed. now rewrite Er.
    + rewrite Hanswer. split; [reflexivity|].
      apply Hpre. right. now apply (I2 SimplifierAgent).
    + rewrite Hanswer. parts; try reflexivity. now apply (R2 SimplifierAgent).
    + rewrite Hanswer. split; [reflexivity|].
      apply Hpre. right. now apply (I2 AnalogyAgent).
    + rewrite Hanswer. parts; try reflexivity. now apply (R2 AnalogyAgent).
    + rewrite Hanswer. split; [reflexivity|].
      apply Hpre. right. now apply (I2 InsightAgent).
    + rewrite Hanswer. parts; try reflexivity. now apply (R2 InsightAgent).
Qed.

(** What C4 says holds in the parallel phase: an agent of this phase that
    fails is not paid and has no completion, in a run whose ledger calls
    resolve; the values assigned to the remaining budget are those of the
    completions, so none is assigned for it. *)
Lemma failed_parallel_agent_is_not_paid (w : World num) (repo : RepoContent) (B : num)
    (persistFn : option (Results -> Outcome (option string))) (a : Agent) message out t :
  is_parallel a = true ->
  parallel_answer w (codeReaderUsed w) a = Rejected message ->
  runCodebaseAnalysis w repo B persistFn = (Resolved out, t) ->
  paidTo (agent_name a) t = 0%nat /\ completed (agent_name a) t = 0%nat.
Proof.
  intros Ha Hanswer Hrun.
  apply runCodebaseAnalysis_parts in Hrun.
  destruct Hrun as (sched & c & res1 & r1 & t1 & res2 & r2 & t2 & t3 & E1 & E2 & E3 & ->).
  apply foundation_summary in E1.
  destruct E1 as (-> & _ & _ & _ & _ & P1 & C1 & _).
  apply fanOut_summary in E2. destruct E2 as (_ & _ & P2 & C2 & _).
  apply finalize_summary in E3. destruct E3 as (_ & _ & _ & _ & _ & _ & Z3).
  destruct (Z3 (agent_name a)) as (_ & P3 & _ & C3 & _).
  by_parts. rewrite P1, P2, P3, C1, C2, C3, Ha, Hanswer. split; reflexivity.
Qed.

End Isolation.

Section Failures.

Local Open Scope float_scope.

Lemma worker_failure_is_isolated_witness :
  ledger_ok (@analogyFails float)
  /\ agent_answer (@analogyFails float) AnalogyAgent = Rejected "529 overloaded"
  /\ exists out t,
       runCodebaseAnalysis (JS := F64) analogyFails someRepo 1 None = (Resolved out, t)
       /\ failed "Analogy Agent" t = 1%nat
       /\ paidTo "Simplifier Agent" t = 1%nat
       /\ paidTo "Insight Agent" t = 1%nat.
Proof.
  split; [repeat split|]. split; [reflexivity|].
  destruct (worker_failure_is_isolated (JS := F64) (w := analogyFails) someRepo 1 None)
    as (out & t & Hrun & _ & Hall); [repeat split|].
  exists out, t. split; [exact Hrun|].
  destruct (Hall AnalogyAgent) as (_ & Hfailed & _).
  destruct (Hall SimplifierAgent) as (_ & _ & Hsimplifier).
  destruct (Hall InsightAgent) as (_ & _ & Hinsight).
  split; [apply (Hfailed "529 overloaded" eq_refl)|].
  split; [apply (Hsimplifier (ToolOutput "simplifier") eq_refl)
         | apply (Hinsight (ToolOutput "insight") eq_refl)].
Defined.

(** C3, as the spec states it, fails: [runMainAgent] has no handler around a
    step. When the first sub-agent throws, the run throws the same error;
    no error event is emitted for the step, the other steps are not
    dispatched, and the refund is not called. *)
Lemma sub_agent_failure_aborts_runMainAgent :
  runMainAgent (JS := F64) subFails "task" 1
  = (Rejected "529 overloaded",
     [ Invoke call_initClient;
       Invoke call_createHCSTopic;
       Invoke (call_fundAgent 1);
       Invoke (call_plan "task");
       Emit (step_start "Research Agent" "Research and find relevant information for: task"
               40 0.12);
       Invoke (call_runSubAgent "Research Agent"
                 "Research and find relevant information for: task") ])
  /\ count is_refund (calls (snd (runMainAgent (JS := F64) subFails "task" 1))) = 0%nat
  /\ failed "Research Agent" (snd (runMainAgent (JS := F64) subFails "task" 1)) = 0%nat.
Proof. repeat split; vm_compute; reflexivity. Qed.

(** C4 fails on the code: when the Code Reader throws, the catch block
    emits its error and substitutes the fallback result, and the payment
    that follows is made all the same. On a budget of 1 the failed Code
    Reader is paid 0.09, the remaining budget is set to 0.91, and both an
    error and a completion are emitted for it; the refund is the same 0.69
    as when it succeeds. *)
Lemma failed_code_reader_is_paid :
  agent_answer (@readerFails float) CodeReaderAgent
  = Rejected "code_reader_output returned no structured output (stop_reason: max_tokens)"
  /\ paid (snd (runCodebaseAnalysis (JS := F64) readerFails someRepo 1 None))
     = [0.09; 0.06; 0.08; 0.08]
  /\ assigned (snd (runCodebaseAnalysis (JS := F64) readerFails someRepo 1 None))
     = [0.91; 0.85; 0.77; 0.69]
  /\ filter (fun e => is_start_of "Code Reader Agent" e || is_error_of "Code Reader Agent" e
                      || is_complete_of "Code Reader Agent" e)
       (events (snd (runCodebaseAnalysis (JS := F64) readerFails someRepo 1 None)))
     = [ agent_start "Code Reader Agent" 30 0.09;
         agent_error "Code Reader Agent"
           "code_reader_output returned no structured output (stop_reason: max_tokens)";
         agent_complete "Code Reader Agent" "codeReader" (CodeReaderOutput codeReaderFallback)
           "tx:Code Reader Agent" 0.09 0.91 ]
  /\ fst (runCodebaseAnalysis (JS := F64) readerFails someRepo 1 None)
     = fst (runCodebaseAnalysis (JS := F64)
              (world NoJsonObject (fun _ => Resolved "done") (Resolved codeReaderFallback)
                 (Resolved (ToolOutput "simplifier")) (Resolved (ToolOutput "analogy"))
                 (Resolved (ToolOutput "insight")) (fun _ => 0%nat))
              someRepo 1 None)
  /\ exists out,
       fst (runCodebaseAnalysis (JS := F64) readerFails someRepo 1 None) = Resolved out
       /\ analysisRefunded out = 0.69.
Proof.
  repeat split; try (vm_compute; reflexivity).
  eexists. split; vm_compute; reflexivity.
Qed.

End Failures.

(* ================================================================= *)
(** ** The events of a step *)

Section StepEvents.

Context {num : Type} {JS : JsNumber num}.

(** C7, amended: in a run that returns. The events of [runMainAgent] are,
    for each step dispatched, in the order of the plan, its start (with the
    agent, the allocation and the payment) and at once its completion (with
    the payment, the receipt and the remaining budget), then the report and
    the refund: no step has an error event. In [runCodebaseAnalysis] each of
    the three parallel agents has one start and after it one completion or
    one error, never both nor twice, and so has the Code Reader when it
    succeeds. *)
Theorem step_events_in_order (w : World num) (task : string) (repo : RepoContent) (B : num)
    (persistFn : option (Results -> Outcome (option string))) :
  (forall out t, runMainAgent w task B = (Resolved out, t) ->
     exists text steps ds,
       planResponse w task = Resolved text
       /\ parseSteps text task = Some steps
       /\ map (fun d => fst (fst d)) ds = firstn (List.length ds) steps
       /\ events t = flat_map (step_events (totalAgentBudget B)) ds
                     ++ [report (finalReport out); refund (refunded out) (refundTxId out)])
  /\ (forall out t, runCodebaseAnalysis w repo B persistFn = (Resolved out, t) ->
        (forall a, is_parallel a = true -> lifecycle (agent_name a) (events t) = true)
        /\ (resolved (runCodeReaderAgent w) = true ->
              lifecycle (agent_name CodeReaderAgent) (events t) = true)).
Proof.
  split; intros out t Hrun.
  - apply runMainAgent_events in Hrun.
    destruct Hrun as (text & steps & ds & H1 & H2 & H3 & H4 & _). eauto 8.
  - apply runCodebaseAnalysis_parts in Hrun.
    destruct Hrun as (sched & c & res1 & r1 & t1 & res2 & r2 & t2 & t3 & E1 & E2 & E3 & ->).
    apply foundation_summary in E1.
    destruct E1 as (_ & _ & _ & _ & _ & _ & _ & _ & _ & G1 & D1 & _).
    apply fanOut_summary in E2. destruct E2 as (_ & _ & _ & _ & _ & _ & _ & G2 & D2 & _).
    apply finalize_summary in E3. destruct E3 as (_ & _ & _ & _ & _ & _ & Z3).
    unfold lifecycle. split.
    + intros a Ha. destruct (Z3 (agent_name a)) as (_ & _ & _ & _ & G3).
      cbn [app]. rewrite !events_invoke, !events_app.
      rewrite progress_app, (G1 a NotStarted Ha).
      rewrite progress_app, (G2 a Ha), G3. reflexivity.
    + intros Hreader. destruct (Z3 (agent_name CodeReaderAgent)) as (_ & _ & _ & _ & G3).
      cbn [app]. rewrite !events_invoke, !events_app.
      rewrite progress_app, (D1 Hreader).
      rewrite progress_app, D2, G3. reflexivity.
Qed.

(** What [progress] says, in numbers: the starts and the ends read are those
    between the two states. *)
Lemma progress_counts name (evs : list (Event num)) : forall p q,
  progress name p evs = Some q ->
  (count (is_start_of name) evs + match p with NotStarted => 0 | _ => 1 end
   = match q with NotStarted => 0 | _ => 1 end)%nat
  /\ (count (fun e => is_complete_of name e || is_error_of name e) evs
      + match p with Finished => 1 | _ => 0 end
      = match q with Finished => 1 | _ => 0 end)%nat.
Proof.
  unfold count.
  induction evs as [|e evs IH]; intros p q H; cbn [progress] in H.
  - injection H as <-. split; reflexivity.
  - cbn [filter]. destruct (is_start_of name e) eqn:Es.
    + assert (Ec : is_complete_of name e || is_error_of name e = false)
        by (destruct e; try discriminate; reflexivity).
      rewrite Ec. destruct p; try discriminate.
      apply IH in H. cbn [List.length]. lia.
    + destruct (is_complete_of name e || is_error_of name e) eqn:Ec.
      * destruct p; try discriminate. apply IH in H. cbn [List.length]. lia.
      * apply IH in H. exact H.
Qed.

(** An agent whose events pass [lifecycle] has one start, and one completion
    or one error. *)
Lemma lifecycle_counts name (evs : list (Event num)) :
  lifecycle name evs = true ->
  count (is_start_of name) evs = 1%nat
  /\ count (fun e => is_complete_of name e || is_error_of name e) evs = 1%nat.
Proof.
  unfold lifecycle. destruct (progress name NotStarted evs) as [[]|] eqn:E; try discriminate.
  intros _. apply progress_counts in E. lia.
Qed.

End StepEvents.

(* ================================================================= *)
(** ** Persistence *)

Section Persistence.

Context {num : Type} {JS : JsNumber num}.

(** A run of the analysis that returns is what comes before the last part,
    in which nothing is persisted, and the last part; and the same
    beginning followed by the last part run with another [persistFn] is the
    run with that [persistFn]. *)
Lemma runCodebaseAnalysis_ending (w : World num) repo B persistFn out t :
  runCodebaseAnalysis w repo B persistFn = (Resolved out, t) ->
  exists scheduleId res r pre t3,
    finalize w persistFn scheduleId B res r = (Resolved out, t3)
    /\ t = pre ++ t3
    /\ count is_persist (calls pre) = 0%nat
    /\ forall persistFn' o t3',
         finalize w persistFn' scheduleId B res r = (o, t3') ->
         runCodebaseAnalysis w repo B persistFn' = (o, pre ++ t3').
Proof.
  unfold runCodebaseAnalysis. intros H. returned.
  match goal with
  | E0 : initClient w = _, E1 : createHCSTopic w = _, E2 : fundAgent w B = Resolved ?sched,
    E3 : foundation _ _ _ _ = (_, ?ta), E4 : fanOut _ _ _ _ _ _ = (Resolved (?res, ?r), ?tb),
    E5 : finalize _ _ _ _ _ _ = (_, ?tc) |- _ =>
      exists sched, res, r,
        ([Invoke call_initClient; Invoke call_createHCSTopic; Invoke (call_fundAgent B)]
         ++ ta ++ tb), tc;
      split; [exact E5|]; split; [now rewrite <- !app_assoc|]; split;
      [ apply foundation_summary in E3; apply fanOut_summary in E4;
        destruct E3 as (_ & _ & _ & _ & _ & _ & _ & _ & _ & _ & _ & N1 & _);
        destruct E4 as (_ & _ & _ & _ & _ & _ & _ & _ & _ & N2 & _ & _);
        rewrite !calls_app, !count_app, N1, N2; reflexivity
      | intros persistFn' o t3' E; rewrite E0, E1, E2; cbn [bind await];
        rewrite E3; cbn [bind]; rewrite E4; cbn [bind]; rewrite E;
        now rewrite <- !app_assoc ]
  end.
Qed.


End Persistence.

(* ================================================================= *)
(** ** The theorems at work *)

Section Instances.

Local Open Scope float_scope.

(** The sum of the two amounts reported in binary64, on the run of
    scenario A: they add up to the budget. *)
Lemma conservation_binary64_sample :
  exists out,
    fst (runMainAgent (JS := F64) calm "task" 1) = Resolved out
    /\ (spent out + refunded out)%float = 1.
Proof. eexists. split; vm_compute; reflexivity. Qed.

Lemma scenarioA_witness :
  ledger_ok (@calm float) /\ model_ok (@calm float)
  /\ planResponse (@calm float) "task" = Resolved NoJsonObject
  /\ paid (snd (runMainAgent (JS := F64) calm "task" 1)) = [0.12; 0.11; 0.08]
  /\ exists out,
       fst (runMainAgent (JS := F64) calm "task" 1) = Resolved out
       /\ spent out = 0.31000000000000005 /\ refunded out = 0.69.
Proof.
  split; [apply calm_ledger_ok|]. split; [apply calm_model_ok|]. split; [reflexivity|].
  apply (scenarioA (w := calm) "task" calm_ledger_ok calm_model_ok (or_introl eq_refl)).
Defined.

(** C7, as the spec states it, fails: the step of [runMainAgent] whose
    sub-agent throws has a start event and neither a completion nor an
    error. *)
Lemma failed_step_of_runMainAgent_has_no_end :
  events (snd (runMainAgent (JS := F64) subFails "task" 1))
  = [ step_start "Research Agent" "Research and find relevant information for: task" 40 0.12 ]
  /\ lifecycle "Research Agent" (events (snd (runMainAgent (JS := F64) subFails "task" 1)))
     = false.
Proof. split; vm_compute; reflexivity. Qed.

Lemma step_events_in_order_witness :
  exists out t,
    runCodebaseAnalysis (JS := F64) analogyFails someRepo 1 None = (Resolved out, t)
    /\ lifecycle "Analogy Agent" (events t) = true
    /\ lifecycle "Simplifier Agent" (events t) = true
    /\ lifecycle "Code Reader Agent" (events t) = true.
Proof.
  destruct (runCodebaseAnalysis_resolves (JS := F64) (w := analogyFails) someRepo 1 None)
    as (out & t & Hrun); [repeat split|].
  exists out, t. split; [exact Hrun|].
  destruct (proj2 (step_events_in_order (JS := F64) analogyFails "task" someRepo 1 None)
              out t Hrun) as [Hparallel Hreader].
  split; [apply (Hparallel AnalogyAgent eq_refl)|].
  split; [apply (Hparallel SimplifierAgent eq_refl) | apply (Hreader eq_refl)].
Defined.


End Instances.

(* ================================================================= *)
(** ** Arithmetic in cents *)

Section Cents.

Local Open Scope Q_scope.

Lemma Qfloor_unique (x : Q) (n : Z) : inject_Z n <= x -> x < inject_Z (n + 1) -> Qfloor x = n.
Proof.
  intros Hle Hlt.
  pose proof (Qfloor_le x) as H1. pose proof (Qlt_floor x) as H2.
  assert (A : (Qfloor x < n + 1)%Z).
  { rewrite Zlt_Qlt. eapply Qle_lt_trans; eauto. }
  assert (C : (n < Qfloor x + 1)%Z).
  { rewrite Zlt_Qlt. eapply Qle_lt_trans; eauto. }
  lia.
Qed.

Lemma inject_Z_minus (x y : Z) : inject_Z (x - y) = inject_Z x - inject_Z y.
Proof. unfold Z.sub, Qminus. now rewrite inject_Z_plus, inject_Z_opp. Qed.

(** Push [inject_Z] to the integers of a goal and its hypotheses. *)
Ltac push_inject :=
  repeat (rewrite ?inject_Z_plus, ?inject_Z_minus, ?inject_Z_mult, ?inject_Z_opp in *);
  change (inject_Z 0) with 0 in *; change (inject_Z 1) with 1 in *;
  change (inject_Z 2) with 2 in *.

Lemma Qfloor_minus_Z (x : Q) (z : Z) : Qfloor (x - inject_Z z) = (Qfloor x - z)%Z.
Proof.
  apply Qfloor_unique.
  - pose proof (Qfloor_le x). push_inject. lra.
  - pose proof (Qlt_floor x). push_inject. lra.
Qed.

Lemma Qfloor_half (z : Z) : Qfloor (inject_Z z + (1 # 2)) = z.
Proof.
  apply Qfloor_unique; [lra|]. rewrite inject_Z_plus. change (inject_Z 1) with 1. lra.
Qed.


Lemma payment_cents (a total : Q) :
  payment (JS := Exact) a total = inject_Z (cents (a / 100 * total)) / 100.
Proof. reflexivity. Qed.

Lemma deduct_cents (r p : Q) : deduct (JS := Exact) r p = inject_Z (cents (r - p)) / 100.
Proof. reflexivity. Qed.

Lemma totalAgentBudget_cents (B : Q) :
  totalAgentBudget (JS := Exact) B = inject_Z (cents (B * (30 # 100))) / 100.
Proof. reflexivity. Qed.

Lemma cents_of_cents (z : Z) : cents (inject_Z z / 100) = z.
Proof.
  unfold cents. rewrite <- (Qfloor_half z) at 2. apply Qfloor_comp. field.
Qed.

Lemma cents_minus (r : Q) (z : Z) : cents (r - inject_Z z / 100) = (cents r - z)%Z.
Proof.
  unfold cents. rewrite <- Qfloor_minus_Z. apply Qfloor_comp. field.
Qed.

Lemma cents_nonneg (x : Q) : 0 <= x -> (0 <= cents x)%Z.
Proof.
  intros Hx. pose proof (Qlt_floor (x * 100 + (1 # 2))) as H. fold (cents x) in H.
  assert (A : (0 < cents x + 1)%Z) by (rewrite Zlt_Qlt; change (inject_Z 0) with 0; lra).
  lia.
Qed.

Lemma cents_le (x : Q) : inject_Z (cents x) <= x * 100 + (1 # 2).
Proof. apply Qfloor_le. Qed.

Lemma cents_gt (x : Q) : x * 100 - (1 # 2) < inject_Z (cents x).
Proof.
  unfold cents. pose proof (Qlt_floor (x * 100 + (1 # 2))) as H.
  rewrite inject_Z_plus in H. change (inject_Z 1) with 1 in H. lra.
Qed.

Lemma cents_mono (x y : Q) : x <= y -> (cents x <= cents y)%Z.
Proof. intros H. apply Qfloor_resp_le. lra. Qed.



Lemma allocated_from (steps : list (Step Q)) : forall acc,
  fold_left (fun acc st => nadd (JsNumber := Exact) acc (allocation st)) steps acc
  == acc + fold_right (fun st s => allocation st + s) 0 steps.
Proof.
  induction steps as [|st rest IH]; intros acc; cbn [fold_left fold_right].
  - ring.
  - rewrite IH. cbn [nadd Exact]. ring.
Qed.

Lemma allocated_sum (steps : list (Step Q)) :
  allocated (JS := Exact) steps == fold_right (fun st s => allocation st + s) 0 steps.
Proof. unfold allocated. rewrite allocated_from. cbn [lit Exact]. change (inject_Z 0) with 0. ring. Qed.

Lemma sum_nonneg (steps : list (Step Q)) :
  nonneg_plan steps -> 0 <= fold_right (fun st s => allocation st + s) 0 steps.
Proof.
  induction 1 as [|st rest Hst _ IH]; cbn [fold_right]; lra.
Qed.

Lemma cents_le_double (x : Q) : 0 <= x -> inject_Z (cents x) <= 2 * (x * 100).
Proof.
  intros Hx. destruct (Qlt_le_dec (x * 100) (1 # 2)) as [Hsmall | Hbig].
  - assert (E : cents x = 0%Z) by (apply Qfloor_unique; change (inject_Z 0) with 0;
      change (inject_Z (0 + 1)) with 1; lra).
    rewrite E. change (inject_Z 0) with 0. lra.
  - pose proof (cents_le x). lra.
Qed.

Lemma due_nonneg total steps : 0 <= total -> nonneg_plan steps -> (0 <= due total steps)%Z.
Proof.
  intros Ht. induction 1 as [|st rest Hst _ IH]; cbn [due fold_right]; [lia|].
  fold (due total rest).
  assert (0 <= cents (allocation st / 100 * total))%Z; [|lia].
  apply cents_nonneg. apply Qmult_le_0_compat; [|exact Ht].
  apply Qle_shift_div_l; lra.
Qed.

Lemma due_member total steps st :
  0 <= total -> nonneg_plan steps -> In st steps ->
  (cents (allocation st / 100 * total) <= due total steps)%Z.
Proof.
  intros Ht Hplan. induction Hplan as [|st' rest Hst' Hrest IH]; intros Hin; [contradiction|].
  cbn [due fold_right]. fold (due total rest).
  pose proof (due_nonneg Ht Hrest).
  destruct Hin as [-> | Hin].
  - lia.
  - specialize (IH Hin).
    assert (0 <= cents (allocation st' / 100 * total))%Z; [|lia].
    apply cents_nonneg. apply Qmult_le_0_compat; [|exact Ht].
    apply Qle_shift_div_l; lra.
Qed.

Lemma due_le_double total steps :
  0 <= total -> nonneg_plan steps ->
  inject_Z (due total steps)
  <= 2 * (total * fold_right (fun st s => allocation st + s) 0 steps).
Proof.
  intros Ht. induction 1 as [|st rest Hst _ IH]; cbn [due fold_right].
  - change (inject_Z 0) with 0. lra.
  - fold (due total rest). rewrite inject_Z_plus.
    assert (Hx : 0 <= allocation st / 100 * total).
    { apply Qmult_le_0_compat; [|exact Ht]. apply Qle_shift_div_l; lra. }
    pose proof (cents_le_double Hx) as Hc.
    assert (E : allocation st / 100 * total * 100 == total * allocation st) by field.
    rewrite E in Hc. lra.
Qed.

Lemma cents_div_le (x y : Z) : (x <= y)%Z -> inject_Z x / 100 <= inject_Z y / 100.
Proof.
  intros H. apply Qmult_le_compat_r; [now rewrite <- Zle_Qle | discriminate].
Qed.

(** The agent pool, in cents, is at most the budget, and twice the pool is
    at most the budget rounded to cents. *)
Lemma pool_within_budget (B : Q) :
  0 <= B ->
  (0 <= cents (B * (30 # 100)))%Z
  /\ inject_Z (cents (B * (30 # 100))) / 100 <= B
  /\ (2 * cents (B * (30 # 100)) <= cents B)%Z.
Proof.
  intros HB.
  pose proof (cents_le (B * (30 # 100))) as Hle.
  pose proof (cents_gt B) as Hgt.
  assert (H0 : (0 <= cents (B * (30 # 100)))%Z) by (apply cents_nonneg; lra).
  assert (HB0 : (0 <= cents B)%Z) by (apply cents_nonneg; lra).
  split; [exact H0|].
  destruct (Z.eq_dec (cents (B * (30 # 100))) 0) as [E | Hpos].
  - rewrite E. split; [change (inject_Z 0) with 0; apply Qle_shift_div_r; lra | lia].
  - assert (H1 : inject_Z 1 <= inject_Z (cents (B * (30 # 100)))) by (rewrite <- Zle_Qle; lia).
    change (inject_Z 1) with 1 in H1.
    split; [apply Qle_shift_div_r; lra|].
    destruct (Qlt_le_dec B (3 # 80)) as [Hsmall | Hbig].
    + assert (A : (cents (B * (30 # 100)) < 2)%Z)
        by (rewrite Zlt_Qlt; change (inject_Z 2) with 2; lra).
      assert (C : (1 < cents B)%Z) by (rewrite Zlt_Qlt; change (inject_Z 1) with 1; lra).
      lia.
    + assert (A : (2 * cents (B * (30 # 100)) < cents B)%Z)
        by (rewrite Zlt_Qlt, inject_Z_mult; change (inject_Z 2) with 2; lra).
      lia.
Qed.

(** A plan that the remaining budget covers to the end is dispatched
    whole. *)
Lemma affordable_whole (total : Q) :
  0 <= total ->
  forall steps r,
    nonneg_plan steps ->
    (due total steps <= cents r)%Z ->
    Forall (fun st => payment (JS := Exact) (allocation st) total <= r) steps ->
    affordable (JS := Exact) total steps r = steps.
Proof.
  intros Ht. induction steps as [|st rest IH]; intros r Hplan Hdue Hcover; [reflexivity|].
  cbn [affordable].
  inversion Hplan as [|? ? Hst Hrest]; subst.
  inversion Hcover as [|? ? Hhead _]; subst.
  assert (Hcheck : nlt (JsNumber := Exact) r (payment (allocation st) total) = false).
  { cbn [nlt Exact]. unfold Q_ltb. apply negb_false_iff, Qle_bool_iff. exact Hhead. }
  rewrite Hcheck. f_equal.
  cbn [due fold_right] in Hdue. fold (due total rest) in Hdue.
  assert (Hr' : cents (deduct (JS := Exact) r (payment (allocation st) total))
                = (cents r - cents (allocation st / 100 * total))%Z).
  { rewrite deduct_cents, cents_of_cents, payment_cents. apply cents_minus. }
  apply IH; [exact Hrest | rewrite Hr'; lia |].
  apply Forall_forall. intros st' Hin.
  pose proof (due_member st' Ht Hrest Hin) as Hmember.
  rewrite deduct_cents, payment_cents, payment_cents, cents_minus.
  apply cents_div_le. lia.
Qed.

(** A plan of non-negative allocations that sum to at most 100 is covered by
    any non-negative budget. *)
Lemma plan_is_covered (B : Q) (steps : list (Step Q)) :
  0 <= B -> nonneg_plan steps -> allocated (JS := Exact) steps <= 100 ->
  affordable (JS := Exact) (totalAgentBudget B) steps B = steps.
Proof.
  intros HB Hplan Hsum.
  rewrite allocated_sum in Hsum.
  destruct (pool_within_budget HB) as (HP0 & HPB & HP2).
  rewrite totalAgentBudget_cents.
  set (P := cents (B * (30 # 100))) in *.
  assert (Ht : 0 <= inject_Z P / 100).
  { apply Qle_shift_div_l; [reflexivity|]. rewrite Qmult_0_l.
    change 0 with (inject_Z 0). rewrite <- Zle_Qle. exact HP0. }
  assert (HtP : inject_Z P / 100 * 100 == inject_Z P) by field.
  apply affordable_whole; [exact Ht | exact Hplan | |].
  - pose proof (due_le_double Ht Hplan) as Hd.
    pose proof (sum_nonneg Hplan) as Hs.
    assert (A : inject_Z (due (inject_Z P / 100) steps) <= inject_Z (2 * P)).
    { rewrite inject_Z_mult. change (inject_Z 2) with 2.
      eapply Qle_trans; [exact Hd|].
      assert (inject_Z P / 100 * fold_right (fun st s => allocation st + s) 0 steps
              <= inject_Z P / 100 * 100); [|lra].
      rewrite !(Qmult_comm (inject_Z P / 100)). apply Qmult_le_compat_r; assumption. }
    rewrite <- Zle_Qle in A. lia.
  - apply Forall_forall. intros st Hin.
    assert (Ha : 0 <= allocation st <= 100).
    { clear - Hplan Hsum Hin. induction Hplan as [|st' rest Hst' Hrest IH]; [contradiction|].
      cbn [fold_right] in Hsum. pose proof (sum_nonneg Hrest).
      destruct Hin as [-> | Hin]; [lra|]. apply IH; [lra | exact Hin]. }
    rewrite payment_cents.
    assert (Hc : (cents (allocation st / 100 * (inject_Z P / 100)) <= P)%Z).
    { rewrite <- (cents_of_cents P) at 2. apply cents_mono.
      rewrite <- (Qmult_1_l (inject_Z P / 100)) at 2.
      apply Qmult_le_compat_r; [|exact Ht].
      apply Qle_shift_div_r; [reflexivity|]. lra. }
    rewrite Zle_Qle in Hc.
    eapply Qle_trans; [|exact HPB].
    apply Qmult_le_compat_r; [exact Hc | discriminate].
Qed.

End Cents.

Section NeverExhausted.

Context {num : Type} {JS : JsNumber num}.
Variable w : World num.

(** The loop over a plan that the budget covers whole never takes the
    branch that stops it, whatever the sub-agents and the ledger answer. *)
Lemma runSteps_never_exhausted total planned steps : forall r i res,
  affordable total steps r = steps ->
  count is_exhausted (snd (runSteps w total planned i steps r res)) = 0%nat.
Proof.
  induction steps as [|st rest IH]; intros r i res Hall; [reflexivity|].
  cbn [affordable] in Hall. cbn [runSteps].
  destruct (nlt r (payment (allocation st) total)); [discriminate|].
  injection Hall as Hrest.
  specialize (IH (deduct r (payment (allocation st) total)) (S i)
                (res ++ [ {| agentName := agent st; resultTask := task st;
                             result := match runSubAgent w i (agent st) (task st) with
                                       | Resolved v => v
                                       | Rejected _ => ""%string
                                       end |} ]) Hrest).
  unfold bind at 1. cbn [onEvent].
  unfold bind at 1. cbn [await].
  destruct (runSubAgent w i (agent st) (task st)) as [out|m]; [|reflexivity].
  unfold bind at 1. cbn [await].
  destruct (paySubAgent w i (agent st) (payment (allocation st) total) (task st)) as [tx|m];
    [|reflexivity].
  unfold bind at 1. cbn [assign_remainingBudget].
  unfold bind at 1. cbn [onEvent].
  destruct (runSteps w total planned (S i) rest _ _) as [o t].
  cbn [snd] in *. rewrite !count_app, IH. reflexivity.
Qed.

(** The same for a run of [runMainAgent] on a plan that the budget covers
    whole. *)
Lemma runMainAgent_never_exhausted task B text steps :
  planResponse w task = Resolved text -> parseSteps text task = Some steps ->
  affordable (totalAgentBudget B) steps B = steps ->
  count is_exhausted (snd (runMainAgent w task B)) = 0%nat.
Proof.
  intros Hreply Hparse Hall. unfold runMainAgent.
  destruct (initClient w); cbn [bind await]; [|reflexivity].
  destruct (createHCSTopic w); cbn [bind await]; [|reflexivity].
  destruct (fundAgent w B) as [scheduleId|]; cbn [bind await]; [|reflexivity].
  rewrite Hreply. cbn [bind await]. rewrite Hparse.
  pose proof (@runSteps_never_exhausted (totalAgentBudget B) (List.length steps)
                steps B 0%nat [] Hall) as Hloop.
  destruct (runSteps w (totalAgentBudget B) (List.length steps) 0 steps B [])
    as [[[r res]|m] t]; cbn [snd bind] in *.
  - destruct (formatFinalReport w task res); cbn [bind await onEvent ret];
      [destruct (refundRemainder w scheduleId r); cbn [bind await onEvent ret]|];
      cbn [snd]; rewrite !count_app, Hloop; reflexivity.
  - cbn [snd]. rewrite !count_app, Hloop. reflexivity.
Qed.

End NeverExhausted.

Section Unreachable.

Local Open Scope Q_scope.

(** In exact arithmetic, for a positive budget and a plan of non-negative
    allocations that sum to at most 100, no run of [runMainAgent] takes
    the branch that stops on an exhausted budget, whatever the sub-agents
    and the ledger answer; and when every call resolves, every step of the
    plan is dispatched. *)
Lemma never_exhausted_exact (w : World Q) (task : string) (B : Q)
    (steps : list (Step Q)) :
  0 < B -> nonneg_plan steps -> allocated (JS := Exact) steps <= 100 ->
  planResponse w task = Resolved (JsonObject (Some steps)) ->
  count is_exhausted (snd (runMainAgent w task B)) = 0%nat
  /\ (ledger_ok w -> model_ok w ->
      exists out t, runMainAgent w task B = (Resolved out, t) /\ started (events t) = steps).
Proof.
  intros HB Hplan Hsum Hreply.
  assert (Hall : affordable (JS := Exact) (totalAgentBudget B) steps B = steps)
    by (apply plan_is_covered; [lra | exact Hplan | exact Hsum]).
  split.
  - unfold runMainAgent.
    destruct (initClient w); cbn [bind await]; [|reflexivity].
    destruct (createHCSTopic w); cbn [bind await]; [|reflexivity].
    destruct (fundAgent w B) as [scheduleId|]; cbn [bind await]; [|reflexivity].
    rewrite Hreply. cbn [bind await parseSteps].
    pose proof (@runSteps_never_exhausted Q Exact w (totalAgentBudget B) (List.length steps)
                  steps B 0%nat [] Hall) as Hloop.
    destruct (runSteps w (totalAgentBudget B) (List.length steps) 0 steps B [])
      as [[[r res]|m] t]; cbn [snd bind] in *.
    + destruct (formatFinalReport w task res); cbn [bind await onEvent ret];
        [destruct (refundRemainder w scheduleId r); cbn [bind await onEvent ret]|];
        cbn [snd]; rewrite !count_app, Hloop; reflexivity.
    + cbn [snd]. rewrite !count_app, Hloop. reflexivity.
  - intros Hledger Hmodel.
    destruct (runMainAgent_covered (steps := steps) task B Hledger Hmodel Hreply eq_refl)
      as (out & t & Hrun & Hstarted & _).
    exists out, t. split; [exact Hrun|]. now rewrite Hstarted.
Qed.

End Unreachable.

(* ================================================================= *)
(** ** The values of the remaining budget *)

Section Chains.

Context {num : Type} {JS : JsNumber num}.

Lemma settled_remaining_app (l1 l2 : list (Event num)) :
  settled_remaining (l1 ++ l2) = settled_remaining l1 ++ settled_remaining l2.
Proof. apply flat_map_app. Qed.

Lemma chained_weaken (ok ok' : num -> Prop) l : forall r,
  (forall p, ok p -> ok' p) -> chained ok r l -> chained ok' r l.
Proof.
  induction l as [|x l IH]; intros r Hok H; [exact I|].
  destruct H as [(p & Hp & ->) H]. split; [eauto|]. now apply IH.
Qed.

Variable w : World num.

Lemma runSteps_chained total planned steps : forall i r res r' res' t,
  runSteps w total planned i steps r res = (Resolved (r', res'), t) ->
  assigned t = settled_remaining (events t)
  /\ chained (fun p => exists st, In st steps /\ p = payment (allocation st) total)
       r (assigned t).
Proof.
  induction steps as [|st rest IH]; intros i r res r' res' t H; cbn [runSteps] in H.
  - returned. split; exact I || reflexivity.
  - destruct (nlt r (payment (allocation st) total)) eqn:Hcheck.
    + returned. split; exact I || reflexivity.
    + returned. apply IH in H. destruct H as [Heq Hchain].
      rewrite !events_app, !assigned_app, !settled_remaining_app. cbn.
      split; [now rewrite Heq|].
      split; [exists (payment (allocation st) total); split; [exists st; auto|reflexivity]|].
      apply chained_weaken with (2 := Hchain).
      intros p (st' & Hin & ->). exists st'. auto.
Qed.

End Chains.

Section MainChain.
Context {num : Type} {JS : JsNumber num}.
Variable w : World num.

Lemma assigned_invoke c (t : Trace num) : assigned (Invoke c :: t) = assigned t.
Proof. reflexivity. Qed.

Lemma runMainAgent_chained task B out t :
  runMainAgent w task B = (Resolved out, t) ->
  exists text steps,
    planResponse w task = Resolved text
    /\ parseSteps text task = Some steps
    /\ assigned t = settled_remaining (events t)
    /\ chained (fun p => exists st, In st steps
                         /\ p = payment (allocation st) (totalAgentBudget B))
         B (assigned t).
Proof.
  unfold runMainAgent. intros H. returned.
  match goal with
  | E : runSteps _ _ _ _ _ _ _ = _ |- _ => apply runSteps_chained in E; destruct E as [Heq Hchain]
  end.
  do 2 eexists. split; [eassumption|]. split; [eassumption|].
  rewrite !events_app, !assigned_app, !settled_remaining_app. cbn.
  rewrite !app_nil_r. auto.
Qed.

Lemma runCodebaseAnalysis_chained repo B persistFn out t :
  runCodebaseAnalysis w repo B persistFn = (Resolved out, t) ->
  assigned t = settled_remaining (events t)
  /\ chained (fun p => exists a, p = pay (totalAgentBudget B) a) B (assigned t).
Proof.
  intros H. apply runCodebaseAnalysis_parts in H.
  destruct H as (sched & c & res1 & r1 & t1 & res2 & r2 & t2 & t3 & E1 & E2 & E3 & ->).
  apply foundation_summary in E1.
  destruct E1 as (_ & _ & -> & A1 & _ & _ & _ & _ & _ & _ & _ & _ & S1).
  apply fanOut_summary in E2.
  destruct E2 as (_ & _ & _ & _ & _ & _ & _ & _ & _ & _ & A2 & C2).
  apply finalize_summary in E3. destruct E3 as (_ & _ & _ & _ & A3 & S3 & _).
  cbn [app]. rewrite !events_invoke, !assigned_invoke.
  rewrite !events_app, !assigned_app, !settled_remaining_app.
  rewrite A1, A3, S1, S3, <- A2, !app_nil_r. cbn [app]. split; [reflexivity|].
  split; [eauto | exact C2].
Qed.

End MainChain.

Section Settling.
Local Open Scope Q_scope.

Lemma deduct_upper (r p : Q) : 0 <= p -> deduct (JS := Exact) r p <= r + (1 # 200).
Proof.
  intros Hp. rewrite deduct_cents. pose proof (cents_le (r - p)).
  apply Qle_shift_div_r; lra.
Qed.

Lemma deduct_whole (r : Q) (pc : Z) :
  whole_cents r -> (0 <= pc)%Z -> deduct (JS := Exact) r (inject_Z pc / 100) <= r.
Proof.
  intros [z Hz] Hpc. rewrite deduct_cents, cents_minus.
  assert (E : cents r = z).
  { rewrite <- (cents_of_cents z). unfold cents. apply Qfloor_comp. now rewrite Hz. }
  rewrite E, Hz. apply cents_div_le. lia.
Qed.

Lemma deduct_is_whole (r p : Q) : whole_cents (deduct (JS := Exact) r p).
Proof. rewrite deduct_cents. eexists. reflexivity. Qed.

Lemma payment_fair (a total : Q) : 0 <= a -> 0 <= total -> fair (payment (JS := Exact) a total).
Proof.
  intros Ha Ht. exists (cents (a / 100 * total)). split; [|apply payment_cents].
  apply cents_nonneg. apply Qmult_le_0_compat; [|exact Ht]. apply Qle_shift_div_l; lra.
Qed.

Lemma totalAgentBudget_nonneg (B : Q) : 0 <= B -> 0 <= totalAgentBudget (JS := Exact) B.
Proof.
  intros HB. rewrite totalAgentBudget_cents.
  apply Qle_shift_div_l; [reflexivity|]. rewrite Qmult_0_l.
  change 0 with (inject_Z 0). rewrite <- Zle_Qle. apply cents_nonneg. lra.
Qed.

Lemma chained_settles_down (ok : Q -> Prop) :
  (forall p, ok p -> fair p) ->
  forall l r, whole_cents r -> chained (JS := Exact) ok r l -> settles_down r l.
Proof.
  intros Hok. induction l as [|x l IH]; intros r Hr H; [exact I|].
  destruct H as [(p & Hp & ->) H].
  destruct (Hok p Hp) as (pc & Hpc & ->).
  split; [now apply deduct_whole|]. apply IH; [apply deduct_is_whole | exact H].
Qed.

Lemma chained_settles_gently (ok : Q -> Prop) :
  (forall p, ok p -> fair p) ->
  forall l B, chained (JS := Exact) ok B l -> settles_gently B l.
Proof.
  intros Hok [|x l] B H; [exact I|].
  destruct H as [(p & Hp & ->) H].
  destruct (Hok p Hp) as (pc & Hpc & Ep).
  split; [|split].
  - apply deduct_upper. rewrite Ep. apply Qle_shift_div_l; [reflexivity|].
    rewrite Qmult_0_l. change 0 with (inject_Z 0). now rewrite <- Zle_Qle.
  - intros HB. rewrite Ep. now apply deduct_whole.
  - eapply chained_settles_down; [exact Hok | apply deduct_is_whole | exact H].
Qed.

(** In exact arithmetic, in a run that returns, of a budget and of
    allocations that are not negative. The variable [remainingBudget] is
    assigned once for each completion announced, with the value that the
    completion carries, in the same order. Every value after the first is at
    most the one before it; the first is at most the budget when the budget
    is a whole number of cents, and at most half a cent above it otherwise.
    The refund assigns nothing. *)
Lemma settles_down_exact (w : World Q) (task : string) (repo : RepoContent)
    (persistFn : option (Results -> Outcome (option string))) (B : Q) :
  0 <= B ->
  (forall out t text steps,
     runMainAgent w task B = (Resolved out, t) ->
     planResponse w task = Resolved text -> parseSteps text task = Some steps ->
     nonneg_plan steps ->
     assigned t = settled_remaining (events t) /\ settles_gently B (assigned t))
  /\ (forall out t,
        runCodebaseAnalysis w repo B persistFn = (Resolved out, t) ->
        assigned t = settled_remaining (events t) /\ settles_gently B (assigned t)).
Proof.
  intros HB. pose proof (totalAgentBudget_nonneg HB) as Ht.
  split.
  - intros out t text steps Hrun Etext Esteps Hplan.
    apply runMainAgent_chained in Hrun.
    destruct Hrun as (text' & steps' & Etext' & Esteps' & Heq & Hchain).
    rewrite Etext in Etext'. injection Etext' as <-.
    rewrite Esteps in Esteps'. injection Esteps' as <-.
    split; [exact Heq|].
    eapply chained_settles_gently; [|exact Hchain].
    intros p (st & Hin & ->). apply payment_fair; [|exact Ht].
    unfold nonneg_plan in Hplan. rewrite Forall_forall in Hplan. now apply Hplan.
  - intros out t Hrun. apply runCodebaseAnalysis_chained in Hrun.
    destruct Hrun as [Heq Hchain]. split; [exact Heq|].
    eapply chained_settles_gently; [|exact Hchain].
    intros p (a & ->). apply payment_fair; [|exact Ht]. destruct a; discriminate.
Qed.

End Settling.

(* ================================================================= *)
(** ** Strings *)

Section Strings.

Lemma append_nil_r (s : string) : (s ++ "")%string = s.
Proof. induction s as [|c s IH]; cbn; [reflexivity | now rewrite IH]. Qed.

Lemma append_assoc (a b c : string) : ((a ++ b) ++ c)%string = (a ++ b ++ c)%string.
Proof. induction a as [|x a IH]; cbn; [reflexivity | now rewrite IH]. Qed.

Lemma length_append (a b : string) :
  String.length (a ++ b) = (String.length a + String.length b)%nat.
Proof. induction a as [|x a IH]; cbn; [reflexivity | now rewrite IH]. Qed.

Lemma toLowerCase_char_idem (c : ascii) :
  toLowerCase_char (toLowerCase_char c) = toLowerCase_char c.
Proof. destruct c as [[] [] [] [] [] [] [] []]; reflexivity. Qed.

Lemma toLowerCase_idem (s : string) : toLowerCase (toLowerCase s) = toLowerCase s.
Proof.
  induction s as [|c s IH]; cbn; [reflexivity|].
  now rewrite toLowerCase_char_idem, IH.
Qed.

Lemma toLowerCase_app (a b : string) :
  toLowerCase (a ++ b) = (toLowerCase a ++ toLowerCase b)%string.
Proof. induction a as [|x a IH]; cbn; [reflexivity | now rewrite IH]. Qed.

Lemma prefix_app (sub post : string) : prefix sub (sub ++ post) = true.
Proof.
  induction sub as [|c sub IH]; cbn; [now destruct post|].
  destruct (ascii_dec c c) as [_|n]; [exact IH | now destruct n].
Qed.

Lemma includes_app (pre sub post : string) : includes (pre ++ sub ++ post) sub = true.
Proof.
  induction pre as [|c pre IH]; cbn [append].
  - destruct (sub ++ post)%string eqn:E; cbn [includes];
      rewrite <- E, prefix_app; reflexivity.
  - cbn [includes]. rewrite IH. apply orb_true_r.
Qed.

Lemma prefix_split (sub s : string) : prefix sub s = true -> exists post, s = (sub ++ post)%string.
Proof.
  revert s. induction sub as [|c sub IH]; intros s H.
  - exists s. reflexivity.
  - destruct s as [|d s]; cbn in H; [discriminate|].
    destruct (ascii_dec c d) as [->|]; [|discriminate].
    destruct (IH s H) as [post ->]. exists post. reflexivity.
Qed.

Lemma includes_split (s sub : string) :
  includes s sub = true -> exists pre post, s = (pre ++ sub ++ post)%string.
Proof.
  induction s as [|c s IH]; cbn [includes]; intros H.
  - rewrite orb_false_r in H. apply prefix_split in H. destruct H as [post ->].
    exists "", post. reflexivity.
  - apply orb_true_iff in H. destruct H as [H|H].
    + apply prefix_split in H. destruct H as [post ->]. exists "", post. reflexivity.
    + destruct (IH H) as (pre & post & ->). exists (String c pre), post. reflexivity.
Qed.

Lemma endsWith_app (pre suffix : string) : endsWith (pre ++ suffix) suffix = true.
Proof.
  induction pre as [|c pre IH]; cbn [append].
  - destruct suffix; cbn [endsWith]; rewrite String.eqb_refl; reflexivity.
  - cbn [endsWith]. rewrite IH. apply orb_true_r.
Qed.

Lemma endsWith_split (s suffix : string) :
  endsWith s suffix = true -> exists pre, s = (pre ++ suffix)%string.
Proof.
  induction s as [|c s IH]; cbn [endsWith]; intros H.
  - rewrite orb_false_r in H. apply String.eqb_eq in H. subst. exists "". reflexivity.
  - apply orb_true_iff in H. destruct H as [H|H].
    + apply String.eqb_eq in H. rewrite <- H. exists "". reflexivity.
    + destruct (IH H) as [pre ->]. exists (String c pre). reflexivity.
Qed.

End Strings.

(* ================================================================= *)
(** ** Arrays: [sort] and [slice] *)

Section Sorting.

Context {A : Type}.

Lemma Array_insert_perm (compare : A -> A -> Z) x l :
  Permutation (Array_insert compare x l) (x :: l).
Proof.
  induction l as [|y l IH]; cbn; [reflexivity|].
  destruct (compare x y <=? 0)%Z; [reflexivity|].
  rewrite IH. apply perm_swap.
Qed.

Lemma Array_sort_perm (compare : A -> A -> Z) l : Permutation (Array_sort compare l) l.
Proof.
  induction l as [|x l IH]; cbn; [reflexivity|].
  rewrite Array_insert_perm. now constructor.
Qed.

Lemma Array_sort_length (compare : A -> A -> Z) l :
  List.length (Array_sort compare l) = List.length l.
Proof. apply Permutation_length, Array_sort_perm. Qed.

(** A comparator that is the difference of a key. *)
Variable key : A -> Z.

Lemma Array_insert_sorted x l :
  StronglySorted (keyOrder key) l -> StronglySorted (keyOrder key) (Array_insert (byKey key) x l).
Proof.
  induction 1 as [|y l Hs IH Hy]; cbn.
  - repeat constructor.
  - unfold byKey at 1. destruct (Z.leb_spec (key x - key y) 0) as [Hle|Hgt].
    + constructor; [now constructor|].
      constructor; [unfold keyOrder; lia|].
      rewrite Forall_forall in *. intros z Hz. specialize (Hy z Hz).
      unfold keyOrder in *. lia.
    + constructor; [exact IH|].
      rewrite Forall_forall in *. intros z Hz.
      apply (Permutation_in _ (Array_insert_perm (byKey key) x l)) in Hz.
      destruct Hz as [<-|Hz]; [unfold keyOrder; lia | now apply Hy].
Qed.

Lemma Array_sort_sorted l : StronglySorted (keyOrder key) (Array_sort (byKey key) l).
Proof.
  induction l as [|x l IH]; cbn; [constructor | now apply Array_insert_sorted].
Qed.

(** The elements of one key keep the order they had. *)
Lemma Array_insert_stable p x l :
  filter (fun a => (key a =? p)%Z) (Array_insert (byKey key) x l)
  = filter (fun a => (key a =? p)%Z) (x :: l).
Proof.
  induction l as [|y l IH]; [reflexivity|].
  cbn [Array_insert]. unfold byKey at 1.
  destruct (Z.leb_spec (key x - key y) 0) as [Hle|Hgt]; [reflexivity|].
  cbn [filter] in *. rewrite IH.
  destruct (Z.eqb_spec (key x) p) as [Hx|Hx]; [|reflexivity].
  destruct (Z.eqb_spec (key y) p) as [Hy|Hy]; [lia | reflexivity].
Qed.

Lemma Array_sort_stable p l :
  filter (fun a => (key a =? p)%Z) (Array_sort (byKey key) l) = filter (fun a => (key a =? p)%Z) l.
Proof.
  induction l as [|x l IH]; [reflexivity|].
  cbn [Array_sort fold_right]. rewrite Array_insert_stable.
  cbn [filter]. fold (Array_sort (byKey key) l). now rewrite IH.
Qed.

End Sorting.

Section Slicing.

Context {A : Type}.

Lemma relativeIndex_range len i : (0 <= len -> 0 <= relativeIndex len i <= len)%Z.
Proof. unfold relativeIndex. destruct (Z.ltb_spec i 0); lia. Qed.

(** A slice from the start is a prefix. *)
Lemma Array_slice_prefix (l : list A) (n : Z) :
  Array_slice l 0 (Some n)
  = firstn (Z.to_nat (relativeIndex (Z.of_nat (List.length l)) n)) l.
Proof.
  unfold Array_slice.
  replace (relativeIndex (Z.of_nat (List.length l)) 0) with 0%Z
    by (unfold relativeIndex; cbn; lia).
  cbn [Z.to_nat skipn]. now rewrite Z.sub_0_r.
Qed.

Lemma Array_slice_firstn (l : list A) (n : Z) :
  (0 <= n)%Z -> Array_slice l 0 (Some n) = firstn (Z.to_nat n) l.
Proof.
  intros Hn. rewrite Array_slice_prefix. unfold relativeIndex.
  destruct (Z.ltb_spec n 0) as [|_]; [lia|].
  destruct (Z.le_ge_cases n (Z.of_nat (List.length l))) as [H|H].
  - now rewrite Z.min_l.
  - rewrite Z.min_r, Nat2Z.id by exact H.
    rewrite !firstn_all2; [reflexivity | lia | lia].
Qed.

Lemma Array_slice_length (l : list A) (start : Z) (finish : option Z) :
  (List.length (Array_slice l start finish) <= List.length l)%nat.
Proof.
  unfold Array_slice. rewrite length_firstn, length_skipn. lia.
Qed.

Lemma In_firstn (l : list A) n x : In x (firstn n l) -> In x l.
Proof. intros H. rewrite <- (firstn_skipn n l). apply in_or_app. now left. Qed.

Lemma In_skipn (l : list A) n x : In x (skipn n l) -> In x l.
Proof. intros H. rewrite <- (firstn_skipn n l). apply in_or_app. now right. Qed.

Lemma Array_slice_incl (l : list A) (start : Z) (finish : option Z) x :
  In x (Array_slice l start finish) -> In x l.
Proof.
  unfold Array_slice. intros H. apply In_firstn in H. now apply In_skipn in H.
Qed.

End Slicing.

Lemma String_slice_length (s : string) (n : Z) :
  (0 <= n)%Z -> (Z.of_nat (String.length (String_slice s 0 (Some n))) <= n)%Z.
Proof.
  intros Hn. unfold String_slice.
  replace (relativeIndex (Z.of_nat (String.length s)) 0) with 0%Z
    by (unfold relativeIndex; cbn; lia).
  cbn [Z.to_nat]. rewrite Z.sub_0_r.
  assert (Hsub : forall m t, (String.length (substring 0 m t) <= m)%nat).
  { intros m. induction m as [|m IH]; intros [|c t]; cbn; try lia.
    specialize (IH t). lia. }
  specialize (Hsub (Z.to_nat (relativeIndex (Z.of_nat (String.length s)) n)) s).
  pose proof (@relativeIndex_range (Z.of_nat (String.length s)) n ltac:(lia)).
  unfold relativeIndex in *. destruct (Z.ltb_spec n 0); lia.
Qed.

(* ================================================================= *)
(** ** The summary of the files *)

Section Summary.

Lemma summarized_prefix files maxFiles :
  exists rest, Array_sort (byKey (fun f : string * string => priority (fst f))) files = summarized files maxFiles ++ rest.
Proof.
  unfold summarized. rewrite Array_slice_prefix.
  eexists. symmetry. apply firstn_skipn.
Qed.

(** X1: the files of a summary are those of least [priority] number: the
    files given are the ones summarized followed by the ones left out, in
    an arrangement in which no file has a greater number than a file after
    it, so that every file left out has a number at least that of every
    file summarized. When [maxFiles] is not negative the summary holds
    [maxFiles] files, or all the files if there are fewer. *)
Theorem summary_takes_the_most_important_files (files : list (string * string))
    (maxFiles : Z) :
  exists rest,
    Permutation (summarized files maxFiles ++ rest) files
    /\ StronglySorted (fun f g => (priority (fst f) <= priority (fst g))%Z)
         (summarized files maxFiles ++ rest)
    /\ ((0 <= maxFiles)%Z ->
        List.length (summarized files maxFiles)
        = Nat.min (Z.to_nat maxFiles) (List.length files)).
Proof.
  destruct (summarized_prefix files maxFiles) as [rest Hrest].
  exists rest. rewrite <- Hrest. split; [|split].
  - apply Array_sort_perm.
  - apply (Array_sort_sorted (fun f : string * string => priority (fst f))).
  - intros Hn. unfold summarized. rewrite Array_slice_firstn by exact Hn.
    now rewrite length_firstn, Array_sort_length.
Qed.

(** X2: files of the same [priority] number are summarized in the order
    they were given, and those of them left out are the last ones given. *)
Theorem summary_keeps_the_order_of_equals (files : list (string * string))
    (maxFiles p : Z) :
  exists k,
    filter (fun f => (priority (fst f) =? p)%Z) (summarized files maxFiles)
    = firstn k (filter (fun f => (priority (fst f) =? p)%Z) files).
Proof.
  pose proof (Array_sort_stable (fun f : string * string => priority (fst f)) p files) as Hstable.
  cbv beta in Hstable. rewrite <- Hstable. clear Hstable.
  unfold summarized. rewrite Array_slice_prefix.
  generalize (Z.to_nat (relativeIndex (Z.of_nat (List.length (Array_sort (byKey (fun f : string * string => priority (fst f))) files))) maxFiles)) as n.
  generalize (Array_sort (byKey (fun f : string * string => priority (fst f))) files) as l.
  induction l as [|f l IH]; intros n.
  - exists 0%nat. now rewrite firstn_nil.
  - destruct n as [|n]; [exists 0%nat; reflexivity|].
    cbn [firstn filter]. destruct (IH n) as [k Hk].
    destruct (priority (fst f) =? p)%Z.
    + exists (S k). cbn [firstn]. now rewrite Hk.
    + exists k. exact Hk.
Qed.

Lemma fileSection_length maxChars (f : string * string) :
  (0 <= maxChars)%Z ->
  (Z.of_nat (String.length (fileSection maxChars f))
   <= Z.of_nat (String.length (fst f)) + maxChars + 9)%Z.
Proof.
  intros Hc. unfold fileSection. rewrite !length_append.
  pose proof (String_slice_length (snd f) Hc). cbn [String.length].
  lia.
Qed.

Lemma concat_length_bound (sep : string) (bound : nat) (l : list string) :
  Forall (fun s => (String.length s <= bound)%nat) l ->
  (String.length (concat sep l) <= List.length l * (bound + String.length sep))%nat.
Proof.
  induction 1 as [|s l Hs Hl IH]; cbn [concat List.length String.length]; [lia|].
  destruct l as [|s' l]; [cbn [List.length]; lia|].
  rewrite !length_append. cbn [List.length] in *. nia.
Qed.

(** X3: a summary of at most [maxFiles] files, each cut to
    [maxCharsPerFile] characters, is no longer than [maxFiles] times the
    longest path, the cut and the eleven characters of the frame. *)
Theorem buildFilesSummary_size (files : list (string * string))
    (maxFiles maxCharsPerFile : Z) (longest : nat) :
  (0 <= maxFiles)%Z -> (0 <= maxCharsPerFile)%Z ->
  Forall (fun f => (String.length (fst f) <= longest)%nat) files ->
  (Z.of_nat (String.length (buildFilesSummary files maxFiles maxCharsPerFile))
   <= maxFiles * (Z.of_nat longest + maxCharsPerFile + 11))%Z.
Proof.
  intros Hn Hc Hpaths. unfold buildFilesSummary.
  set (chosen := summarized files maxFiles).
  assert (Hlen : (Z.of_nat (List.length chosen) <= maxFiles)%Z).
  { unfold chosen, summarized. rewrite Array_slice_firstn by exact Hn.
    rewrite length_firstn. lia. }
  assert (Hin : forall f, In f chosen -> In f files).
  { intros f Hf. unfold chosen, summarized in Hf. apply Array_slice_incl in Hf.
    revert Hf. apply Permutation_in, Array_sort_perm. }
  pose (bound := (longest + Z.to_nat maxCharsPerFile + 9)%nat).
  assert (Hall : Forall (fun s => (String.length s <= bound)%nat)
                   (map (fileSection maxCharsPerFile) chosen)).
  { rewrite Forall_forall. intros s Hs. apply in_map_iff in Hs.
    destruct Hs as (f & <- & Hf). apply Hin in Hf.
    rewrite Forall_forall in Hpaths. specialize (Hpaths f Hf).
    pose proof (fileSection_length f Hc). unfold bound. lia. }
  apply (concat_length_bound "

") in Hall. rewrite length_map in Hall. cbn [String.length] in Hall.
  unfold bound in Hall. nia.
Qed.

End Summary.

(* ================================================================= *)
(** ** Paths *)

Section Paths.

Lemma has_In (set : list string) (x : string) : has set x = true <-> In x set.
Proof.
  unfold has. rewrite existsb_exists. split.
  - intros (y & Hy & Heq). apply String.eqb_eq in Heq. now subst.
  - intros H. exists x. split; [exact H | apply String.eqb_refl].
Qed.

Lemma slash_toLowerCase_char (c : ascii) :
  Ascii.eqb (toLowerCase_char c) "/" = Ascii.eqb c "/".
Proof. destruct c as [[] [] [] [] [] [] [] []]; reflexivity. Qed.

Lemma occurrences_slash_toLowerCase (s : string) :
  occurrences "/" (toLowerCase s) = occurrences "/" s.
Proof.
  induction s as [|c s IH]; cbn [toLowerCase occurrences]; [reflexivity|].
  now rewrite slash_toLowerCase_char, IH.
Qed.

Lemma occurrences_app c (a b : string) :
  occurrences c (a ++ b) = (occurrences c a + occurrences c b)%nat.
Proof. induction a as [|x a IH]; cbn; [reflexivity | rewrite IH; lia]. Qed.

(** What [split] gives is never empty, and its last piece, which [pop]
    takes, is the text after the last separator. *)
Lemma split_not_nil sep s : split sep s <> [].
Proof.
  destruct s as [|c s]; cbn; [discriminate|].
  destruct (Ascii.eqb c sep); [discriminate|].
  destruct (split sep s); discriminate.
Qed.

Lemma split_one sep s x : split sep s = [x] -> x = s /\ occurrences sep s = 0%nat.
Proof.
  revert x. induction s as [|c s IH]; intros x; cbn [split occurrences].
  - intros [= <-]. split; reflexivity.
  - pose proof (split_not_nil sep s) as Hne. destruct (Ascii.eqb c sep).
    + intros [= <- Hs]. contradiction.
    + destruct (split sep s) as [|h t]; [contradiction|].
      intros [= <- ->]. destruct (IH h eq_refl) as [-> ->]. split; reflexivity.
Qed.

Lemma split_none sep s : occurrences sep s = 0%nat -> split sep s = [s].
Proof.
  induction s as [|c s IH]; cbn [split occurrences]; [reflexivity|].
  destruct (Ascii.eqb c sep); [discriminate|].
  cbn [Nat.add]. intros H. now rewrite (IH H).
Qed.

Lemma pop_split_cons sep c s :
  pop (split sep (String c s))
  = if Ascii.eqb c sep then pop (split sep s)
    else if (occurrences sep s =? 0)%nat then String c s
    else pop (split sep s).
Proof.
  unfold pop. cbn [split]. pose proof (split_not_nil sep s) as Hne.
  destruct (Ascii.eqb c sep).
  - destruct (split sep s) as [|x l]; [contradiction | reflexivity].
  - destruct (Nat.eqb_spec (occurrences sep s) 0) as [H0|H0].
    + now rewrite (split_none _ _ H0).
    + destruct (split sep s) as [|x [|y l]] eqn:Es; [contradiction | | reflexivity].
      apply split_one in Es. now destruct Es.
Qed.

Lemma pop_split_suffix sep s :
  exists pre, s = (pre ++ pop (split sep s))%string
              /\ occurrences sep (pop (split sep s)) = 0%nat.
Proof.
  induction s as [|c s (pre & IH & Hocc)].
  - exists "". split; reflexivity.
  - rewrite pop_split_cons. destruct (Ascii.eqb c sep) eqn:Ec.
    + exists (String c pre). cbn [append]. now rewrite <- IH.
    + destruct (Nat.eqb_spec (occurrences sep s) 0) as [H0|H0].
      * exists "". split; [reflexivity|]. cbn [occurrences]. now rewrite Ec, H0.
      * exists (String c pre). cbn [append]. now rewrite <- IH.
Qed.

Lemma pop_split_app sep (a suffix : string) :
  occurrences sep suffix = 0%nat ->
  pop (split sep (a ++ suffix)) = (pop (split sep a) ++ suffix)%string.
Proof.
  intros Hs. induction a as [|c a IH].
  - cbn [append]. now rewrite (split_none _ _ Hs).
  - cbn [append]. rewrite !pop_split_cons, IH, occurrences_app, Hs, Nat.add_0_r.
    destruct (Ascii.eqb c sep); [reflexivity|].
    destruct (occurrences sep a =? 0)%nat; reflexivity.
Qed.

End Paths.

(* ================================================================= *)
(** ** The files that are read *)

Section Extensions.

Lemma lastIndexOf_range c s :
  (-1 <= lastIndexOf c s < Z.of_nat (String.length s))%Z
  \/ (s = "" /\ lastIndexOf c s = (-1)%Z).
Proof.
  induction s as [|d s IH]; [right; split; reflexivity|].
  left. cbn [lastIndexOf String.length].
  destruct (Z.leb_spec 0 (lastIndexOf c s)); destruct IH as [IH|[-> IH]];
    cbn in *; destruct (Ascii.eqb d c); lia.
Qed.

Lemma lastIndexOf_none c s : occurrences c s = 0%nat -> lastIndexOf c s = (-1)%Z.
Proof.
  induction s as [|d s IH]; cbn [occurrences lastIndexOf]; [reflexivity|].
  destruct (Ascii.eqb d c); [discriminate|]. cbn [Nat.add]. intros H.
  now rewrite (IH H).
Qed.

Lemma lastIndexOf_app c (a t : string) :
  occurrences c t = 0%nat ->
  lastIndexOf c (a ++ String c t) = Z.of_nat (String.length a).
Proof.
  intros Ht. induction a as [|x a IH]; cbn [append lastIndexOf String.length].
  - rewrite (lastIndexOf_none _ _ Ht). cbn. now rewrite Ascii.eqb_refl.
  - rewrite IH. destruct (Z.leb_spec 0 (Z.of_nat (String.length a))); lia.
Qed.

Lemma substring_all (s : string) : substring 0 (String.length s) s = s.
Proof. induction s as [|c s IH]; cbn; [reflexivity | now rewrite IH]. Qed.

Lemma substring_skip (a rest : string) :
  substring (String.length a) (String.length rest) (a ++ rest) = rest.
Proof. induction a as [|x a IH]; cbn; [apply substring_all | exact IH]. Qed.

Lemma String_slice_app (a rest : string) :
  String_slice (a ++ rest) (Z.of_nat (String.length a)) None = rest.
Proof.
  unfold String_slice, relativeIndex. rewrite length_append.
  destruct (Z.ltb_spec (Z.of_nat (String.length a)) 0) as [|_]; [lia|].
  rewrite Z.min_l by lia. rewrite Nat2Z.id.
  replace (Z.to_nat _) with (String.length rest) by lia.
  apply substring_skip.
Qed.

Lemma substring_suffix (n : nat) : forall s : string,
  (n <= String.length s)%nat ->
  exists pre, s = (pre ++ substring n (String.length s - n) s)%string.
Proof.
  induction n as [|n IH]; intros s Hn.
  - exists "". rewrite Nat.sub_0_r, substring_all. reflexivity.
  - destruct s as [|c s]; [cbn in Hn; lia|]. cbn [String.length] in *.
    destruct (IH s ltac:(lia)) as [pre Hpre]. exists (String c pre).
    cbn [append substring Nat.sub]. now rewrite <- Hpre.
Qed.

Lemma String_slice_suffix (s : string) (i : Z) :
  exists pre, s = (pre ++ String_slice s i None)%string.
Proof.
  unfold String_slice.
  pose proof (@relativeIndex_range (Z.of_nat (String.length s)) i ltac:(lia)) as Hr.
  set (from := relativeIndex (Z.of_nat (String.length s)) i) in *.
  replace (Z.to_nat (Z.of_nat (String.length s) - from))
    with (String.length s - Z.to_nat from)%nat by lia.
  apply substring_suffix. lia.
Qed.

End Extensions.

(* ================================================================= *)
(** ** The name of a file *)

Section Basenames.

(** The last piece of a text that ends with a separator and a piece
    without one is that piece. *)
Lemma pop_split_after sep (d b : string) :
  occurrences sep b = 0%nat -> pop (split sep (d ++ String sep b)) = b.
Proof.
  intros Hb. induction d as [|c d IH]; cbn [append]; rewrite pop_split_cons.
  - rewrite Ascii.eqb_refl. now rewrite (split_none _ _ Hb).
  - rewrite IH, occurrences_app. cbn [occurrences]. rewrite Ascii.eqb_refl.
    destruct (Ascii.eqb c sep); [reflexivity|].
    destruct (Nat.eqb_spec (occurrences sep d + (1 + occurrences sep b)) 0); [lia | reflexivity].
Qed.

(** What stands before the last piece is empty or ends with the
    separator. *)
Lemma pop_split_prefix sep s :
  exists pre, s = (pre ++ pop (split sep s))%string
              /\ (pre = "" \/ exists d, pre = (d ++ String sep "")%string)
              /\ occurrences sep (pop (split sep s)) = 0%nat.
Proof.
  induction s as [|c s (pre & IH & Hpre & Hocc)].
  - exists "". repeat split; auto.
  - rewrite pop_split_cons. destruct (Ascii.eqb_spec c sep) as [->|Hc].
    + exists (String sep pre). cbn [append]. rewrite <- IH. repeat split; [|exact Hocc].
      right. destruct Hpre as [->|[d ->]]; [exists ""; reflexivity | exists (String sep d); reflexivity].
    + destruct (Nat.eqb_spec (occurrences sep s) 0) as [H0|H0].
      * exists "". repeat split; auto. cbn [occurrences].
        destruct (Ascii.eqb_spec c sep); [contradiction | exact H0].
      * exists (String c pre). cbn [append]. rewrite <- IH. repeat split; [|exact Hocc].
        right. destruct Hpre as [->|[d ->]]; [|exists (String c d); reflexivity].
        cbn [append] in IH. rewrite <- IH in Hocc. contradiction.
Qed.

(** The last piece of a text is the one piece without a separator that
    stands at its end after nothing or after a separator. *)
Lemma pop_split_unique sep (s pre b : string) :
  s = (pre ++ b)%string -> (pre = "" \/ exists d, pre = (d ++ String sep "")%string) ->
  occurrences sep b = 0%nat -> pop (split sep s) = b.
Proof.
  intros -> [->|[d ->]] Hb.
  - cbn [append]. now rewrite (split_none _ _ Hb).
  - rewrite append_assoc. cbn [append]. now apply pop_split_after.
Qed.

(** The last position of a character that occurs: the text after it holds
    the character no more. *)
Lemma lastIndexOf_split c s :
  lastIndexOf c s <> (-1)%Z ->
  exists stem ext, s = (stem ++ String c ext)%string
                   /\ occurrences c ext = 0%nat
                   /\ lastIndexOf c s = Z.of_nat (String.length stem).
Proof.
  induction s as [|d s IH]; cbn [lastIndexOf]; [congruence|].
  destruct (Z.leb_spec 0 (lastIndexOf c s)) as [Hi|Hi].
  - intros _. destruct IH as (stem & ext & -> & Hext & Hlast); [lia|].
    exists (String d stem), ext. cbn [append String.length]. repeat split; [exact Hext | lia].
  - destruct (Ascii.eqb_spec d c) as [->|Hd]; [|congruence]. intros _.
    exists "", s. cbn [append String.length]. repeat split.
    destruct (lastIndexOf_range c s) as [Hr|[-> _]]; [|reflexivity].
    assert (Hnone : lastIndexOf c s = (-1)%Z) by lia.
    clear - Hnone. induction s as [|x s IHs]; [reflexivity|].
    cbn [lastIndexOf occurrences] in *.
    destruct (Z.leb_spec 0 (lastIndexOf c s)); [lia|].
    destruct (Ascii.eqb x c); [lia|]. cbn [Nat.add]. apply IHs.
    destruct (lastIndexOf_range c s) as [Hr|[-> _]]; [lia | reflexivity].
Qed.

End Basenames.

(* ================================================================= *)
(** ** The priority of a path *)

Section Priority.

(** X4: the [priority] number of a path lies between 0 and 4 more than its
    depth; it does not depend on the case of the letters; and it is 0 for no
    path in a directory: the five names that stand first are recognised at
    the root only. *)
Theorem priority_range (p : string) :
  (0 <= priority p <= 4 + Z.of_nat (occurrences "/" p))%Z
  /\ priority (toLowerCase p) = priority p
  /\ (priority p = 0%Z -> occurrences "/" p = 0%nat).
Proof.
  split; [|split].
  - unfold priority.
    repeat match goal with |- context [if ?b then _ else _] => destruct b end; lia.
  - unfold priority. now rewrite toLowerCase_idem, occurrences_slash_toLowerCase.
  - unfold priority.
    destruct (has _ (toLowerCase p)) eqn:Hhas.
    + intros _. apply has_In in Hhas. rewrite <- occurrences_slash_toLowerCase.
      cbn [In] in Hhas.
      repeat (destruct Hhas as [<-|Hhas]; [reflexivity|]). contradiction.
    + repeat match goal with |- context [if ?b then _ else _] => destruct b end; lia.
Qed.

End Priority.

(* ================================================================= *)
(** ** The files of a repository that are read *)

Section Filter.

(** X5: whether a path is read does not depend on the case of its
    letters. *)
Theorem shouldIncludeFile_ignores_case (p : string) :
  shouldIncludeFile (toLowerCase p) = shouldIncludeFile p.
Proof. unfold shouldIncludeFile. now rewrite toLowerCase_idem. Qed.

Lemma SKIP_DIRS_lower : Forall (fun dir => toLowerCase dir = dir) SKIP_DIRS.
Proof. repeat constructor. Qed.

(** X6: a path in which the name of a skipped directory occurs is not
    read, wherever the name occurs and whatever the file is: also a file
    that is always read elsewhere, and also when the name is the end of the
    name of another directory. *)
Theorem skipped_directories_are_not_read (pre post : string) :
  Forall (fun dir => shouldIncludeFile (pre ++ dir ++ post) = false) SKIP_DIRS.
Proof.
  apply Forall_forall. intros dir Hin. unfold shouldIncludeFile.
  replace (existsb _ SKIP_DIRS) with true; [reflexivity|].
  symmetry. apply existsb_exists. exists dir. split; [exact Hin|].
  pose proof SKIP_DIRS_lower as Hl. rewrite Forall_forall in Hl.
  rewrite !toLowerCase_app, (Hl dir Hin). apply includes_app.
Qed.

(** X7: a lock file is not read, whatever its extension allows. *)
Theorem lock_files_are_not_read (pre : string) :
  shouldIncludeFile (pre ++ ".lock") = false
  /\ shouldIncludeFile (pre ++ "-lock.json") = false.
Proof.
  split; unfold shouldIncludeFile; rewrite toLowerCase_app;
    destruct (existsb _ SKIP_DIRS); try reflexivity.
  - change (toLowerCase ".lock") with ".lock". now rewrite endsWith_app.
  - change (toLowerCase "-lock.json") with "-lock.json".
    rewrite (endsWith_app _ "-lock.json"), orb_true_r. reflexivity.
Qed.

(** X8: the paths that are read, exactly. [shouldIncludeFile] accepts a
    path when and only when, in lower case, it holds the name of no
    skipped directory, ends neither with [.lock] nor with [-lock.json],
    and its file name, which is what follows its last [/] (the whole path
    when it holds none), is one of the names always read, or holds a dot
    and from its last dot on is one of the allowed extensions. *)
Theorem files_read_are_allowed (p : string) :
  shouldIncludeFile p = true
  <-> (Forall (fun dir => includes (toLowerCase p) dir = false) SKIP_DIRS
       /\ endsWith (toLowerCase p) ".lock" = false
       /\ endsWith (toLowerCase p) "-lock.json" = false
       /\ exists dir basename,
            toLowerCase p = (dir ++ basename)%string
            /\ (dir = "" \/ exists d, dir = (d ++ "/")%string)
            /\ occurrences "/" basename = 0%nat
            /\ (In basename ALWAYS_INCLUDE
                \/ exists stem ext,
                     basename = (stem ++ "." ++ ext)%string
                     /\ occurrences "." ext = 0%nat
                     /\ In ("." ++ ext)%string ALLOWED_EXTENSIONS)).
Proof.
  unfold shouldIncludeFile. split.
  - intros H.
    destruct (existsb _ SKIP_DIRS) eqn:Hskip; [discriminate|].
    split.
    { apply Forall_forall. intros dir Hin.
      destruct (includes (toLowerCase p) dir) eqn:Hinc; [|reflexivity].
      assert (Hex : existsb (fun dir => includes (toLowerCase p) dir) SKIP_DIRS = true)
        by (apply existsb_exists; eauto).
      rewrite Hex in Hskip. discriminate. }
    destruct (endsWith _ ".lock"); [discriminate|].
    destruct (endsWith _ "-lock.json"); [discriminate|]. cbn [orb] in H.
    split; [reflexivity|]. split; [reflexivity|].
    destruct (pop_split_prefix "/" (toLowerCase p)) as (dir & Hdir & Hpre & Hocc).
    exists dir, (pop (split "/" (toLowerCase p))).
    split; [exact Hdir|]. split; [exact Hpre|]. split; [exact Hocc|].
    destruct (has ALWAYS_INCLUDE _) eqn:Halways; [left; now apply has_In|].
    right. destruct (Z.eqb_spec (lastIndexOf "." (pop (split "/" (toLowerCase p)))) (-1))
      as [|Hdot]; [discriminate|].
    apply has_In in H.
    destruct (lastIndexOf_split _ _ Hdot) as (stem & ext & Hname & Hext & Hlast).
    exists stem, ext. split; [exact Hname|]. split; [exact Hext|].
    rewrite Hlast in H. rewrite Hname in H at 1. now rewrite String_slice_app in H.
  - intros (Hskip & Hlock & Hjson & dir & basename & Hp & Hdir & Hocc & Hname).
    assert (Hex : existsb (fun dir => includes (toLowerCase p) dir) SKIP_DIRS = false).
    { destruct (existsb _ SKIP_DIRS) eqn:Hex; [|reflexivity].
      apply existsb_exists in Hex. destruct Hex as (d & Hin & Hinc).
      rewrite Forall_forall in Hskip. now rewrite (Hskip d Hin) in Hinc. }
    rewrite Hex, Hlock, Hjson. cbn [orb].
    rewrite (@pop_split_unique "/" _ _ _ Hp Hdir Hocc).
    destruct Hname as [Halways | (stem & ext & -> & Hext & Hallowed)].
    + apply has_In in Halways. now rewrite Halways.
    + destruct (has ALWAYS_INCLUDE _); [reflexivity|].
      change (stem ++ "." ++ ext)%string with (stem ++ String "." ext)%string.
      rewrite (@lastIndexOf_app "." stem ext Hext).
      destruct (Z.eqb_spec (Z.of_nat (String.length stem)) (-1)); [lia|].
      rewrite String_slice_app. now apply has_In.
Qed.

Lemma ALWAYS_INCLUDE_no_template :
  Forall (fun name => endsWith name ".env.template" = false) ALWAYS_INCLUDE.
Proof. repeat constructor. Qed.

(** X9: the extension of a file is what follows the last dot of its name, so
    that the extensions of the list that hold two dots allow no file: a path
    that ends with [.env.template] is not read. *)
Theorem extension_is_after_the_last_dot (pre : string) :
  shouldIncludeFile (pre ++ ".env.template") = false.
Proof.
  unfold shouldIncludeFile. rewrite toLowerCase_app.
  change (toLowerCase ".env.template") with ".env.template".
  destruct (existsb _ SKIP_DIRS); [reflexivity|].
  destruct (_ || _); [reflexivity|].
  rewrite pop_split_app by reflexivity.
  set (stem := pop (split "/" (toLowerCase pre))).
  destruct (has ALWAYS_INCLUDE _) eqn:Halways.
  - exfalso. apply has_In in Halways.
    pose proof ALWAYS_INCLUDE_no_template as Hno. rewrite Forall_forall in Hno.
    apply Hno in Halways. now rewrite endsWith_app in Halways.
  - change (stem ++ ".env.template")%string
      with (stem ++ ".env" ++ String "." "template")%string.
    rewrite <- append_assoc, lastIndexOf_app by reflexivity.
    destruct (_ =? -1)%Z; [reflexivity|].
    now rewrite String_slice_app.
Qed.

End Filter.

(* ================================================================= *)
(** ** Matching *)

Section Matching.

Variable R : Type.

Lemma literally_app lit s (k : string -> option R) : literally lit (lit ++ s) k = k s.
Proof.
  induction lit as [|c lit IH]; cbn; [reflexivity|].
  now rewrite Ascii.eqb_refl.
Qed.

Lemma literally_some lit : forall s (k : string -> option R) r,
  literally lit s k = Some r -> exists s', s = (lit ++ s')%string /\ k s' = Some r.
Proof.
  induction lit as [|c lit IH]; intros s k r H; cbn in H.
  - exists s. split; [reflexivity | exact H].
  - destruct s as [|d s]; [discriminate|].
    cbn [oneOf] in H. destruct (Ascii.eqb c d) eqn:E; [|discriminate].
    apply Ascii.eqb_eq in E. subst d.
    destruct (IH _ _ _ H) as (s' & -> & Hk). exists s'. split; [reflexivity | exact Hk].
Qed.

Lemma oneOrMore_some class : forall s taken (k : string -> string -> option R) r,
  oneOrMore class s taken k = Some r ->
  exists run rest,
    s = (run ++ rest)%string /\ run <> "" /\ every class run = true
    /\ k (taken ++ run)%string rest = Some r.
Proof.
  induction s as [|c s IH]; intros taken k r H; cbn in H; [discriminate|].
  destruct (class c) eqn:Hc; [|discriminate].
  destruct (oneOrMore class s (taken ++ String c "") k) as [r'|] eqn:Hmore.
  - injection H as ->. destruct (IH _ _ _ Hmore) as (run & rest & -> & _ & Hall & Hk).
    exists (String c run), rest. rewrite append_assoc in Hk.
    repeat split; [discriminate | cbn; now rewrite Hc | exact Hk].
  - exists (String c ""), s. repeat split; [discriminate | cbn; now rewrite Hc | exact H].
Qed.

Lemma oneOrMore_stops class rest taken (k : string -> string -> option R) :
  stops class rest = true -> oneOrMore class rest taken k = None.
Proof.
  destruct rest as [|d rest]; cbn; [reflexivity|].
  now destruct (class d).
Qed.

(** The longest run is what a greedy group holds, when the rest of the
    pattern accepts it. *)
Lemma oneOrMore_greedy class : forall run rest taken (k : string -> string -> option R) r,
  run <> "" -> every class run = true -> stops class rest = true ->
  k (taken ++ run)%string rest = Some r ->
  oneOrMore class (run ++ rest) taken k = Some r.
Proof.
  induction run as [|c run IH]; intros rest taken k r Hne Hall Hstop Hk; [contradiction|].
  cbn in Hall. apply andb_true_iff in Hall. destruct Hall as [Hc Hall].
  cbn [append oneOrMore]. rewrite Hc.
  destruct run as [|c' run].
  - cbn [append]. now rewrite oneOrMore_stops.
  - rewrite (IH rest (taken ++ String c "")%string k r); [reflexivity | discriminate | exact Hall
      | exact Hstop | now rewrite append_assoc].
Qed.

Lemma firstMatch_here (pattern : string -> option R) s r :
  pattern s = Some r -> firstMatch pattern s = Some r.
Proof. intros H. destruct s; cbn; now rewrite H. Qed.

Lemma firstMatch_skip (pattern : string -> option R) c s :
  pattern (String c s) = None -> firstMatch pattern (String c s) = firstMatch pattern s.
Proof. intros H. cbn. now rewrite H. Qed.

Lemma firstMatch_some (pattern : string -> option R) : forall s r,
  firstMatch pattern s = Some r ->
  exists pre rest, s = (pre ++ rest)%string /\ pattern rest = Some r.
Proof.
  induction s as [|c s IH]; intros r H; cbn in H.
  - destruct (pattern "") eqn:Hp; [|discriminate]. injection H as ->.
    exists "", "". split; [reflexivity | exact Hp].
  - destruct (pattern (String c s)) eqn:Hp.
    + injection H as ->. exists "", (String c s). split; [reflexivity | exact Hp].
    + destruct (IH _ H) as (pre & rest & -> & Hr). exists (String c pre), rest.
      split; [reflexivity | exact Hr].
Qed.

Lemma firstMatch_exists (pattern : string -> option R) pre rest r :
  pattern rest = Some r -> exists r', firstMatch pattern (pre ++ rest) = Some r'.
Proof.
  intros H. induction pre as [|c pre (r' & IH)]; cbn [append].
  - exists r. now apply firstMatch_here.
  - cbn [firstMatch]. destruct (pattern (String c (pre ++ rest))) as [r''|]; eauto.
Qed.

End Matching.

(* ================================================================= *)
(** ** The address of a repository *)

Section Address.

Lemma every_app class (a b : string) :
  every class (a ++ b) = every class a && every class b.
Proof. induction a as [|c a IH]; cbn; [reflexivity | now rewrite IH, andb_assoc]. Qed.

(** What the pattern matches from a position. *)
Lemma githubPattern_sound s owner repo :
  githubPattern s = Some (owner, repo) ->
  exists sep tail,
    (sep = "/"%char \/ sep = ":"%char)
    /\ s = ("github.com" ++ String sep (owner ++ "/" ++ repo ++ tail))%string
    /\ owner <> "" /\ every ownerChar owner = true
    /\ repo <> "" /\ every repoChar repo = true.
Proof.
  unfold githubPattern. intros H.
  apply literally_some in H. destruct H as (s1 & -> & H).
  destruct s1 as [|sep s1]; [discriminate|]. cbn [oneOf] in H.
  destruct (Ascii.eqb sep "/" || Ascii.eqb sep ":") eqn:Hsep; [|discriminate].
  apply oneOrMore_some in H. destruct H as (o & s2 & -> & Ho & Hoall & H).
  apply literally_some in H. destruct H as (s3 & -> & H).
  apply oneOrMore_some in H. destruct H as (r & tail & -> & Hr & Hrall & H).
  cbn [append] in H. injection H as <- <-.
  exists sep, tail. repeat split; try assumption.
  apply orb_true_iff in Hsep. destruct Hsep as [E|E]; apply Ascii.eqb_eq in E; auto.
Qed.

Lemma githubPattern_complete sep owner repo tail :
  sep = "/"%char \/ sep = ":"%char ->
  owner <> "" -> every ownerChar owner = true ->
  repo <> "" -> every repoChar repo = true -> delimited tail = true ->
  githubPattern ("github.com" ++ String sep (owner ++ "/" ++ repo ++ tail)) = Some (owner, repo).
Proof.
  intros Hsep Ho Hoall Hr Hrall Htail. unfold githubPattern.
  rewrite literally_app. cbn [oneOf].
  replace (Ascii.eqb sep "/" || Ascii.eqb sep ":") with true
    by (destruct Hsep as [-> | ->]; reflexivity).
  apply oneOrMore_greedy; [exact Ho | exact Hoall | reflexivity|].
  rewrite literally_app. cbn [append].
  apply oneOrMore_greedy; [exact Hr | exact Hrall | exact Htail | reflexivity].
Qed.

End Address.

(* ================================================================= *)
(** ** Cleaning an address *)

Section Cleaning.

Lemma trimStart_suffix s : exists a, s = (a ++ trimStart s)%string.
Proof.
  induction s as [|c s (a & IH)]; [exists ""; reflexivity|].
  cbn [trimStart]. destruct (isWhiteSpace c).
  - exists (String c a). cbn. now rewrite <- IH.
  - exists "". reflexivity.
Qed.

Lemma trimEnd_prefix s : exists b, s = (trimEnd s ++ b)%string.
Proof.
  induction s as [|c s (b & IH)]; [exists ""; reflexivity|].
  cbn [trimEnd]. destruct (trimEnd s) as [|d t] eqn:E.
  - destruct (isWhiteSpace c).
    + exists (String c s). reflexivity.
    + exists s. reflexivity.
  - exists b. cbn [append] in *. now rewrite <- IH.
Qed.

Lemma trimEnd_cons d r :
  isWhiteSpace d = false -> trimEnd (String d r) = String d (trimEnd r).
Proof. intros H. cbn [trimEnd]. rewrite H. now destruct (trimEnd r). Qed.

Lemma trimEnd_app a t :
  trimEnd t <> "" -> trimEnd (a ++ t) = (a ++ trimEnd t)%string.
Proof.
  intros H. induction a as [|c a IH]; [reflexivity|].
  cbn [append trimEnd]. rewrite IH.
  destruct (a ++ trimEnd t)%string eqn:E; [|reflexivity].
  destruct a; cbn in E; [contradiction | discriminate].
Qed.

Lemma trimEnd_name b : every nameChar b = true -> trimEnd b = b.
Proof.
  induction b as [|c b IH]; [reflexivity|]. cbn [every]. intros H.
  apply andb_true_iff in H. destruct H as [Hc Hb].
  rewrite trimEnd_cons, (IH Hb); [reflexivity|].
  unfold nameChar in Hc. now destruct (isWhiteSpace c).
Qed.

Lemma removeAtEnd_prefix lit s : exists b, s = (removeAtEnd lit s ++ b)%string.
Proof.
  induction s as [|c s (b & IH)]; cbn [removeAtEnd].
  - destruct (String.eqb "" lit); exists ""; reflexivity.
  - destruct (String.eqb (String c s) lit).
    + exists (String c s). reflexivity.
    + exists b. cbn [append]. now rewrite <- IH.
Qed.

Lemma removeAtEnd_none lit s : endsWith s lit = false -> removeAtEnd lit s = s.
Proof.
  induction s as [|c s IH]; cbn [endsWith removeAtEnd]; intros H;
    apply orb_false_iff in H; destruct H as [H1 H2]; rewrite H1; [reflexivity|].
  now rewrite (IH H2).
Qed.

Lemma longer_differs (a t lit : string) c :
  (String.length lit <= String.length t)%nat -> String.eqb (String c (a ++ t)) lit = false.
Proof.
  intros H. apply String.eqb_neq. intros E.
  apply (f_equal String.length) in E. cbn in E. rewrite length_append in E. lia.
Qed.

Lemma removeAtEnd_app_long lit a t :
  (String.length lit <= String.length t)%nat ->
  removeAtEnd lit (a ++ t) = (a ++ removeAtEnd lit t)%string.
Proof.
  intros H. induction a as [|c a IH]; [reflexivity|].
  cbn [append removeAtEnd]. now rewrite longer_differs, IH.
Qed.

Lemma removeAtEnd_app_lit lit a : removeAtEnd lit (a ++ lit) = a.
Proof.
  rewrite removeAtEnd_app_long by lia.
  replace (removeAtEnd lit lit) with "" by (destruct lit; cbn [removeAtEnd]; rewrite String.eqb_refl; reflexivity).
  apply append_nil_r.
Qed.

Lemma holding_differs d (s lit : string) :
  occurrences d lit = 0%nat -> (0 < occurrences d s)%nat -> String.eqb s lit = false.
Proof. intros Hl Hs. apply String.eqb_neq. intros ->. lia. Qed.

Lemma removeAtEnd_app_holding d lit a t :
  occurrences d lit = 0%nat -> (0 < occurrences d t)%nat ->
  removeAtEnd lit (a ++ t) = (a ++ removeAtEnd lit t)%string.
Proof.
  intros Hl Ht. induction a as [|c a IH]; [reflexivity|].
  cbn [append removeAtEnd]. rewrite (@holding_differs d), IH; [reflexivity | exact Hl|].
  cbn [occurrences]. rewrite occurrences_app. lia.
Qed.

Lemma endsWith_after c lit a b :
  occurrences c lit = 0%nat -> endsWith (a ++ String c b) lit = endsWith b lit.
Proof.
  intros Hl. induction a as [|x a IH]; cbn [append endsWith].
  - rewrite (@holding_differs c); [reflexivity | exact Hl|].
    cbn. rewrite Ascii.eqb_refl. lia.
  - rewrite (@holding_differs c), IH; [reflexivity | exact Hl|].
    cbn [occurrences]. rewrite occurrences_app. cbn. rewrite Ascii.eqb_refl. lia.
Qed.

Lemma endsWith_char_of_class class c b :
  every class b = true -> class c = false -> b <> "" -> endsWith b (String c "") = false.
Proof.
  intros Hall Hc. induction b as [|x b IH]; [contradiction|]. intros _.
  cbn in Hall. apply andb_true_iff in Hall. destruct Hall as [Hx Hb].
  cbn [endsWith]. apply orb_false_iff. split.
  - apply String.eqb_neq. intros [= -> _]. congruence.
  - destruct b as [|y b]; [reflexivity|]. apply IH; [exact Hb | discriminate].
Qed.

Lemma endsWith_app_nonempty a b lit :
  (String.length lit <= String.length b)%nat -> b <> "" ->
  endsWith (a ++ b) lit = endsWith b lit.
Proof.
  intros Hlen Hb. induction a as [|x a IH]; [reflexivity|].
  cbn [append endsWith]. now rewrite longer_differs, IH.
Qed.

Lemma nameChar_repoChar b : every nameChar b = true -> every repoChar b = true.
Proof.
  induction b as [|c b IH]; [reflexivity|]. cbn [every]. intros H.
  apply andb_true_iff in H. destruct H as [Hc Hb]. rewrite (IH Hb), andb_true_r.
  unfold nameChar in Hc. now apply andb_true_iff in Hc.
Qed.

Lemma cleaned_inside url : exists a b, url = (a ++ cleaned url ++ b)%string.
Proof.
  unfold cleaned, trim.
  destruct (trimStart_suffix url) as [a Ha].
  destruct (trimEnd_prefix (trimStart url)) as [b1 Hb1].
  destruct (removeAtEnd_prefix ".git" (trimEnd (trimStart url))) as [b2 Hb2].
  destruct (removeAtEnd_prefix "/" (removeAtEnd ".git" (trimEnd (trimStart url)))) as [b3 Hb3].
  exists a, (b3 ++ b2 ++ b1)%string.
  set (s1 := trimStart url) in *. set (s2 := trimEnd s1) in *.
  set (s3 := removeAtEnd ".git" s2) in *. set (s4 := removeAtEnd "/" s3) in *.
  clearbody s4. clearbody s3. clearbody s2. clearbody s1. subst.
  now rewrite !append_assoc.
Qed.

Section Address.

(** An address up to the name of the repository: it starts with a
    character that is not white space, and ends with [/] and the name. *)
Variables (h : ascii) (front repo : string).
Hypothesis Hh : isWhiteSpace h = false.
Hypothesis Hrepo : repo <> "".
Hypothesis Hname : every nameChar repo = true.

Lemma base_no_slash_end : endsWith (addressOf h front repo) "/" = false.
Proof.
  unfold addressOf. cbn [endsWith]. apply orb_false_iff. split.
  - apply String.eqb_neq. intros [= _ E]. destruct front; discriminate.
  - rewrite (@endsWith_app_nonempty front (String "/" repo) "/") by (cbn; first [lia | discriminate]).
    cbn [endsWith]. apply orb_false_iff. split.
    + apply String.eqb_neq. intros [= E]. contradiction.
    + apply (@endsWith_char_of_class repoChar); [now apply nameChar_repoChar | reflexivity | exact Hrepo].
Qed.

Lemma cleaned_git : cleaned (addressOf h front repo ++ ".git") = addressOf h front repo.
Proof.
  unfold cleaned, trim, addressOf. cbn [append trimStart]. rewrite Hh.
  change (String h ((front ++ String "/" repo) ++ ".git"))%string
    with ((String h (front ++ String "/" repo)) ++ ".git")%string.
  rewrite trimEnd_app by discriminate.
  change (trimEnd ".git") with ".git".
  rewrite removeAtEnd_app_lit. apply removeAtEnd_none, base_no_slash_end.
Qed.

Lemma cleaned_rest rest :
  endsWith repo ".git" = false -> delimited rest = true ->
  exists tail,
    delimited tail = true
    /\ cleaned (addressOf h front repo ++ rest) = (addressOf h front repo ++ tail)%string.
Proof.
  intros Hgit Hrest. destruct rest as [|d r].
  - exists "". split; [reflexivity|]. rewrite append_nil_r.
    unfold cleaned, trim. unfold addressOf at 1. cbn [trimStart]. rewrite Hh.
    fold (addressOf h front repo).
    assert (Htrim : trimEnd (addressOf h front repo) = addressOf h front repo).
    { unfold addressOf.
      replace (String h (front ++ String "/" repo))
        with ((String h (front ++ "/")) ++ repo)%string
        by (cbn [append]; rewrite append_assoc; reflexivity).
      rewrite trimEnd_app; rewrite (trimEnd_name _ Hname); [reflexivity | exact Hrepo]. }
    rewrite Htrim.
    rewrite (removeAtEnd_none ".git").
    + apply removeAtEnd_none, base_no_slash_end.
    + unfold addressOf.
      change (String h (front ++ String "/" repo))
        with ((String h front) ++ String "/" repo)%string.
      rewrite endsWith_after by reflexivity. exact Hgit.
  - cbn [delimited stops] in Hrest. apply negb_true_iff in Hrest.
    assert (Hd : d = "/"%char \/ d = "?"%char \/ d = "#"%char).
    { unfold repoChar in Hrest. apply negb_false_iff in Hrest.
      rewrite !orb_true_iff in Hrest.
      destruct Hrest as [[E|E]|E]; apply Ascii.eqb_eq in E; auto. }
    assert (Hws : isWhiteSpace d = false) by (destruct Hd as [-> | [-> | ->]]; reflexivity).
    unfold cleaned, trim. unfold addressOf at 1. cbn [append trimStart]. rewrite Hh.
    change (String h ((front ++ String "/" repo) ++ String d r))%string
      with (addressOf h front repo ++ String d r)%string.
    rewrite trimEnd_app by (rewrite trimEnd_cons by exact Hws; discriminate).
    rewrite trimEnd_cons by exact Hws.
    rewrite (@removeAtEnd_app_holding d)
      by (try (cbn [occurrences]; rewrite Ascii.eqb_refl; lia);
          destruct Hd as [-> | [-> | ->]]; reflexivity).
    cbn [removeAtEnd].
    replace (String.eqb (String d (trimEnd r)) ".git") with false
      by (destruct Hd as [-> | [-> | ->]]; reflexivity).
    rewrite removeAtEnd_app_long by (cbn; lia).
    cbn [removeAtEnd].
    destruct (String.eqb (String d (removeAtEnd ".git" (trimEnd r))) "/").
    + exists "". split; [reflexivity|]. reflexivity.
    + eexists. split; [|reflexivity]. cbn [delimited stops]. now rewrite Hrest.
Qed.

End Address.

End Cleaning.

(* ================================================================= *)
(** ** Reading an address *)

(** Both sides are the same text, put together in different ways. *)
Ltac reassociate :=
  repeat (progress (rewrite ?append_assoc, ?append_nil_r; cbn [append])); reflexivity.

Section Parsing.

Lemma parseGithubUrl_resolved url owner repo :
  parseGithubUrl url = Resolved (owner, repo) ->
  exists before sep after,
    (sep = "/"%char \/ sep = ":"%char)
    /\ url = (before ++ ("github.com" ++ String sep (owner ++ "/" ++ repo)) ++ after)%string
    /\ owner <> "" /\ every ownerChar owner = true
    /\ repo <> "" /\ every repoChar repo = true.
Proof.
  unfold parseGithubUrl. intros H.
  destruct (firstMatch githubPattern (cleaned url)) as [[o r]|] eqn:Hm; [|discriminate].
  injection H as -> ->.
  apply firstMatch_some in Hm. destruct Hm as (pre & rest & Hclean & Hm).
  apply githubPattern_sound in Hm.
  destruct Hm as (sep & tail & Hsep & -> & Ho & Hoall & Hr & Hrall).
  destruct (cleaned_inside url) as (a & b & Hurl).
  exists (a ++ pre)%string, sep, (tail ++ b)%string.
  repeat split; try assumption.
  rewrite Hurl, Hclean. reassociate.
Qed.

(** X10: the owner and the repository that [parseGithubUrl] gives stand in
    the address, one after the other, after [github.com] and a [/] or a
    [:]; neither is empty, the owner holds no [/], and the repository none
    of [/], [?] and [#]. *)
Theorem parseGithubUrl_reads_what_the_address_holds (url owner repo : string) :
  parseGithubUrl url = Resolved (owner, repo) ->
  owner <> "" /\ every ownerChar owner = true
  /\ repo <> "" /\ every repoChar repo = true
  /\ (includes url ("github.com/" ++ owner ++ "/" ++ repo) = true
      \/ includes url ("github.com:" ++ owner ++ "/" ++ repo) = true).
Proof.
  intros H. apply parseGithubUrl_resolved in H.
  destruct H as (before & sep & after & Hsep & -> & Ho & Hoall & Hr & Hrall).
  repeat split; try assumption.
  destruct Hsep as [-> | ->]; [left | right]; apply includes_app.
Qed.

(** X11: an address in which [github.com] does not occur is refused, with
    the message that shows the form expected. *)
Theorem parseGithubUrl_needs_the_host (url : string) :
  includes url "github.com" = false ->
  parseGithubUrl url
  = Rejected "Invalid GitHub URL. Expected: https://github.com/owner/repo".
Proof.
  intros Hno. destruct (parseGithubUrl url) as [[owner repo]|message] eqn:H.
  - apply parseGithubUrl_resolved in H.
    destruct H as (before & sep & after & _ & -> & _).
    rewrite !append_assoc in Hno.
    now rewrite (includes_app before "github.com") in Hno.
  - unfold parseGithubUrl in H. destruct (firstMatch _ _) as [[o r]|]; [discriminate|].
    symmetry. exact H.
Qed.

(** X12: the usual addresses of a repository give its owner and its name:
    the address of its page, whatever path, query or fragment follows the
    name; the address to clone it from, which ends with [.git]; and the
    same in the form of ssh. The owner is any text without [/], the name
    any text without white space, [/], [?] and [#] that does not end with
    [.git]. *)
Theorem parseGithubUrl_reads_the_usual_addresses (owner repo rest : string) :
  owner <> "" -> every ownerChar owner = true ->
  repo <> "" -> every nameChar repo = true -> endsWith repo ".git" = false ->
  delimited rest = true ->
  parseGithubUrl ("https://github.com/" ++ owner ++ "/" ++ repo ++ rest)
  = Resolved (owner, repo)
  /\ parseGithubUrl ("https://github.com/" ++ owner ++ "/" ++ repo ++ ".git")
     = Resolved (owner, repo)
  /\ parseGithubUrl ("git@github.com:" ++ owner ++ "/" ++ repo ++ ".git")
     = Resolved (owner, repo).
Proof.
  intros Ho Hoall Hr Hname Hgit Hrest.
  pose proof (nameChar_repoChar _ Hname) as Hrall.
  assert (Hhttps : forall tail,
    firstMatch githubPattern ("https://github.com/" ++ owner ++ "/" ++ repo ++ tail)
    = firstMatch githubPattern ("github.com" ++ String "/" (owner ++ "/" ++ repo ++ tail))).
  { intros tail. cbn [append]. repeat (rewrite firstMatch_skip by reflexivity). reflexivity. }
  assert (Hssh : forall tail,
    firstMatch githubPattern ("git@github.com:" ++ owner ++ "/" ++ repo ++ tail)
    = firstMatch githubPattern ("github.com" ++ String ":" (owner ++ "/" ++ repo ++ tail))).
  { intros tail. cbn [append]. do 4 (rewrite firstMatch_skip by reflexivity). reflexivity. }
  split; [|split].
  - destruct (@cleaned_rest "h" ("ttps://github.com/" ++ owner) repo eq_refl Hr Hname rest
                Hgit Hrest) as (tail & Htail & Hclean).
    unfold addressOf in Hclean.
    unfold parseGithubUrl.
    replace ("https://github.com/" ++ owner ++ "/" ++ repo ++ rest)%string
      with (String "h" (("ttps://github.com/" ++ owner) ++ String "/" repo) ++ rest)%string
      by reassociate.
    rewrite Hclean.
    replace (String "h" (("ttps://github.com/" ++ owner) ++ String "/" repo) ++ tail)%string
      with ("https://github.com/" ++ owner ++ "/" ++ repo ++ tail)%string
      by reassociate.
    rewrite Hhttps, (firstMatch_here githubPattern _ (r := (owner, repo))); [reflexivity|].
    apply githubPattern_complete; auto.
  - pose proof (@cleaned_git "h" ("ttps://github.com/" ++ owner) repo eq_refl Hr Hname)
      as Hclean.
    unfold addressOf in Hclean. unfold parseGithubUrl.
    replace ("https://github.com/" ++ owner ++ "/" ++ repo ++ ".git")%string
      with (String "h" (("ttps://github.com/" ++ owner) ++ String "/" repo) ++ ".git")%string
      by reassociate.
    rewrite Hclean.
    replace (String "h" (("ttps://github.com/" ++ owner) ++ String "/" repo))
      with ("https://github.com/" ++ owner ++ "/" ++ repo ++ "")%string
      by reassociate.
    rewrite Hhttps, (firstMatch_here githubPattern _ (r := (owner, repo))); [reflexivity|].
    apply githubPattern_complete; auto.
  - pose proof (@cleaned_git "g" ("it@github.com:" ++ owner) repo eq_refl Hr Hname)
      as Hclean.
    unfold addressOf in Hclean. unfold parseGithubUrl.
    replace ("git@github.com:" ++ owner ++ "/" ++ repo ++ ".git")%string
      with (String "g" (("it@github.com:" ++ owner) ++ String "/" repo) ++ ".git")%string
      by reassociate.
    rewrite Hclean.
    replace (String "g" (("it@github.com:" ++ owner) ++ String "/" repo))
      with ("git@github.com:" ++ owner ++ "/" ++ repo ++ "")%string
      by reassociate.
    rewrite Hssh, (firstMatch_here githubPattern _ (r := (owner, repo))); [reflexivity|].
    apply githubPattern_complete; auto.
Qed.

End Parsing.

(* ================================================================= *)
(** ** Computations that resolve *)

Section ActLemmas.

Context {E : Type}.

Lemma andThen_resolved {A B} (c : Act E A) (k : A -> Act E B) b t :
  andThen c k = (Resolved b, t) ->
  exists a t1 t2, c = (Resolved a, t1) /\ k a = (Resolved b, t2) /\ t = t1 ++ t2.
Proof.
  unfold andThen. destruct c as [[a|m] t1]; [|discriminate].
  destruct (k a) as [r t2] eqn:Hk. intros [= -> <-]. eauto 6.
Qed.

Lemma andThen_trace {A B} (c : Act E A) (k : A -> Act E B) :
  snd (andThen c k)
  = snd c ++ match fst c with
             | Resolved a => snd (k a)
             | Rejected _ => []
             end.
Proof.
  unfold andThen. destruct c as [[a|m] t1]; cbn.
  - now destruct (k a).
  - now rewrite app_nil_r.
Qed.

Lemma andThen_outcome {A B} (c : Act E A) (k : A -> Act E B) :
  fst (andThen c k)
  = match fst c with
    | Resolved a => fst (k a)
    | Rejected message => Rejected message
    end.
Proof.
  unfold andThen. destruct c as [[a|m] t1]; cbn; [|reflexivity].
  now destruct (k a).
Qed.

End ActLemmas.

(** A computation that resolved, taken apart into the steps that
    resolved. *)
Ltac resolved_steps :=
  repeat match goal with
  | H : andThen _ _ = (Resolved _, _) |- _ =>
      apply andThen_resolved in H;
      let a := fresh "a" in let t1 := fresh "t" in let t2 := fresh "t" in
      let H1 := fresh "H" in let H2 := fresh "H" in
      destruct H as (a & t1 & t2 & H1 & H2 & ->)
  | H : done _ = (Resolved _, _) |- _ => inversion H; clear H; subst
  | H : reading _ = (Resolved _, _) |- _ => inversion H; clear H; subst
  | H : request _ _ = (Resolved _, _) |- _ => inversion H; clear H; subst
  | H : raise _ = (Resolved _, _) |- _ => discriminate H
  end.

(* ================================================================= *)
(** ** Fetching a repository *)

Section Batches.

Context {A : Type}.

Lemma Array_slice_chunk (l : list A) (a b : nat) :
  Array_slice l (Z.of_nat a) (Some (Z.of_nat a + Z.of_nat b)%Z) = firstn b (skipn a l).
Proof.
  unfold Array_slice, relativeIndex.
  destruct (Z.ltb_spec (Z.of_nat a) 0) as [|_]; [lia|].
  destruct (Z.ltb_spec (Z.of_nat a + Z.of_nat b) 0) as [|_]; [lia|].
  destruct (Nat.le_gt_cases a (List.length l)) as [Ha|Ha].
  - rewrite (Z.min_l (Z.of_nat a)) by lia. rewrite Nat2Z.id.
    destruct (Nat.le_gt_cases (a + b) (List.length l)) as [Hb|Hb].
    + rewrite Z.min_l by lia. f_equal. lia.
    + rewrite Z.min_r by lia.
      rewrite (firstn_all2 (n := b)) by (rewrite length_skipn; lia).
      apply firstn_all2. rewrite length_skipn. lia.
  - rewrite !Z.min_r by lia. rewrite Z.sub_diag. cbn [Z.to_nat firstn].
    rewrite (skipn_all2 (n := a)) by lia. now rewrite firstn_nil.
Qed.

Lemma chunks_concat (size : nat) : forall (n : nat) (l : list A),
  (List.length l <= size * n)%nat ->
  List.concat (map (fun k => firstn size (skipn (size * k) l)) (seq 0 n)) = l.
Proof.
  induction n as [|n IH]; intros l Hl.
  - destruct l; [reflexivity | cbn in Hl; lia].
  - cbn [seq map List.concat]. rewrite Nat.mul_0_r. cbn [skipn].
    rewrite <- seq_shift, map_map.
    transitivity (firstn size l ++ skipn size l); [|apply firstn_skipn]. f_equal.
    etransitivity; [|apply (IH (skipn size l)); rewrite length_skipn; lia].
    f_equal. apply map_ext. intros k. rewrite skipn_skipn. do 2 f_equal. lia.
Qed.

End Batches.

Lemma batchesOf_concat (blobs : list TreeNode) : List.concat (batchesOf blobs) = blobs.
Proof.
  unfold batchesOf.
  etransitivity; [|apply (chunks_concat 10 ((List.length blobs + 9) / 10) blobs)].
  - f_equal. apply map_ext. intros k.
    replace (10 * Z.of_nat k)%Z with (Z.of_nat (10 * k)) by lia.
    change 10%Z with (Z.of_nat 10). apply Array_slice_chunk.
  - pose proof (Nat.div_mod_eq (List.length blobs + 9) 10).
    pose proof (Nat.mod_upper_bound (List.length blobs + 9) 10). lia.
Qed.

(* ================================================================= *)
(** ** Fetching a repository *)

Section Fetching.

Variable web : Web.

(** *** The blobs and the languages *)

Lemma selectBlobs_length treeData : (List.length (selectBlobs web treeData) <= 50)%nat.
Proof.
  unfold selectBlobs. rewrite Array_slice_firstn by (unfold MAX_FILES; lia).
  rewrite length_firstn. unfold MAX_FILES. lia.
Qed.

Lemma selectBlobs_In treeData blob :
  In blob (selectBlobs web treeData) ->
  shouldIncludeFile (path blob) = true
  /\ type blob = "blob"
  /\ exists nodes, tree treeData = Some nodes /\ In blob nodes.
Proof.
  unfold selectBlobs. intros H. apply Array_slice_incl in H.
  apply (Permutation_in _ (Array_sort_perm _ _)) in H.
  apply filter_In in H. destruct H as [Hin Hkeep].
  apply andb_true_iff in Hkeep. destruct Hkeep as [Htype Hfile].
  apply String.eqb_eq in Htype.
  destruct (tree treeData) as [nodes|]; [eauto | contradiction].
Qed.

Lemma bump_keys ext langCount :
  map fst (bump ext langCount)
  = if existsb (String.eqb ext) (map fst langCount) then map fst langCount
    else map fst langCount ++ [ext].
Proof.
  induction langCount as [|[key n] others IH]; [reflexivity|].
  cbn [bump map fst existsb]. rewrite (String.eqb_sym ext key).
  destruct (String.eqb key ext); cbn [map fst orb]; [reflexivity|].
  rewrite IH. now destruct (existsb _ _).
Qed.

Lemma bump_NoDup ext langCount :
  NoDup (map fst langCount) -> NoDup (map fst (bump ext langCount)).
Proof.
  intros H. rewrite bump_keys. destruct (existsb _ _) eqn:E; [exact H|].
  apply NoDup_app; [exact H | repeat constructor; intros [] |].
  intros x Hx [<-|[]].
  assert (existsb (String.eqb ext) (map fst langCount) = true)
    by (apply existsb_exists; exists ext; split; [exact Hx | apply String.eqb_refl]).
  congruence.
Qed.

Lemma NoDup_firstn {A} (l : list A) n : NoDup l -> NoDup (firstn n l).
Proof.
  intros H. rewrite <- (firstn_skipn n l) in H. now apply NoDup_app_remove_r in H.
Qed.

Lemma detectLanguages_bounds blobs :
  (List.length (detectLanguages blobs) <= 8)%nat /\ NoDup (detectLanguages blobs).
Proof.
  unfold detectLanguages. split.
  - rewrite length_map, Array_slice_firstn, length_firstn by lia. lia.
  - rewrite Array_slice_firstn by lia. rewrite <- firstn_map. apply NoDup_firstn.
    eapply Permutation_NoDup.
    + apply Permutation_map. symmetry. apply Array_sort_perm.
    + assert (Hfold : forall acc : list (string * Z), NoDup (map fst acc) ->
                NoDup (map fst (fold_left
                  (fun langCount f =>
                     let ext := pop (split "." (path f)) in
                     if negb (String.eqb ext "") && negb (String.eqb ext (path f))
                     then bump ext langCount else langCount) blobs acc))).
      { induction blobs as [|f blobs IH]; intros acc Hacc; cbn [fold_left]; [exact Hacc|].
        apply IH. destruct (_ && _); [now apply bump_NoDup | exact Hacc]. }
      apply Hfold. constructor.
Qed.

(** *** The files *)

Lemma raw_is_raw owner repo defaultBranch blob :
  rawRequest {| url := rawUrlOf owner repo defaultBranch blob; headers := None |}.
Proof.
  split; [reflexivity|].
  exact (prefix_app "https://raw.githubusercontent.com/"
           (owner ++ "/" ++ repo ++ "/" ++ defaultBranch ++ "/" ++ path blob)).
Qed.

Lemma fetchFile_gives owner repo defaultBranch blob :
  exists x,
    fetchFile web owner repo defaultBranch blob
    = (Resolved x, [ {| url := rawUrlOf owner repo defaultBranch blob; headers := None |} ])
    /\ forall f, x = Some f -> served web owner repo defaultBranch [blob] f.
Proof.
  unfold fetchFile, attempt, andThen, request, reading, done.
  fold (rawUrlOf owner repo defaultBranch blob).
  destruct (fetchRaw web _) as [res|message] eqn:Hraw; cbn.
  - destruct (ok res) eqn:Hok; cbn.
    + destruct (body res) as [text|message] eqn:Hbody; cbn.
      * eexists. split; [reflexivity|]. intros f [= <-].
        exists blob, res, text. cbn. auto 7.
      * eexists. split; [reflexivity | discriminate].
    + eexists. split; [reflexivity | discriminate].
  - eexists. split; [reflexivity | discriminate].
Qed.

Lemma served_weaken owner repo defaultBranch blobs blobs' f :
  incl blobs blobs' ->
  served web owner repo defaultBranch blobs f -> served web owner repo defaultBranch blobs' f.
Proof.
  intros Hincl (blob & res & text & Hin & H). exists blob, res, text. auto.
Qed.

Lemma fetchAll_gives owner repo defaultBranch batch :
  exists results,
    fetchAll web owner repo defaultBranch batch
    = (Resolved results,
       map (fun blob => {| url := rawUrlOf owner repo defaultBranch blob; headers := None |})
         batch)
    /\ forall f, In (Some f) results -> served web owner repo defaultBranch batch f.
Proof.
  induction batch as [|blob batch (results & IH & Hserved)]; cbn [fetchAll map].
  - exists []. split; [reflexivity | intros f []].
  - destruct (fetchFile_gives owner repo defaultBranch blob) as (x & Hx & Hfile).
    exists (x :: results). rewrite Hx, IH. split; [cbn; now rewrite app_nil_r|].
    intros f [->|Hin].
    + eapply served_weaken; [|now apply Hfile]. intros b [<-|[]]. now left.
    + eapply served_weaken; [|now apply Hserved]. intros b Hb. now right.
Qed.

Lemma totalSize_app files f :
  totalSize (files ++ [f]) = (totalSize files + String.length (snd f))%nat.
Proof.
  unfold totalSize. rewrite map_app, list_sum_app. cbn. lia.
Qed.

(** What the loop over the results of a batch keeps: the files are as
    many characters as counted at most, and no more than the limit. *)
Lemma collect_keeps results : forall files totalBytes files' totalBytes',
  collect results files totalBytes = (files', totalBytes') ->
  (Z.of_nat (totalSize files) <= totalBytes)%Z ->
  (Z.of_nat (totalSize files) <= MAX_TOTAL_BYTES)%Z ->
  (Z.of_nat (totalSize files') <= totalBytes')%Z
  /\ (Z.of_nat (totalSize files') <= MAX_TOTAL_BYTES)%Z
  /\ exists more, files' = files ++ more
                  /\ (List.length more <= List.length results)%nat
                  /\ forall f, In f more -> In (Some f) results.
Proof.
  induction results as [|[f|] results IH]; intros files totalBytes files' totalBytes' H H1 H2;
    cbn [collect] in H.
  - injection H as <- <-. repeat split; try assumption.
    exists []. rewrite app_nil_r. repeat split; [cbn; lia | intros f []].
  - destruct (Z.ltb_spec MAX_TOTAL_BYTES (totalBytes + Z.of_nat (String.length (snd f)))).
    + injection H as <- <-. repeat split; [lia | assumption |].
      exists []. rewrite app_nil_r. repeat split; [cbn; lia | intros g []].
    + apply IH in H; [| rewrite totalSize_app; lia | rewrite totalSize_app; lia].
      destruct H as (H3 & H4 & more & -> & Hlen & Hin).
      repeat split; try assumption.
      exists (f :: more). rewrite <- app_assoc. repeat split; [cbn; lia|].
      intros g [<-|Hg]; [now left | right; now apply Hin].
  - apply IH in H; try assumption. destruct H as (H3 & H4 & more & -> & Hlen & Hin).
    repeat split; try assumption.
    exists more. repeat split; [cbn; lia | intros g Hg; right; now apply Hin].
Qed.

Lemma fetchBatches_gives owner repo defaultBranch batches : forall files totalBytes,
  (Z.of_nat (totalSize files) <= totalBytes)%Z ->
  (Z.of_nat (totalSize files) <= MAX_TOTAL_BYTES)%Z ->
  exists files' totalBytes' t more,
    fetchBatches web owner repo defaultBranch batches files totalBytes
    = (Resolved (files', totalBytes'), t)
    /\ (Z.of_nat (totalSize files') <= MAX_TOTAL_BYTES)%Z
    /\ files' = files ++ more
    /\ (List.length more <= List.length (List.concat batches))%nat
    /\ Forall (served web owner repo defaultBranch (List.concat batches)) more
    /\ (List.length t <= List.length (List.concat batches))%nat
    /\ Forall rawRequest t.
Proof.
  induction batches as [|batch batches IH]; intros files totalBytes H1 H2; cbn [fetchBatches].
  - exists files, totalBytes, [], []. rewrite app_nil_r. cbn. auto 8.
  - destruct (Z.leb_spec MAX_TOTAL_BYTES totalBytes).
    + exists files, totalBytes, [], []. rewrite app_nil_r. cbn.
      repeat split; auto; lia.
    + destruct (fetchAll_gives owner repo defaultBranch batch) as (results & Hall & Hserved).
      rewrite Hall. cbn [andThen].
      destruct (collect results files totalBytes) as [files1 total1] eqn:Hcollect.
      apply collect_keeps in Hcollect; try assumption.
      destruct Hcollect as (H3 & H4 & more1 & -> & Hlen1 & Hin1).
      destruct (IH (files ++ more1) total1 H3 H4)
        as (files' & totalBytes' & t & more & Hrec & H5 & -> & Hlen & Hmore & Ht & Hraw).
      exists (files ++ more1 ++ more), totalBytes'. eexists. exists (more1 ++ more).
      split; [rewrite Hrec, <- app_assoc; reflexivity|]. rewrite <- app_assoc in H5.
      assert (Hresults : List.length results = List.length batch).
      { clear - Hall. revert results Hall.
        induction batch as [|b batch IHb]; intros results Hall; cbn [fetchAll] in Hall.
        - now injection Hall as <-.
        - destruct (fetchFile_gives owner repo defaultBranch b) as (x & Hx & _).
          rewrite Hx in Hall.
          destruct (fetchAll_gives owner repo defaultBranch batch) as (rs & Hrs & _).
          rewrite Hrs in Hall. cbn in Hall. injection Hall as <-.
          cbn. f_equal. now apply IHb. }
      cbn [List.concat]. rewrite !length_app, length_map.
      repeat split; [exact H5 | lia | | lia |].
      * apply Forall_app. split.
        -- apply Forall_forall. intros f Hf. apply Hin1, Hserved in Hf.
           eapply served_weaken; [|exact Hf]. intros b Hb. apply in_or_app. now left.
        -- eapply Forall_impl; [|exact Hmore]. intros f Hf.
           eapply served_weaken; [|exact Hf]. intros b Hb. apply in_or_app. now right.
      * apply Forall_app. split; [|exact Hraw].
        apply Forall_forall. intros r Hr. apply in_map_iff in Hr.
        destruct Hr as (b & <- & _). apply raw_is_raw.
Qed.

End Fetching.

(* ================================================================= *)
(** ** The content of a repository *)

Section Repository.

Variable web : Web.

Lemma repoRequest_api owner repo : apiRequest web (repoRequest web owner repo).
Proof.
  split; [reflexivity|].
  exact (prefix_app "https://api.github.com/" ("repos/" ++ owner ++ "/" ++ repo)).
Qed.

Lemma treeRequest_api owner repo defaultBranch :
  apiRequest web (treeRequest web owner repo defaultBranch).
Proof.
  split; [reflexivity|].
  exact (prefix_app "https://api.github.com/"
           ("repos/" ++ owner ++ "/" ++ repo ++ "/git/trees/" ++ defaultBranch
            ++ "?recursive=1")).
Qed.

(** A call of [fetchRepoContent] that resolved, step by step. *)
Lemma fetchRepoContent_resolved url out t :
  fetchRepoContent web url = (Resolved out, t) ->
  exists repoRes repoData treeRes treeData fetched t',
    let defaultBranch := orElse (default_branch repoData) "main" in
    let blobs := selectBlobs web treeData in
    parseGithubUrl url = Resolved (owner out, repo out)
    /\ fetchRepo web (repoRequest web (owner out) (repo out)) = Resolved repoRes
    /\ ok repoRes = true /\ body repoRes = Resolved repoData
    /\ fetchTree web (treeRequest web (owner out) (repo out) defaultBranch) = Resolved treeRes
    /\ ok treeRes = true /\ body treeRes = Resolved treeData
    /\ fetchBatches web (owner out) (repo out) defaultBranch (batchesOf blobs) [] 0%Z
       = (Resolved fetched, t')
    /\ t = [repoRequest web (owner out) (repo out);
            treeRequest web (owner out) (repo out) defaultBranch] ++ t'
    /\ repoContent out
       = {| repoName := (owner out ++ "/" ++ repo out)%string;
            fileCount := List.length (fst fetched);
            languages := detectLanguages blobs;
            files := fst fetched |}.
Proof.
  unfold fetchRepoContent. intros H.
  apply andThen_resolved in H. destruct H as ([o r] & t1 & t2 & Hparse & H & ->).
  inversion Hparse as [[Hp Ht1]]. clear Hparse. subst t1.
  apply andThen_resolved in H. destruct H as (repoRes & t1 & t3 & Hrepo & H & ->).
  inversion Hrepo as [[Hr Ht1]]. clear Hrepo. subst t1.
  destruct (ok repoRes) eqn:Hok1; cbn [negb] in H;
    [|repeat match type of H with (if ?b then _ else _) = _ => destruct b end; discriminate].
  apply andThen_resolved in H. destruct H as (repoData & t1 & t4 & Hdata & H & ->).
  inversion Hdata as [[Hd Ht1]]. clear Hdata. subst t1.
  apply andThen_resolved in H. destruct H as (treeRes & t1 & t5 & Htree & H & ->).
  inversion Htree as [[Htr Ht1]]. clear Htree. subst t1.
  destruct (ok treeRes) eqn:Hok2; cbn [negb] in H;
    [|repeat match type of H with (if ?b then _ else _) = _ => destruct b end; discriminate].
  apply andThen_resolved in H. destruct H as (treeData & t1 & t6 & Htd & H & ->).
  inversion Htd as [[Htdata Ht1]]. clear Htd. subst t1.
  apply andThen_resolved in H. destruct H as (fetched & t1 & t7 & Hfetch & H & ->).
  inversion H. subst. cbn [owner repo repoContent].
  exists repoRes, repoData, treeRes, treeData, fetched, t1.
  cbn zeta. rewrite app_nil_r. repeat split; assumption || reflexivity.
Qed.

(** X13: the content that [fetchRepoContent] returns is within its three
    limits: 50 files at most, each of 3000 characters at most, and 100000
    characters in all. The number of files it reports is the number it
    returns, and it names 8 languages at most, none twice. *)
Theorem fetchRepoContent_keeps_its_limits (url : string) (out : Fetched) (t : list Request) :
  fetchRepoContent web url = (Resolved out, t) ->
  (Z.of_nat (List.length (files (repoContent out))) <= MAX_FILES)%Z
  /\ Forall (fun f => (Z.of_nat (String.length (snd f)) <= MAX_BYTES_PER_FILE)%Z)
       (files (repoContent out))
  /\ (Z.of_nat (totalSize (files (repoContent out))) <= MAX_TOTAL_BYTES)%Z
  /\ fileCount (repoContent out) = List.length (files (repoContent out))
  /\ (List.length (languages (repoContent out)) <= 8)%nat
  /\ NoDup (languages (repoContent out)).
Proof.
  intros H. apply fetchRepoContent_resolved in H.
  destruct H as (repoRes & repoData & treeRes & treeData & fetched & t' & H).
  cbn zeta in H. destruct H as (_ & _ & _ & _ & _ & _ & _ & Hfetch & _ & ->).
  cbn [files fileCount languages].
  destruct (@fetchBatches_gives web (owner out) (repo out)
              (orElse (default_branch repoData) "main")
              (batchesOf (selectBlobs web treeData)) [] 0%Z)
    as (files' & total' & t'' & more & Hgives & Hsize & Hfiles & Hlen & Hserved & _);
    [cbn; lia | cbn; unfold MAX_TOTAL_BYTES; lia |].
  rewrite Hgives in Hfetch. injection Hfetch as <- <-. cbn [fst app] in *. subst files'.
  rewrite batchesOf_concat in Hlen, Hserved.
  pose proof (selectBlobs_length web treeData) as Hblobs.
  pose proof (detectLanguages_bounds (selectBlobs web treeData)) as [Hl1 Hl2].
  repeat split; try assumption; [unfold MAX_FILES; lia|].
  eapply Forall_impl; [|exact Hserved].
  intros f (blob & res & text & _ & _ & _ & _ & _ & ->).
  apply String_slice_length. unfold MAX_BYTES_PER_FILE. lia.
Qed.

(** X14: the files that [fetchRepoContent] returns are files of the tree
    that the API answered. The owner and the repository are those that
    [parseGithubUrl] read in the address; the branch is the default branch
    of the answer to the first request, or [main]; the tree is that of the
    answer to the second request, made for this branch. Every file returned
    is one of the blobs selected in this tree, which are nodes of the tree
    of type [blob] whose path [shouldIncludeFile] accepts, and its content
    is the start of what the raw host answered, with [ok], to the request
    for this path on this branch. *)
Theorem fetchRepoContent_returns_files_of_the_tree (url : string) (out : Fetched)
    (t : list Request) :
  fetchRepoContent web url = (Resolved out, t) ->
  exists repoRes repoData treeRes treeData,
    parseGithubUrl url = Resolved (owner out, repo out)
    /\ fetchRepo web (repoRequest web (owner out) (repo out)) = Resolved repoRes
    /\ ok repoRes = true /\ body repoRes = Resolved repoData
    /\ fetchTree web (treeRequest web (owner out) (repo out)
                        (orElse (default_branch repoData) "main")) = Resolved treeRes
    /\ ok treeRes = true /\ body treeRes = Resolved treeData
    /\ Forall (fun blob =>
                 In blob (match tree treeData with Some nodes => nodes | None => [] end)
                 /\ type blob = "blob"
                 /\ shouldIncludeFile (path blob) = true)
         (selectBlobs web treeData)
    /\ Forall (served web (owner out) (repo out) (orElse (default_branch repoData) "main")
                 (selectBlobs web treeData))
         (files (repoContent out)).
Proof.
  intros H. apply fetchRepoContent_resolved in H.
  destruct H as (repoRes & repoData & treeRes & treeData & fetched & t' & H).
  cbn zeta in H.
  destruct H as (Hparse & Hrepo & Hok1 & Hbody1 & Htree & Hok2 & Hbody2 & Hfetch & _ & ->).
  cbn [files].
  exists repoRes, repoData, treeRes, treeData.
  repeat (split; [assumption|]).
  split.
  - apply Forall_forall. intros blob Hin. apply selectBlobs_In in Hin.
    destruct Hin as (Hkeep & Htype & nodes & -> & Hin). auto.
  - destruct (@fetchBatches_gives web (owner out) (repo out)
                (orElse (default_branch repoData) "main")
                (batchesOf (selectBlobs web treeData)) [] 0%Z)
      as (files' & total' & t'' & more & Hgives & _ & Hfiles & _ & Hserved & _);
      [cbn; lia | cbn; unfold MAX_TOTAL_BYTES; lia |].
    rewrite Hgives in Hfetch. injection Hfetch as <- <-. cbn [fst app] in *. subst files'.
    rewrite batchesOf_concat in Hserved. exact Hserved.
Qed.

End Repository.

(* ================================================================= *)
(** ** The requests of [fetchRepoContent] *)

Section Requests.

Variable web : Web.

(** X15: whatever the address, the repository and the answers of the
    network, and whether it resolves or not, a call of [fetchRepoContent]
    makes at most two requests to the API of GitHub, before all others, and
    at most 50 requests for raw files; the headers, which hold the token,
    go with the requests to the API only. *)
Theorem fetchRepoContent_requests (url : string) :
  exists api raw,
    snd (fetchRepoContent web url) = api ++ raw
    /\ (List.length api <= 2)%nat /\ Forall (apiRequest web) api
    /\ (List.length raw <= 50)%nat /\ Forall rawRequest raw.
Proof.
  unfold fetchRepoContent. rewrite andThen_trace. cbn [reading fst snd app].
  destruct (parseGithubUrl url) as [[o r]|message].
  2: { exists [], []. cbn. repeat split; auto; lia. }
  fold (repoRequest web o r).
  assert (Hone : exists api raw,
            [repoRequest web o r] = api ++ raw
            /\ (List.length api <= 2)%nat /\ Forall (apiRequest web) api
            /\ (List.length raw <= 50)%nat /\ Forall rawRequest raw).
  { exists [repoRequest web o r], []. cbn [app List.length].
    repeat split; auto; try lia.
    apply Forall_cons; [apply repoRequest_api | apply Forall_nil]. }
  rewrite andThen_trace. cbn [request fst snd app].
  destruct (fetchRepo web (repoRequest web o r)) as [repoRes|message]; [|exact Hone].
  destruct (ok repoRes); cbn [negb].
  2: { repeat match goal with |- context [if ?b then _ else _] => destruct b end;
         exact Hone. }
  rewrite andThen_trace. cbn [reading fst snd app].
  destruct (body repoRes) as [repoData|message]; [|exact Hone].
  fold (treeRequest web o r (orElse (default_branch repoData) "main")).
  set (branch := orElse (default_branch repoData) "main").
  assert (Htwo : exists api raw,
            [repoRequest web o r; treeRequest web o r branch] = api ++ raw
            /\ (List.length api <= 2)%nat /\ Forall (apiRequest web) api
            /\ (List.length raw <= 50)%nat /\ Forall rawRequest raw).
  { exists [repoRequest web o r; treeRequest web o r branch], []. cbn [app List.length].
    repeat split; auto; try lia.
    apply Forall_cons; [apply repoRequest_api|].
    apply Forall_cons; [apply treeRequest_api | apply Forall_nil]. }
  rewrite andThen_trace. cbn [request fst snd app].
  destruct (fetchTree web (treeRequest web o r branch)) as [treeRes|message];
    [|exact Htwo].
  destruct (ok treeRes); cbn [negb].
  2: { repeat match goal with |- context [if ?b then _ else _] => destruct b end;
         exact Htwo. }
  rewrite andThen_trace. cbn [reading fst snd app].
  destruct (body treeRes) as [treeData|message]; [|exact Htwo].
  rewrite andThen_trace.
  destruct (@fetchBatches_gives web o r branch (batchesOf (selectBlobs web treeData)) [] 0%Z)
    as (files' & total' & t & more & Hgives & _ & _ & _ & _ & Hlen & Hraw);
    [cbn; lia | cbn; unfold MAX_TOTAL_BYTES; lia |].
  rewrite Hgives. cbn [done fst snd app]. rewrite app_nil_r.
  rewrite batchesOf_concat in Hlen. pose proof (selectBlobs_length web treeData).
  exists [repoRequest web o r; treeRequest web o r branch], t. cbn [app List.length].
  repeat split; auto; try lia.
  apply Forall_cons; [apply repoRequest_api|].
  apply Forall_cons; [apply treeRequest_api | apply Forall_nil].
Qed.

(** X16: a file that cannot be fetched does not fail the call: when the
    address is one of a repository and the two requests to the API are
    answered, [fetchRepoContent] resolves with the owner and the repository
    of the address, whatever the raw host answers; and when the raw host
    answers no request with [ok], it resolves with no file. *)
Theorem fetchRepoContent_skips_files_that_fail (url o r : string) :
  api_ok web ->
  parseGithubUrl url = Resolved (o, r) ->
  exists out t,
    fetchRepoContent web url = (Resolved out, t)
    /\ owner out = o /\ repo out = r
    /\ ((forall req res, fetchRaw web req = Resolved res -> ok res = false) ->
        files (repoContent out) = [] /\ fileCount (repoContent out) = 0%nat).
Proof.
  intros [Hrepo Htree] Hparse. unfold fetchRepoContent. rewrite Hparse.
  cbn [reading andThen].
  fold (repoRequest web o r).
  destruct (Hrepo (repoRequest web o r)) as (repoRes & repoData & -> & Hok1 & Hbody1).
  cbn [request andThen]. rewrite Hok1, Hbody1. cbn [negb reading andThen app].
  fold (treeRequest web o r (orElse (default_branch repoData) "main")).
  set (branch := orElse (default_branch repoData) "main").
  destruct (Htree (treeRequest web o r branch)) as (treeRes & treeData & -> & Hok2 & Hbody2).
  rewrite Hok2, Hbody2. cbn [negb reading andThen app].
  destruct (@fetchBatches_gives web o r branch (batchesOf (selectBlobs web treeData)) [] 0%Z)
    as (files' & total' & t & more & Hgives & _ & Hfiles & _ & Hserved & _);
    [cbn; lia | cbn; unfold MAX_TOTAL_BYTES; lia |].
  rewrite Hgives. cbn [andThen done fst snd app].
  do 2 eexists. split; [reflexivity|]. cbn [owner repo repoContent files fileCount].
  split; [reflexivity|]. split; [reflexivity|]. intros Hnone.
  cbn [app] in Hfiles. subst files'.
  destruct more as [|f more]; [split; reflexivity|].
  inversion Hserved as [|f' l (blob & res & text & _ & _ & Hraw & Hok & _) Hl]. subst.
  apply Hnone in Hraw. congruence.
Qed.

End Requests.

(* ================================================================= *)
(** ** The handlers of the server *)

Section Streams.

Context {num : Type} {JS : JsNumber num} {NaN : JsNaN num}.
Variable w : World num.
Variable web : Web.
Variable db : Mongo.
Variable randomUUID : string.

Lemma writes_app (t1 t2 : list (Wire num)) : writes (t1 ++ t2) = writes t1 ++ writes t2.
Proof. apply flat_map_app. Qed.

Lemma outside_app (t1 t2 : list (Wire num)) : outside (t1 ++ t2) = outside t1 ++ outside t2.
Proof. apply flat_map_app. Qed.

Lemma requests_app (t1 t2 : list (Wire num)) : requests (t1 ++ t2) = requests t1 ++ requests t2.
Proof. apply flat_map_app. Qed.

(** What a run of an orchestrator leaves in the handler: its events are
    written, the rest is done, and nothing else. *)
Lemma wire_writes persisting (t : Trace num) :
  writes (flat_map (wire persisting) t) = streamed (events t).
Proof.
  induction t as [|x t IH]; [reflexivity|].
  cbn [flat_map]. rewrite writes_app, IH.
  destruct x as [e|c| | |]; try reflexivity.
  destruct c; try reflexivity.
  cbn [wire events flat_map app]. unfold writes at 1. cbn [flat_map app].
  match goal with |- context [persisting ?r] => induction (persisting r) as [|m l IHl] end;
    [reflexivity | exact IHl].
Qed.

Lemma wire_no_answer persisting (t : Trace num) :
  filter isAnswer (flat_map (wire persisting) t) = [].
Proof.
  induction t as [|x t IH]; [reflexivity|].
  cbn [flat_map]. rewrite filter_app, IH, app_nil_r.
  destruct x as [e|c| | |]; try reflexivity.
  destruct c; try reflexivity.
  cbn [wire filter isAnswer].
  match goal with |- context [persisting ?r] => induction (persisting r) as [|m l IHl] end;
    [reflexivity | exact IHl].
Qed.

Lemma wire_requests persisting (t : Trace num) :
  requests (flat_map (wire persisting) t) = [].
Proof.
  induction t as [|x t IH]; [reflexivity|].
  cbn [flat_map]. rewrite requests_app, IH, app_nil_r.
  destruct x as [e|c| | |]; try reflexivity.
  destruct c; try reflexivity.
  cbn [wire]. unfold requests. cbn [flat_map app].
  match goal with |- context [persisting ?r] => induction (persisting r) as [|m l IHl] end;
    [reflexivity | exact IHl].
Qed.

(** The handler of [/api/run] on a request that passes its check. *)
Lemma api_run_stream (task : string) (budget : num) :
  task <> "" -> isNaN budget = false ->
  api_run w (Some task) budget
  = (Resolved tt,
     opening
     ++ flat_map (wire (fun _ => [])) (snd (runMainAgent w task budget))
     ++ match fst (runMainAgent w task budget) with
        | Resolved _ => []
        | Rejected message =>
            [console_error_line ("Agent error: " ++ message); res_write (error_event message)]
        end
     ++ [res_end]).
Proof.
  intros Htask Hnan. unfold api_run. rewrite Hnan.
  replace (truthy (Some task)) with true
    by (cbn; destruct (String.eqb_spec task ""); [contradiction | reflexivity]).
  replace (orElse (Some task) "") with task
    by (cbn; destruct (String.eqb_spec task ""); [contradiction | reflexivity]).
  cbn [negb orb]. unfold running, opening.
  destruct (runMainAgent w task budget) as [[out|message] t];
    cbn [openStream perform andThen attempt done sendEvent fst snd app];
    rewrite <- ?app_assoc, ?app_nil_r; reflexivity.
Qed.

(** The handler of [/api/analyze] on a request that passes its check. *)
Lemma api_analyze_stream (repo : string) (budget : num) :
  repo <> "" -> isNaN budget = false ->
  api_analyze w web db randomUUID (Some repo) budget
  = (Resolved tt,
     opening
     ++ [res_write (fetching_repo repo)]
     ++ map Http (snd (fetchRepoContent web repo))
     ++ match fst (fetchRepoContent web repo) with
        | Rejected message =>
            [console_error_line ("Analysis error: " ++ message);
             res_write (error_event message)]
        | Resolved fetched =>
            let content := repoContent fetched in
            let run := runCodebaseAnalysis w content budget
                         (persistFn db randomUUID repo content) in
            [res_write (repo_fetched (repoName content) (fileCount content)
                          (languages content))]
            ++ flat_map (wire (fun results =>
                                 snd (persistReport db randomUUID repo content results)))
                 (snd run)
            ++ match fst run with
               | Resolved _ => []
               | Rejected message =>
                   [console_error_line ("Analysis error: " ++ message);
                    res_write (error_event message)]
               end
        end
     ++ [res_end]
     ++ snd (afterAnalyze w web repo budget)).
Proof.
  intros Hrepo Hnan. unfold api_analyze, afterAnalyze. rewrite Hnan.
  replace (truthy (Some repo)) with true
    by (cbn; destruct (String.eqb_spec repo ""); [contradiction | reflexivity]).
  replace (orElse (Some repo) "") with repo
    by (cbn; destruct (String.eqb_spec repo ""); [contradiction | reflexivity]).
  cbn [negb orb]. unfold running, calling, opening.
  destruct (fetchRepoContent web repo) as [[fetched|message] t];
    cbn [openStream perform andThen attempt done sendEvent fst snd app].
  - destruct (runCodebaseAnalysis w (repoContent fetched) budget _) as [[out|message] t'];
      cbn [openStream perform andThen attempt done sendEvent fst snd app];
      rewrite <- ?app_assoc, ?app_nil_r; cbn [app]; reflexivity.
  - rewrite <- ?app_assoc, ?app_nil_r; reflexivity.
Qed.

Lemma last_end {A} (t : list A) (x d : A) : last (t ++ [x]) d = x.
Proof. apply last_last. Qed.

(** X17: the handler of [/api/run] does not fail, whatever the run does. A
    request without a task or with a budget that is not a number is
    answered with the status 400, and nothing else is done. Any other
    request is answered with a stream that carries the events of the run
    in their order, and then, when the run failed, an event of the type
    error with the message of the failure; the last event of a run that
    returned is the refund it reports; and the stream is ended. *)
Theorem api_run_tells_how_the_run_ended (task : option string) (budget : num) :
  exists t,
    api_run w task budget = (Resolved tt, t)
    /\ (truthy task = false \/ isNaN budget = true ->
        t = [res_status_json 400 (error_body "Missing task or budget")])
    /\ (truthy task = true -> isNaN budget = false ->
        last t res_flushHeaders = res_end
        /\ match runMainAgent w (orElse task "") budget with
           | (Resolved out, run) =>
               writes t = streamed (events run)
               /\ last (writes t) (error_event "")
                  = agent_event (refund (refunded out) (refundTxId out))
           | (Rejected message, run) =>
               writes t = streamed (events run) ++ [error_event message]
           end).
Proof.
  destruct (truthy task) eqn:Htask; [destruct (isNaN budget) eqn:Hnan|].
  - eexists. split; [unfold api_run; rewrite Htask, Hnan; reflexivity|].
    split; [reflexivity | discriminate].
  - destruct task as [task|]; [|discriminate].
    assert (Hne : task <> "") by (intros ->; discriminate).
    eexists. split; [exact (@api_run_stream task budget Hne Hnan)|].
    split; [intros [|]; congruence|]. intros _ _.
    replace (orElse (Some task) "") with task
      by (cbn; destruct (String.eqb_spec task ""); [contradiction | reflexivity]).
    split; [now rewrite !app_assoc, last_end|].
    destruct (runMainAgent w task budget) as [[out|message] run] eqn:Hrun; cbn [fst snd].
    + rewrite !writes_app, wire_writes. cbn [opening writes flat_map app].
      rewrite app_nil_r. split; [reflexivity|].
      apply runMainAgent_events in Hrun.
      destruct Hrun as (text & steps & ds & _ & _ & _ & -> & _).
      unfold streamed. rewrite map_app. cbn [map].
      rewrite last_after by discriminate. reflexivity.
    + rewrite !writes_app, wire_writes. cbn [opening writes flat_map app].
      now rewrite ?app_nil_r.
  - eexists. split; [unfold api_run; rewrite Htask; reflexivity|].
    split; [reflexivity | discriminate].
Qed.

(** X18: when the repository cannot be fetched, the handler of
    [/api/analyze] calls neither the ledger nor the language model: all it
    does to the outside is the requests that [fetchRepoContent] made; it
    writes that it is fetching and then the error, and ends the stream. *)
Theorem api_analyze_without_the_repository (repo : string) (budget : num) (message : string) :
  repo <> "" -> isNaN budget = false ->
  fst (fetchRepoContent web repo) = Rejected message ->
  exists t,
    api_analyze w web db randomUUID (Some repo) budget = (Resolved tt, t)
    /\ outside t = []
    /\ requests t = snd (fetchRepoContent web repo)
    /\ writes t = [fetching_repo repo; error_event message]
    /\ last t res_flushHeaders = res_end.
Proof.
  intros Hrepo Hnan Hfetch.
  eexists. split; [exact (@api_analyze_stream repo budget Hrepo Hnan)|]. rewrite Hfetch.
  assert (Hhttp : forall l : list Request,
            outside (num := num) (map Http l) = []
            /\ requests (num := num) (map Http l) = l
            /\ writes (num := num) (map Http l) = []).
  { induction l as [|r l (IH1 & IH2 & IH3)]; [repeat split|].
    cbn [map]. repeat split; [exact IH1 | | exact IH3].
    unfold requests in *. cbn [flat_map app]. now rewrite IH2. }
  destruct (Hhttp (snd (fetchRepoContent web repo))) as (H1 & H2 & H3).
  unfold afterAnalyze. rewrite Hfetch. cbn [done snd]. rewrite app_nil_r.
  repeat split.
  - rewrite !outside_app, H1. reflexivity.
  - rewrite !requests_app, H2. cbn [opening requests flat_map app]. now rewrite app_nil_r.
  - rewrite !writes_app, H3. reflexivity.
  - now rewrite !app_assoc, last_end.
Qed.

End Streams.

(* ================================================================= *)
(** ** The callbacks left pending *)

Section Pending.

Context {num : Type} {JS : JsNumber num}.
Variable w : World num.

(** What the callbacks left pending do, as a handler has it: completions
    written to the stream and assignments, and nothing else. *)
Lemma settleLater_late persisting pendings : forall r,
  forallb isLateCompletion (flat_map (wire persisting) (settleLater (num := num) pendings r))
  = true.
Proof.
  induction pendings as [|p pendings IH]; intros r; [reflexivity|].
  cbn [settleLater]. destruct (answer p); [|apply IH].
  cbn [flat_map wire app forallb isLateCompletion andb]. apply IH.
Qed.

Lemma leftPending_late persisting pendings : forall r,
  forallb isLateCompletion (flat_map (wire persisting) (leftPending (num := num) pendings r))
  = true.
Proof.
  induction pendings as [|p pendings IH]; intros r; [reflexivity|].
  cbn [leftPending]. destruct (answer p); [apply IH | apply settleLater_late].
Qed.

Lemma stillPending_late persisting repoContent B :
  forallb isLateCompletion (flat_map (wire persisting) (stillPending w repoContent B)) = true.
Proof.
  unfold stillPending, fanOutLater.
  destruct (initClient w), (createHCSTopic w), (fundAgent w B); try reflexivity.
  destruct (fst (foundation _ _ _ _)) as [[[c results] r]|]; [|reflexivity].
  destruct (fst (allSettled _)); [|reflexivity].
  destruct (fst (dispatchPayments _ _ _ _ _)) as [[results' pendings]|]; [|reflexivity].
  apply leftPending_late.
Qed.

(** Nothing is left pending when every payment resolves. *)
Lemma leftPending_none pendings : forall r,
  Forall (fun p => resolved (answer p) = true) pendings ->
  leftPending (num := num) pendings r = [].
Proof.
  induction pendings as [|p pendings IH]; intros r H; [reflexivity|].
  inversion H as [|? ? Hp Hrest]; subst. cbn [leftPending].
  destruct (answer p); [now apply IH | discriminate].
Qed.

Lemma insert_by_Forall {A} (P : A -> Prop) (key : A -> nat) x l :
  P x -> Forall P l -> Forall P (insert_by key x l).
Proof.
  intros Hx. induction 1 as [|y l Hy Hl IH]; cbn [insert_by]; [auto|].
  destruct (key x <=? key y)%nat; auto.
Qed.

Lemma sort_by_Forall {A} (P : A -> Prop) (key : A -> nat) l :
  Forall P l -> Forall P (sort_by key l).
Proof.
  induction 1 as [|x l Hx Hl IH]; cbn [sort_by fold_right]; [constructor|].
  now apply insert_by_Forall.
Qed.

Lemma dispatchPayments_answers jobDesc total settled : forall results results' pendings t,
  dispatchPayments w jobDesc total settled results = (Resolved (results', pendings), t) ->
  Forall (fun p => answer p
                   = paySubAgent w (position p) (agent_name (pendingAgent p))
                       (pendingPayment p) jobDesc
                   /\ pendingPayment p = pay total (pendingAgent p))
    pendings.
Proof.
  induction settled as [|[[i a] [v|message]] settled IH];
    intros results results' pendings t H; cbn [dispatchPayments] in H.
  - returned. constructor.
  - returned. constructor; [split; reflexivity|].
    match goal with E : dispatchPayments _ _ _ _ _ = _ |- _ => exact (IH _ _ _ _ E) end.
  - returned. match goal with E : dispatchPayments _ _ _ _ _ = _ |- _ => exact (IH _ _ _ _ E) end.
Qed.

Lemma stillPending_none repoContent B :
  (forall i name amount memo, resolved (paySubAgent w i name amount memo) = true) ->
  stillPending w repoContent B = [].
Proof.
  intros Hpay. unfold stillPending, fanOutLater.
  destruct (initClient w), (createHCSTopic w), (fundAgent w B); try reflexivity.
  destruct (fst (foundation _ _ _ _)) as [[[c results] r]|]; [|reflexivity].
  destruct (fst (allSettled _)) as [settled|]; [|reflexivity].
  destruct (dispatchPayments w _ _ settled results) as [[[results' pendings]|] t] eqn:E;
    [|reflexivity].
  cbn [fst]. apply leftPending_none, sort_by_Forall.
  apply dispatchPayments_answers in E.
  eapply Forall_impl; [|exact E]. intros p [-> _]. apply Hpay.
Qed.

End Pending.

(* ================================================================= *)
(** ** One answer to every request *)

Section Answers.

Context {num : Type} {JS : JsNumber num} {NaN : JsNaN num}.
Variable w : World num.
Variable web : Web.
Variable db : Mongo.
Variable randomUUID : string.

Lemma no_answer_among {E} (inject : E -> Wire num) (l : list E) :
  (forall e, isAnswer (inject e) = false) -> filter isAnswer (map inject l) = [].
Proof.
  intros H. induction l as [|e l IH]; [reflexivity|].
  cbn [map filter]. now rewrite H, IH.
Qed.

Lemma truthy_some (v : option string) :
  truthy v = true -> exists s, v = Some s /\ s <> "".
Proof.
  destruct v as [s|]; [|discriminate]. cbn.
  destruct (String.eqb_spec s ""); [discriminate|]. eauto.
Qed.

(** What follows the answer of [/api/analyze]: completions and
    assignments only, and nothing when every payment resolves. *)
Lemma afterAnalyze_late (repo : string) (budget : num) :
  forallb isLateCompletion (snd (afterAnalyze w web repo budget)) = true.
Proof.
  unfold afterAnalyze.
  destruct (fst (fetchRepoContent web repo)) as [fetched|message]; [|reflexivity].
  apply stillPending_late.
Qed.

Lemma afterAnalyze_none (repo : string) (budget : num) :
  (forall i name amount memo, resolved (paySubAgent w i name amount memo) = true) ->
  snd (afterAnalyze w web repo budget) = [].
Proof.
  intros Hpay. unfold afterAnalyze.
  destruct (fst (fetchRepoContent web repo)) as [fetched|message]; [|reflexivity].
  cbn [snd]. now rewrite stillPending_none.
Qed.

(** X19: each of the four handlers answers every request once, and does not
    fail: whatever the request, the services and the outside do, what the
    handler does holds one response in JSON or one end of the stream, and
    no other. For [/api/run], [/api/report] and [/api/health] the answer
    is the last thing done. For [/api/analyze] the end of the stream can be
    followed by what the callbacks of [Promise.all] still pending do when a
    payment was rejected: they assign the remaining budget and write their
    completions to the stream that was ended, and nothing else; when every
    payment resolves, nothing follows the answer. *)
Theorem every_request_is_answered_once (task repo : option string) (budget : num)
    (shareId : string) :
  answersOnce (api_run w task budget)
  /\ (exists later,
        answersOnceThen (api_analyze w web db randomUUID repo budget) later
        /\ forallb isLateCompletion later = true
        /\ ((forall i name amount memo, resolved (paySubAgent w i name amount memo) = true) ->
            later = []))
  /\ answersOnce (api_report (num := num) db shareId)
  /\ answersOnce (api_health (num := num)).
Proof.
  split; [|split; [|split]].
  - destruct (truthy task) eqn:Htask; [destruct (isNaN budget) eqn:Hnan|].
    + unfold api_run. rewrite Htask, Hnan. split; [reflexivity|].
      now exists [], (res_status_json 400 (error_body "Missing task or budget")).
    + apply truthy_some in Htask. destruct Htask as (s & -> & Hne).
      rewrite (@api_run_stream _ _ _ w s budget Hne Hnan). split; [reflexivity|].
      cbn [snd]. eexists. exists res_end. rewrite !app_assoc.
      split; [reflexivity|]. split; [reflexivity|].
      rewrite !filter_app, wire_no_answer.
      destruct (fst (runMainAgent w _ budget)); reflexivity.
    + unfold api_run. rewrite Htask. split; [reflexivity|].
      now exists [], (res_status_json 400 (error_body "Missing task or budget")).
  - assert (Hrefused : truthy repo = false \/ isNaN budget = true ->
              exists later,
                answersOnceThen (api_analyze w web db randomUUID repo budget) later
                /\ forallb isLateCompletion later = true
                /\ ((forall i name amount memo,
                        resolved (paySubAgent w i name amount memo) = true) -> later = [])).
    { intros Hcheck. exists []. split; [|split; [reflexivity | reflexivity]].
      unfold api_analyze.
      replace (negb (truthy repo) || isNaN budget) with true
        by (destruct Hcheck as [-> | ->]; [reflexivity | now rewrite orb_true_r]).
      split; [reflexivity|].
      now exists [], (res_status_json 400 (error_body "Missing repo URL or budget")). }
    destruct (truthy repo) eqn:Hrepo; [destruct (isNaN budget) eqn:Hnan|]; auto.
    apply truthy_some in Hrepo. destruct Hrepo as (s & -> & Hne).
    exists (snd (afterAnalyze w web s budget)).
    split; [|split].
    + rewrite (@api_analyze_stream _ _ _ w web db randomUUID s budget Hne Hnan).
      split; [reflexivity|].
      cbn [snd]. eexists. exists res_end.
      split; [rewrite !app_assoc; reflexivity|]. split; [reflexivity|].
      split.
      * rewrite !filter_app, no_answer_among by reflexivity.
        destruct (fst (fetchRepoContent web _)) as [fetched|message]; [|reflexivity].
        cbn zeta. rewrite !filter_app, wire_no_answer.
        destruct (fst (runCodebaseAnalysis w _ budget _)); reflexivity.
      * unfold afterAnalyze.
        destruct (fst (fetchRepoContent web _)) as [fetched|message]; [|reflexivity].
        apply wire_no_answer.
    + apply afterAnalyze_late.
    + apply afterAnalyze_none.
  - unfold api_report. destruct (truthy (MONGODB_URI db)); cbn [negb].
    2: { split; [reflexivity|]. now eexists [], _. }
    unfold calling.
    destruct (getReport db shareId) as [[[doc|]|message] t];
      cbn [attempt andThen perform fst snd]; (split; [reflexivity|]).
    + exists (map Db t), (res_json (report_body doc)).
      split; [reflexivity|]. split; [reflexivity|]. now apply no_answer_among.
    + eexists (map Db t), _.
      split; [reflexivity|]. split; [reflexivity|]. now apply no_answer_among.
    + eexists (map Db t ++ [_]), _. rewrite <- app_assoc.
      split; [reflexivity|]. split; [reflexivity|].
      rewrite filter_app, no_answer_among by reflexivity. reflexivity.
  - split; [reflexivity|]. now exists [], (res_json health_body).
Qed.

End Answers.

(* ================================================================= *)
(** ** The report that is saved *)

Section Saving.

Context {num : Type} {JS : JsNumber num}.
Variable w : World num.

Lemma bind_trace {A B} (c : M num A) (k : A -> M num B) :
  snd (bind c k)
  = snd c ++ match fst c with
             | Resolved a => snd (k a)
             | Rejected _ => []
             end.
Proof.
  unfold bind. destruct c as [[a|m] t1]; cbn [fst snd].
  - now destruct (k a).
  - now rewrite app_nil_r.
Qed.

Lemma bind_apart {A B} (c : M num A) (k : A -> M num B) :
  forallb apartFromSaving (snd c) = true ->
  (forall a, forallb apartFromSaving (snd (k a)) = true) ->
  forallb apartFromSaving (snd (bind c k)) = true.
Proof.
  intros Hc Hk. rewrite bind_trace, forallb_app, Hc.
  destruct (fst c); [apply Hk | reflexivity].
Qed.

Lemma emitStarts_apart total l : forallb apartFromSaving (snd (emitStarts total l)) = true.
Proof.
  induction l as [|[[i a] o] l IH]; [reflexivity|].
  cbn [emitStarts]. apply bind_apart; [reflexivity | intros _; exact IH].
Qed.

Lemma allSettled_apart l : forallb apartFromSaving (snd (allSettled (num := num) l)) = true.
Proof.
  induction l as [|[[i a] o] l IH]; [reflexivity|].
  cbn [allSettled]. apply bind_apart; [reflexivity | intros _].
  apply bind_apart; [exact IH | reflexivity].
Qed.

Lemma dispatchPayments_apart jobDesc total settled : forall results,
  forallb apartFromSaving (snd (dispatchPayments w jobDesc total settled results)) = true.
Proof.
  induction settled as [|[[i a] [v|message]] settled IH]; intros results; [reflexivity| |];
    cbn [dispatchPayments].
  - apply bind_apart; [reflexivity | intros _].
    apply bind_apart; [apply IH | intros [res pendings]; reflexivity].
  - apply bind_apart; [reflexivity | intros _].
    apply bind_apart; [reflexivity | intros _; apply IH].
Qed.

Lemma settlePayments_apart pendings : forall r,
  forallb apartFromSaving (snd (settlePayments (num := num) pendings r)) = true.
Proof.
  induction pendings as [|p pendings IH]; intros r; [reflexivity|].
  cbn [settlePayments]. destruct (answer p); [|reflexivity].
  apply bind_apart; [reflexivity | intros _].
  apply bind_apart; [reflexivity | intros _; apply IH].
Qed.

Lemma foundation_apart jobDesc total r :
  forallb apartFromSaving (snd (foundation w jobDesc total r)) = true.
Proof.
  unfold foundation. apply bind_apart; [reflexivity | intros _].
  apply bind_apart.
  - unfold try_catch, await. destruct (runCodeReaderAgent w); reflexivity.
  - intros c. apply bind_apart; [reflexivity | intros txId].
    apply bind_apart; [reflexivity | intros _].
    apply bind_apart; [reflexivity | intros _; reflexivity].
Qed.

Lemma fanOut_apart jobDesc total c results r :
  forallb apartFromSaving (snd (fanOut w jobDesc total c results r)) = true.
Proof.
  unfold fanOut. apply bind_apart; [apply emitStarts_apart | intros _].
  apply bind_apart; [apply allSettled_apart | intros settled].
  apply bind_apart; [apply dispatchPayments_apart | intros [res pendings]].
  apply bind_apart; [apply settlePayments_apart | intros r'; reflexivity].
Qed.

(** What [persist] leaves. *)
Lemma persist_trace persistFn results :
  snd (persist (num := num) persistFn results)
  = match persistFn with
    | None => []
    | Some f =>
        Invoke (call_persistFn results)
        :: match f results with
           | Resolved (Some id) => [Emit (report_saved id)]
           | Resolved None => []
           | Rejected message =>
               [ConsoleError ("[MongoDB] Failed to save report: " ++ message)]
           end
    end.
Proof.
  unfold persist. destruct persistFn as [f|]; [|reflexivity].
  unfold try_catch, bind, await. destruct (f results) as [[id|]|message]; reflexivity.
Qed.

Lemma persist_resolves persistFn results :
  fst (persist (num := num) persistFn results) = Resolved tt.
Proof.
  unfold persist. destruct persistFn as [f|]; [|reflexivity].
  unfold try_catch, bind, await. destruct (f results) as [[id|]|message]; reflexivity.
Qed.

Lemma finalize_trace persistFn scheduleId B results r :
  exists tail,
    snd (finalize w persistFn scheduleId B results r)
    = Emit (analysis_complete results) :: snd (persist persistFn results) ++ tail
    /\ forallb apartFromSaving tail = true.
Proof.
  unfold finalize. rewrite bind_trace. cbn [onEvent fst snd app].
  rewrite bind_trace, persist_resolves.
  eexists. split; [reflexivity|].
  apply bind_apart; [reflexivity | intros txId].
  apply bind_apart; [reflexivity | intros _; reflexivity].
Qed.

(** A run of the analysis is what comes before the last part, which
    leaves nothing of the saving, and the last part if it is reached. *)
Lemma runCodebaseAnalysis_trace repoContent B persistFn :
  exists pre rest,
    snd (runCodebaseAnalysis w repoContent B persistFn) = pre ++ rest
    /\ forallb apartFromSaving pre = true
    /\ (rest = []
        \/ exists scheduleId results r,
             rest = snd (finalize w persistFn scheduleId B results r)).
Proof.
  unfold runCodebaseAnalysis.
  assert (Hstop : forall pre : Trace num, forallb apartFromSaving pre = true ->
            exists pre' rest,
              pre = pre' ++ rest /\ forallb apartFromSaving pre' = true
              /\ (rest = []
                  \/ exists scheduleId results r,
                       rest = snd (finalize w persistFn scheduleId B results r))).
  { intros pre Hpre. exists pre, []. rewrite app_nil_r. auto. }
  rewrite bind_trace. cbn [await fst snd].
  destruct (initClient w) as [[]|m]; [|apply Hstop; reflexivity].
  rewrite bind_trace. cbn [await fst snd].
  destruct (createHCSTopic w) as [topic|m]; [|apply Hstop; reflexivity].
  rewrite bind_trace. cbn [await fst snd].
  destruct (fundAgent w B) as [scheduleId|m]; [|apply Hstop; reflexivity].
  rewrite bind_trace.
  pose proof (foundation_apart
                ("Codebase intelligence for " ++ repoName repoContent)%string
                (totalAgentBudget B) B) as H1.
  destruct (foundation w _ (totalAgentBudget B) B) as [[[[c res] r]|m] t1];
    cbn [fst snd] in *.
  2: { apply Hstop. cbn [app forallb apartFromSaving andb].
       now rewrite forallb_app, H1. }
  rewrite bind_trace.
  pose proof (fanOut_apart
                ("Codebase intelligence for " ++ repoName repoContent)%string
                (totalAgentBudget B) c res r) as H2.
  destruct (fanOut w _ (totalAgentBudget B) c res r) as [[[res' r']|m] t2];
    cbn [fst snd] in *.
  2: { apply Hstop. cbn [app forallb apartFromSaving andb].
       now rewrite !forallb_app, H1, H2. }
  exists ([Invoke call_initClient] ++ [Invoke call_createHCSTopic]
          ++ [Invoke (call_fundAgent B)] ++ t1 ++ t2),
    (snd (finalize w persistFn scheduleId B res' r')).
  split; [now rewrite <- !app_assoc|]. split; [|eauto].
  cbn [app forallb apartFromSaving andb]. now rewrite !forallb_app, H1, H2.
Qed.

Lemma apart_not_saved (t : Trace num) id :
  forallb apartFromSaving t = true -> ~ In (Emit (report_saved id)) t.
Proof.
  intros H Hin. rewrite forallb_forall in H. apply H in Hin. discriminate.
Qed.

(** The announcement of a saved report follows at once the call of
    [persistFn] that gave its identifier. *)
Lemma report_saved_after_persistFn repoContent B persistFn id :
  In (Emit (report_saved id)) (snd (runCodebaseAnalysis w repoContent B persistFn)) ->
  exists f results pre post,
    persistFn = Some f
    /\ f results = Resolved (Some id)
    /\ snd (runCodebaseAnalysis w repoContent B persistFn)
       = pre ++ Invoke (call_persistFn results) :: Emit (report_saved id) :: post.
Proof.
  destruct (runCodebaseAnalysis_trace repoContent B persistFn)
    as (pre & rest & -> & Hpre & Hrest).
  intros Hin. apply in_app_or in Hin.
  destruct Hin as [Hin|Hin]; [now apply apart_not_saved in Hin|].
  destruct Hrest as [->|(scheduleId & results & r & ->)]; [contradiction|].
  destruct (finalize_trace persistFn scheduleId B results r) as (tail & Hfin & Htail).
  rewrite Hfin in *. rewrite persist_trace in *.
  destruct Hin as [Hin|Hin]; [discriminate|].
  apply in_app_or in Hin.
  destruct Hin as [Hin|Hin]; [|now apply apart_not_saved in Hin].
  destruct persistFn as [f|]; [|contradiction].
  destruct Hin as [Hin|Hin]; [discriminate|].
  destruct (f results) as [[id'|]|message] eqn:Hf; cbn [In] in Hin;
    try (destruct Hin as [Hin|[]]; discriminate); try contradiction.
  destruct Hin as [[= ->]|[]].
  exists f, results, (pre ++ [Emit (analysis_complete results)]), tail.
  split; [reflexivity|]. split; [exact Hf|].
  rewrite <- app_assoc. reflexivity.
Qed.

End Saving.

(* ================================================================= *)
(** ** The link to a report *)

Section ShareLink.

Context {num : Type} {JS : JsNumber num} {NaN : JsNaN num}.
Variable w : World num.
Variable web : Web.
Variable db : Mongo.
Variable randomUUID : string.

(** What [persistFn] did when it gave an identifier. *)
Lemma persistFn_gave address content f results id :
  persistFn db randomUUID address content = Some f ->
  f results = Resolved (Some id) ->
  truthy (MONGODB_URI db) = true
  /\ id = String_slice (removeAll "-" randomUUID) 0 (Some 16%Z)
  /\ exists doc,
       In (doc_save doc) (snd (persistReport db randomUUID address content results))
       /\ _id doc = id /\ repoUrl doc = address /\ data doc = results
       /\ save db doc = Resolved tt.
Proof.
  unfold persistFn. destruct (truthy (MONGODB_URI db)); [|discriminate].
  intros [= <-] Hf. split; [reflexivity|].
  unfold persistReport, saveReport in *.
  set (shareId := String_slice (removeAll "-" randomUUID) 0 (Some 16%Z)) in *.
  set (doc := {| _id := shareId; reportRepoName := repoName content; repoUrl := address;
                 meta := (fileCount content, languages content); data := results |}) in *.
  destruct (connectDB db) as [[[]|m] t1]; cbn [andThen fst snd] in Hf; [|discriminate].
  unfold request in *. destruct (save db doc) as [[]|m] eqn:Hsave;
    cbn [andThen done fst snd app] in *; [|discriminate].
  destruct (String.eqb shareId ""); [discriminate|]. injection Hf as <-.
  split; [reflexivity|]. exists doc. repeat split; try assumption.
  rewrite app_nil_r. apply in_or_app. right. now left.
Qed.

(** X20: a report is announced as saved only after it was saved, under the
    identifier announced: when the handler of [/api/analyze] writes the
    event [report_saved], the address of the database is set, the
    identifier is the first 16 characters of the random UUID without its
    dashes, and before the event the handler saved, with success, a
    document of this identifier for the address of the request. *)
Theorem the_report_announced_was_saved (repo : option string) (budget : num) (id : string) :
  In (res_write (agent_event (report_saved id)))
    (snd (api_analyze w web db randomUUID repo budget)) ->
  truthy (MONGODB_URI db) = true
  /\ id = String_slice (removeAll "-" randomUUID) 0 (Some 16%Z)
  /\ exists before after doc,
       snd (api_analyze w web db randomUUID repo budget)
       = before ++ res_write (agent_event (report_saved id)) :: after
       /\ In (Db (doc_save doc)) before
       /\ _id doc = id /\ repoUrl doc = orElse repo "" /\ save db doc = Resolved tt.
Proof.
  destruct (truthy repo) eqn:Hrepo; [destruct (isNaN budget) eqn:Hnan|].
  1, 3: unfold api_analyze; rewrite Hrepo, ?Hnan; cbn; intros [H|[]]; discriminate.
  apply truthy_some in Hrepo. destruct Hrepo as (url & -> & Hne).
  replace (orElse (Some url) "") with url
    by (cbn; destruct (String.eqb_spec url ""); [contradiction | reflexivity]).
  rewrite (@api_analyze_stream _ _ _ w web db randomUUID url budget Hne Hnan).
  cbn [snd]. intros Hin.
  apply in_app_or in Hin. destruct Hin as [Hin|Hin];
    [cbn in Hin; repeat (destruct Hin as [Hin|Hin]; [discriminate|]); contradiction|].
  apply in_app_or in Hin. destruct Hin as [Hin|Hin];
    [destruct Hin as [Hin|[]]; discriminate|].
  apply in_app_or in Hin. destruct Hin as [Hin|Hin];
    [apply in_map_iff in Hin; destruct Hin as (r & Hr & _); discriminate|].
  apply in_app_or in Hin. destruct Hin as [Hin|Hin].
  2: { exfalso. destruct Hin as [Hin|Hin]; [discriminate|].
       pose proof (afterAnalyze_late w web url budget) as Hlate.
       rewrite forallb_forall in Hlate. specialize (Hlate _ Hin). discriminate. }
  destruct (fst (fetchRepoContent web url)) as [fetched|message] eqn:Hfetch;
    [|cbn in Hin; repeat (destruct Hin as [Hin|Hin]; [discriminate|]); contradiction].
  cbn zeta in *.
  set (content := repoContent fetched) in *.
  set (pf := persistFn db randomUUID url content) in *.
  set (persisting := fun results => snd (persistReport db randomUUID url content results)) in *.
  apply in_app_or in Hin. destruct Hin as [Hin|Hin];
    [destruct Hin as [Hin|[]]; discriminate|].
  apply in_app_or in Hin. destruct Hin as [Hin|Hin].
  2: { destruct (fst (runCodebaseAnalysis w content budget pf)); cbn in Hin;
         repeat (destruct Hin as [Hin|Hin]; [discriminate|]); contradiction. }
  apply in_flat_map in Hin. destruct Hin as (x & Hx & Hwire).
  assert (Hsaved : x = Emit (report_saved id)).
  { destruct x as [e|c| | |]; cbn [wire] in Hwire.
    - destruct Hwire as [[= ->]|[]]. reflexivity.
    - destruct c; cbn [In] in Hwire;
        try (destruct Hwire as [Hwire|[]]; discriminate).
      destruct Hwire as [Hwire|Hwire]; [discriminate|].
      apply in_map_iff in Hwire. destruct Hwire as (m & Hm & _). discriminate.
    - destruct Hwire as [Hwire|[]]; discriminate.
    - destruct Hwire as [Hwire|[]]; discriminate.
    - destruct Hwire as [Hwire|[]]; discriminate. }
  subst x. apply report_saved_after_persistFn in Hx.
  destruct Hx as (f & results & pre & post & Hpf & Hf & Htrace).
  destruct (persistFn_gave url content results Hpf Hf) as (Huri & Hid & doc & Hdoc & H1 & H2 & _ & H3).
  split; [exact Huri|]. split; [exact Hid|].
  rewrite Htrace. rewrite flat_map_app. cbn [flat_map wire app].
  exists (opening ++ [res_write (fetching_repo url)]
          ++ map Http (snd (fetchRepoContent web url))
          ++ [res_write (repo_fetched (repoName content) (fileCount content)
                           (languages content))]
          ++ flat_map (wire persisting) pre
          ++ Outside (Invoke (call_persistFn results)) :: map Db (persisting results)).
  exists (flat_map (wire persisting) post
          ++ match fst (runCodebaseAnalysis w content budget pf) with
             | Resolved _ => []
             | Rejected message =>
                 [console_error_line ("Analysis error: " ++ message);
                  res_write (error_event message)]
             end
          ++ [res_end]
          ++ snd (afterAnalyze w web url budget)).
  exists doc. split.
  - repeat (rewrite <- ?app_assoc; cbn [app]). reflexivity.
  - repeat split; try assumption.
    rewrite !in_app_iff. do 5 right. apply in_cons, in_map. exact Hdoc.
Qed.

End ShareLink.

(* ================================================================= *)
(** ** The payments of a run *)

Section Ledger.

Context {num : Type} {JS : JsNumber num}.
Variable w : World num.

Lemma paid_app (t1 t2 : Trace num) : paid (t1 ++ t2) = paid t1 ++ paid t2.
Proof. unfold paid. now rewrite calls_app, flat_map_app. Qed.

(** The loop of [runMainAgent]: the budget left is the budget less the
    payments called, one after the other. *)
Lemma runSteps_ledger total planned steps : forall i r res r' res' t,
  runSteps w total planned i steps r res = (Resolved (r', res'), t) ->
  r' = deductAll r (paid t)
  /\ Forall (fun p => exists st, In st steps /\ p = payment (allocation st) total) (paid t).
Proof.
  induction steps as [|st rest IH]; intros i r res r' res' t H; cbn [runSteps] in H.
  - returned. split; [reflexivity | constructor].
  - destruct (nlt r (payment (allocation st) total)) eqn:Hcheck.
    + returned. split; [reflexivity | constructor].
    + returned. apply IH in H. destruct H as [-> Hall].
      rewrite !paid_app. cbn [paid calls flat_map app]. unfold deductAll. cbn [fold_left].
      split; [reflexivity|]. constructor; [exists st; split; [now left | reflexivity]|].
      eapply Forall_impl; [|exact Hall]. intros p (st' & Hin & ->). exists st'.
      split; [now right | reflexivity].
Qed.

Lemma runMainAgent_ledger task B out t :
  runMainAgent w task B = (Resolved out, t) ->
  refunded out = deductAll B (paid t)
  /\ exists steps,
       Forall (fun p => exists st, In st steps
                        /\ p = payment (allocation st) (totalAgentBudget B)) (paid t).
Proof.
  unfold runMainAgent. intros H. returned.
  match goal with
  | E : runSteps _ _ _ _ _ _ _ = _ |- _ => apply runSteps_ledger in E; destruct E as [-> Hall]
  end.
  cbn [refunded]. rewrite !paid_app. cbn [paid calls flat_map app].
  rewrite !app_nil_r. split; [reflexivity | eauto].
Qed.

(** The payments called for the agents that succeeded, in the order of the
    array, and the payments awaited. *)
Lemma dispatchPayments_ledger jobDesc total settled : forall results results' pendings t,
  dispatchPayments w jobDesc total settled results = (Resolved (results', pendings), t) ->
  paid t = map pendingPayment pendings
  /\ map pendingPayment pendings
     = map (fun e => pay total (snd (fst e))) (filter (fun e => resolved (snd e)) settled).
Proof.
  induction settled as [|[[i a] [v|message]] settled IH];
    intros results results' pendings t H; cbn [dispatchPayments] in H.
  - returned. split; reflexivity.
  - returned.
    match goal with E : dispatchPayments _ _ _ _ _ = _ |- _ =>
      apply IH in E; destruct E as [Hpaid Hmap] end.
    rewrite !paid_app, Hpaid.
    cbn [paid calls flat_map app map filter resolved snd fst pendingPayment].
    rewrite app_nil_r. now rewrite Hmap.
  - returned.
    match goal with E : dispatchPayments _ _ _ _ _ = _ |- _ =>
      apply IH in E; destruct E as [Hpaid Hmap] end.
    rewrite !paid_app, Hpaid.
    cbn [paid calls flat_map app map filter resolved snd fst].
    split; [reflexivity | exact Hmap].
Qed.

Lemma settlePayments_ledger pendings : forall r r' t,
  settlePayments (num := num) pendings r = (Resolved r', t) ->
  paid t = [] /\ r' = deductAll r (map pendingPayment pendings).
Proof.
  induction pendings as [|p pendings IH]; intros r r' t H; cbn [settlePayments] in H.
  - returned. split; reflexivity.
  - destruct (answer p); [|discriminate]. returned.
    match goal with E : settlePayments _ _ = _ |- _ =>
      apply IH in E; destruct E as [Hpaid ->] end.
    rewrite !paid_app, Hpaid. split; reflexivity.
Qed.

Lemma emitStarts_ledger total l t :
  emitStarts (num := num) total l = (Resolved tt, t) -> paid t = [].
Proof.
  revert t. induction l as [|[[i a] o] l IH]; intros t H; cbn [emitStarts] in H.
  - returned. reflexivity.
  - returned.
    match goal with E : emitStarts _ _ = _ |- _ => apply IH in E; rewrite paid_app, E end.
    reflexivity.
Qed.

Lemma allSettled_ledger l : forall settled t,
  allSettled (num := num) l = (Resolved settled, t) -> paid t = [] /\ settled = l.
Proof.
  induction l as [|[[i a] o] l IH]; intros settled t H; cbn [allSettled] in H.
  - returned. split; reflexivity.
  - returned. match goal with E : allSettled _ = _ |- _ => apply IH in E; destruct E as [Hp ->] end.
    rewrite !paid_app, Hp. split; reflexivity.
Qed.

Lemma insert_by_perm {A} (key : A -> nat) x l : Permutation (insert_by key x l) (x :: l).
Proof.
  induction l as [|y l IH]; cbn; [reflexivity|].
  destruct (key x <=? key y)%nat; [reflexivity|]. rewrite IH. apply perm_swap.
Qed.

Lemma sort_by_perm {A} (key : A -> nat) l : Permutation (sort_by key l) l.
Proof.
  induction l as [|x l IH]; cbn; [reflexivity|].
  rewrite insert_by_perm. now constructor.
Qed.

Lemma fanOut_ledger jobDesc total c results r results' r' t :
  fanOut w jobDesc total c results r = (Resolved (results', r'), t) ->
  paid t = map (pay total) (succeeded w c)
  /\ exists ps, Permutation ps (paid t) /\ r' = deductAll r ps.
Proof.
  unfold fanOut. intros H. returned.
  match goal with E : emitStarts _ _ = _ |- _ => destruct a; apply emitStarts_ledger in E end.
  match goal with E : allSettled _ = _ |- _ => apply allSettled_ledger in E; destruct E as [E ->] end.
  match goal with E : dispatchPayments _ _ _ _ _ = _ |- _ =>
    apply dispatchPayments_ledger in E; destruct E as [Ed Hmap] end.
  match goal with E : settlePayments _ _ = _ |- _ =>
    apply settlePayments_ledger in E; destruct E as [Es ->] end.
  rewrite !paid_app. repeat match goal with E : paid _ = _ |- _ => rewrite E end.
  cbn [app]. rewrite !app_nil_r. split.
  - rewrite Hmap. unfold succeeded, phase2. cbn [filter map snd fst parallel_answer].
    destruct (runSimplifierAgent w c), (runAnalogyAgent w c), (runInsightAgent w c); reflexivity.
  - eexists. split; [|reflexivity]. apply Permutation_map, sort_by_perm.
Qed.

Lemma foundation_ledger jobDesc total r c results r' t :
  foundation w jobDesc total r = (Resolved (c, results, r'), t) ->
  paid t = [pay total CodeReaderAgent] /\ r' = deduct r (pay total CodeReaderAgent)
  /\ c = codeReaderUsed w.
Proof.
  unfold foundation, codeReaderUsed. intros H. explore H.
  all: repeat split; reflexivity.
Qed.

Lemma finalize_ledger persistFn scheduleId B results r out t :
  finalize w persistFn scheduleId B results r = (Resolved out, t) ->
  paid t = [] /\ analysisRefunded out = r /\ analysisSpent out = nsub B r.
Proof.
  intros H. destruct (finalize_trace w persistFn scheduleId B results r) as (tail & Ht & _).
  unfold finalize in H. returned. cbn [analysisRefunded analysisSpent].
  split; [|split; reflexivity].
  rewrite !paid_app. cbn [paid calls flat_map app].
  match goal with E : persist _ _ = _ |- _ =>
    apply (f_equal snd) in E; rewrite persist_trace in E; cbn [snd] in E; rewrite <- E end.
  destruct persistFn as [f|]; [|reflexivity].
  destruct (f results) as [[id|]|message]; reflexivity.
Qed.

(** The analysis: the budget refunded is the budget less the payment of the
    Code Reader and then, in the order they settled, those of the agents
    of the parallel phase that succeeded. *)
Lemma runCodebaseAnalysis_ledger repoContent B persistFn out t :
  runCodebaseAnalysis w repoContent B persistFn = (Resolved out, t) ->
  paid t = map (pay (totalAgentBudget B)) (CodeReaderAgent :: succeeded w (codeReaderUsed w))
  /\ analysisSpent out = nsub B (analysisRefunded out)
  /\ exists ps,
       Permutation ps (map (pay (totalAgentBudget B)) (succeeded w (codeReaderUsed w)))
       /\ analysisRefunded out
          = deductAll B (pay (totalAgentBudget B) CodeReaderAgent :: ps).
Proof.
  intros H. apply runCodebaseAnalysis_parts in H.
  destruct H as (sched & c & res1 & r1 & t1 & res2 & r2 & t2 & t3 & E1 & E2 & E3 & ->).
  apply foundation_ledger in E1. destruct E1 as (P1 & -> & ->).
  apply fanOut_ledger in E2. destruct E2 as (P2 & ps & Hperm & ->).
  apply finalize_ledger in E3. destruct E3 as (P3 & -> & ->).
  rewrite !paid_app, P1, P2, P3, app_nil_r. cbn [paid calls flat_map app map].
  split; [reflexivity|]. split; [reflexivity|].
  exists ps. split; [now rewrite <- P2 | reflexivity].
Qed.

End Ledger.

(* ================================================================= *)
(** ** The budget of a run *)

Section Balances.

Context {num : Type} {JS : JsNumber num}.
Variable w : World num.

Lemma balances_app (ps qs : list num) : forall r,
  balances r (ps ++ qs) = balances r ps ++ balances (deductAll r ps) qs.
Proof.
  induction ps as [|p ps IH]; intros r; [reflexivity|].
  cbn [app balances]. now rewrite IH.
Qed.

(** The loop of [runMainAgent]: the payments called are those of the first
    steps of the plan, and the values assigned to the remaining budget are
    the budget less these payments, one after the other. *)
Lemma runSteps_balances total planned steps : forall i r res r' res' t,
  runSteps w total planned i steps r res = (Resolved (r', res'), t) ->
  assigned t = balances r (paid t)
  /\ exists n, paid t = map (fun st => payment (allocation st) total) (firstn n steps).
Proof.
  induction steps as [|st rest IH]; intros i r res r' res' t H; cbn [runSteps] in H.
  - returned. split; [reflexivity | now exists 0%nat].
  - destruct (nlt r (payment (allocation st) total)) eqn:Hcheck.
    + returned. split; [reflexivity | now exists 0%nat].
    + returned. apply IH in H. destruct H as [Has [n Hpaid]].
      rewrite !paid_app, !assigned_app. cbn [paid calls flat_map app assigned balances].
      rewrite Has. split; [reflexivity|]. exists (S n). cbn [firstn map]. now rewrite Hpaid.
Qed.

Lemma runMainAgent_balances task B out t :
  runMainAgent w task B = (Resolved out, t) ->
  exists text steps n,
    planResponse w task = Resolved text
    /\ parseSteps text task = Some steps
    /\ paid t = map (fun st => payment (allocation st) (totalAgentBudget B)) (firstn n steps)
    /\ assigned t = balances B (paid t)
    /\ refunded out = deductAll B (paid t)
    /\ spent out = nsub B (refunded out).
Proof.
  intros H. pose proof (runMainAgent_returns _ _ _ H) as [Hspent _].
  pose proof (runMainAgent_ledger _ _ _ H) as [Hrefund _].
  unfold runMainAgent in H. returned.
  match goal with
  | E : runSteps _ _ _ _ _ _ _ = _ |- _ =>
      apply runSteps_balances in E; destruct E as [Has [count Hpaid]]
  end.
  do 2 eexists. exists count. split; [eassumption|]. split; [eassumption|].
  rewrite !paid_app, !assigned_app in *. cbn [paid calls flat_map app assigned] in *.
  rewrite !app_nil_r in *. auto.
Qed.

Lemma settlePayments_balances pendings : forall r r' t,
  settlePayments (num := num) pendings r = (Resolved r', t) ->
  assigned t = balances r (map pendingPayment pendings).
Proof.
  induction pendings as [|p pendings IH]; intros r r' t H; cbn [settlePayments] in H.
  - returned. reflexivity.
  - destruct (answer p); [|discriminate]. returned.
    match goal with E : settlePayments _ _ = _ |- _ => apply IH in E; rewrite !assigned_app, E end.
    reflexivity.
Qed.

(** The payments awaited are those of the agents that succeeded, in the
    order of the array. *)
Lemma dispatchPayments_agents jobDesc total settled : forall results results' pendings t,
  dispatchPayments w jobDesc total settled results = (Resolved (results', pendings), t) ->
  assigned t = []
  /\ map pendingAgent pendings
     = map (fun e => snd (fst e)) (filter (fun e => resolved (snd e)) settled)
  /\ map pendingPayment pendings = map (pay total) (map pendingAgent pendings).
Proof.
  induction settled as [|[[i a] [v|message]] settled IH];
    intros results results' pendings t H; cbn [dispatchPayments] in H.
  - returned. repeat split.
  - returned.
    match goal with E : dispatchPayments _ _ _ _ _ = _ |- _ =>
      apply IH in E; destruct E as (Has & Hag & Hpay) end.
    rewrite !assigned_app, Has.
    cbn [map filter resolved snd fst pendingAgent pendingPayment assigned flat_map app].
    now rewrite Hag, Hpay, <- Hag.
  - returned.
    match goal with E : dispatchPayments _ _ _ _ _ = _ |- _ =>
      apply IH in E; destruct E as (Has & Hag & Hpay) end.
    rewrite !assigned_app, Has. cbn [map filter resolved snd fst assigned flat_map app].
    auto.
Qed.

Lemma emitStarts_assigned total l t :
  emitStarts (num := num) total l = (Resolved tt, t) -> assigned t = [].
Proof.
  revert t. induction l as [|[[i a] o] l IH]; intros t H; cbn [emitStarts] in H.
  - returned. reflexivity.
  - returned.
    match goal with E : emitStarts _ _ = _ |- _ => apply IH in E; rewrite assigned_app, E end.
    reflexivity.
Qed.

Lemma allSettled_assigned l : forall settled t,
  allSettled (num := num) l = (Resolved settled, t) -> assigned t = [].
Proof.
  induction l as [|[[i a] o] l IH]; intros settled t H; cbn [allSettled] in H.
  - returned. reflexivity.
  - returned.
    match goal with E : allSettled _ = _ |- _ => apply IH in E; rewrite !assigned_app, E end.
    reflexivity.
Qed.

Lemma payments_of_agents total (l l' : list (Pending (num := num))) :
  map pendingPayment l = map (pay total) (map pendingAgent l) ->
  Permutation l l' ->
  map pendingPayment l' = map (pay total) (map pendingAgent l').
Proof.
  intros Hl Hperm.
  assert (Hall : Forall (fun p => pendingPayment p = pay total (pendingAgent p)) l).
  { clear Hperm. induction l as [|q l IH]; [constructor|].
    cbn [map] in Hl. injection Hl as Hq Hl. constructor; auto. }
  rewrite map_map. apply map_ext_in. intros p Hp.
  apply Permutation_sym in Hperm. apply (Permutation_in _ Hperm) in Hp.
  revert p Hp. now apply Forall_forall.
Qed.

(** Phase 2: the agents that succeeded are paid, and the remaining budget
    is reduced by their payments in the order [l] in which these settle. *)
Lemma fanOut_balances jobDesc total c results r results' r' t :
  fanOut w jobDesc total c results r = (Resolved (results', r'), t) ->
  exists l,
    Permutation l (succeeded w c)
    /\ assigned t = balances r (map (pay total) l)
    /\ r' = deductAll r (map (pay total) l).
Proof.
  unfold fanOut. intros H. returned.
  match goal with E : emitStarts _ _ = _ |- _ => destruct a; apply emitStarts_assigned in E end.
  match goal with E : allSettled _ = _ |- _ =>
    pose proof (allSettled_assigned _ E) as Hall;
    apply allSettled_ledger in E; destruct E as [_ ->] end.
  match goal with E : dispatchPayments _ _ _ _ _ = _ |- _ =>
    apply dispatchPayments_agents in E; destruct E as (Hd & Hag & Hpay) end.
  match goal with E : settlePayments _ _ = _ |- _ =>
    pose proof (settlePayments_balances _ _ E) as Hs;
    apply settlePayments_ledger in E; destruct E as [_ ->] end.
  match goal with |- context [sort_by ?key ?l] => set (sorted := sort_by key l) in *;
    assert (Hperm : Permutation sorted l) by apply sort_by_perm end.
  assert (Hsorted : map pendingPayment sorted = map (pay total) (map pendingAgent sorted))
    by (eapply payments_of_agents; [exact Hpay | apply Permutation_sym, Hperm]).
  exists (map pendingAgent sorted). split; [|split].
  - rewrite (Permutation_map pendingAgent Hperm), Hag.
    unfold succeeded, phase2. cbn [filter map snd fst parallel_answer].
    destruct (runSimplifierAgent w c), (runAnalogyAgent w c), (runInsightAgent w c); reflexivity.
  - rewrite !assigned_app. repeat match goal with E : assigned _ = _ |- _ => rewrite E end.
    cbn [app assigned flat_map]. now rewrite ?app_nil_r, Hsorted.
  - now rewrite Hsorted.
Qed.

(** The analysis: the Code Reader and the agents of phase 2 that succeeded
    are paid; the remaining budget is reduced by the payment of the Code
    Reader and then by those of the others in the order [l] in which they
    settle; and what is refunded is what is left. *)
Lemma runCodebaseAnalysis_balances repoContent B persistFn out t :
  runCodebaseAnalysis w repoContent B persistFn = (Resolved out, t) ->
  exists l,
    Permutation l (succeeded w (codeReaderUsed w))
    /\ paid t = map (pay (totalAgentBudget B)) (CodeReaderAgent :: succeeded w (codeReaderUsed w))
    /\ assigned t = balances B (map (pay (totalAgentBudget B)) (CodeReaderAgent :: l))
    /\ analysisRefunded out = deductAll B (map (pay (totalAgentBudget B)) (CodeReaderAgent :: l))
    /\ analysisSpent out = nsub B (analysisRefunded out).
Proof.
  intros H. pose proof (runCodebaseAnalysis_ledger _ _ _ _ H) as (Hpaid & Hspent & _).
  apply runCodebaseAnalysis_parts in H.
  destruct H as (sched & c & res1 & r1 & t1 & res2 & r2 & t2 & t3 & E1 & E2 & E3 & ->).
  apply foundation_summary in E1.
  destruct E1 as (-> & _ & -> & A1 & _).
  apply fanOut_balances in E2. destruct E2 as (l & Hperm & A2 & ->).
  apply finalize_summary in E3. destruct E3 as (_ & Hr & _ & _ & A3 & _).
  exists l. split; [exact Hperm|]. split; [exact Hpaid|].
  split; [|split; [|exact Hspent]].
  - cbn [app]. rewrite !assigned_invoke, !assigned_app, A1, A2, A3, app_nil_r. reflexivity.
  - rewrite Hr. reflexivity.
Qed.

End Balances.

(* ================================================================= *)
(** ** The budgets of 0.01 to 100.00, computed on binary64 *)

Section Checked.

Local Open Scope float_scope.

Lemma Agent_eqb_eq (a b : Agent) : Agent_eqb a b = true <-> a = b.
Proof. destruct a, b; cbn; split; intros H; congruence. Qed.

Lemma loopChecked_conserved total B r allocs :
  loopChecked total B r allocs = true -> conserved B r = true.
Proof. destruct allocs; cbn [loopChecked]; intros H; apply andb_prop in H; tauto. Qed.

(** A loop that was checked and returns: what it leaves is conserved, and
    no assignment raised the remaining budget. *)
Lemma loopChecked_sound (w : World float) total B planned steps : forall i r res r' res' t,
  loopChecked total B r (map (@allocation float) steps) = true ->
  runSteps w total planned i steps r res = (Resolved (r', res'), t) ->
  conserved B r' = true /\ descending r (assigned t) = true.
Proof.
  induction steps as [|st rest IH]; intros i r res r' res' t Hc H; cbn [runSteps] in H.
  - returned. split; [now apply loopChecked_conserved in Hc | reflexivity].
  - cbn [map loopChecked] in Hc.
    apply andb_prop in Hc. destruct Hc as [Hcons Hc].
    apply andb_prop in Hc. destruct Hc as [Hc Hrest].
    apply andb_prop in Hc. destruct Hc as [Hcheck Hle].
    apply negb_true_iff in Hcheck. cbn [nlt F64] in H. rewrite Hcheck in H.
    returned. destruct (IH _ _ _ _ _ _ Hrest H) as [Hcons' Hdesc].
    split; [exact Hcons'|].
    rewrite !assigned_app. cbn [assigned flat_map app descending].
    apply andb_true_intro. split; [exact Hle | exact Hdesc].
Qed.

(** A loop that was checked dispatches every step. *)
Lemma loopChecked_affordable total B steps : forall r,
  loopChecked total B r (map (@allocation float) steps) = true ->
  affordable total steps r = steps.
Proof.
  induction steps as [|st rest IH]; intros r Hc; [reflexivity|].
  cbn [map loopChecked] in Hc. cbn [affordable].
  apply andb_prop in Hc. destruct Hc as [_ Hc].
  apply andb_prop in Hc. destruct Hc as [Hc Hrest].
  apply andb_prop in Hc. destruct Hc as [Hcheck _].
  apply negb_true_iff in Hcheck.
  change (nlt r (payment (allocation st) total))
    with (PrimFloat.ltb r (payment (allocation st) total)).
  rewrite Hcheck. f_equal. now apply IH.
Qed.

(** Phase 2 that was checked: in whichever order [l] the payments of some
    of the agents settle, what is left is conserved, and no assignment
    raised the remaining budget. *)
Lemma ordersChecked_sound total B : forall l fuel rest r,
  (List.length l <= fuel)%nat -> NoDup l -> incl l rest ->
  ordersChecked fuel total B r rest = true ->
  conserved B (deductAll r (map (pay total) l)) = true
  /\ descending r (balances r (map (pay total) l)) = true.
Proof.
  induction l as [|a l IH]; intros fuel rest r Hlen Hnd Hincl Hc.
  - cbn. split; [|reflexivity]. destruct fuel; cbn [ordersChecked] in Hc;
      apply andb_prop in Hc; tauto.
  - destruct fuel as [|fuel]; [cbn in Hlen; lia|].
    cbn [ordersChecked] in Hc. apply andb_prop in Hc. destruct Hc as [_ Hc].
    rewrite forallb_forall in Hc.
    specialize (Hc a (Hincl a (or_introl eq_refl))). cbn zeta in Hc.
    apply andb_prop in Hc. destruct Hc as [Hle Hc].
    inversion Hnd as [|? ? Hnotin Hnd']; subst.
    assert (Hincl' : incl l (filter (fun b => negb (Agent_eqb a b)) rest)).
    { intros x Hx. apply filter_In. split; [apply Hincl; now right|].
      apply negb_true_iff. destruct (Agent_eqb a x) eqn:E; [|reflexivity].
      apply Agent_eqb_eq in E. subst. contradiction. }
    assert (Hlen' : (List.length l <= fuel)%nat) by (cbn in Hlen; lia).
    destruct (IH fuel _ _ Hlen' Hnd' Hincl' Hc) as [Hcons Hdesc].
    unfold deductAll in *. cbn [map fold_left balances descending].
    split; [exact Hcons|]. apply andb_true_intro. split; [exact Hle | exact Hdesc].
Qed.

Lemma centsChecked_spec (n i : nat) :
  centsChecked n = true -> (i < n)%nat ->
  budgetChecked (centBudget (Z.of_nat (S i))) = true.
Proof.
  unfold centsChecked. intros H Hi. rewrite forallb_forall in H.
  apply (H i), in_seq. lia.
Qed.

(** The computation, on every budget of whole cents from 0.01 to
    100.00. *)
Lemma cents_checked : centsChecked (Z.to_nat CHECKED_CENTS) = true.
Proof. vm_cast_no_check (eq_refl true). Qed.

(** So each of these budgets passes. *)
Lemma budget_checked (k : Z) :
  (1 <= k <= CHECKED_CENTS)%Z -> budgetChecked (centBudget k) = true.
Proof.
  intros Hk.
  assert (Hi : (Z.to_nat k - 1 < Z.to_nat CHECKED_CENTS)%nat)
    by (unfold CHECKED_CENTS in *; lia).
  pose proof (centsChecked_spec cents_checked Hi) as H.
  replace (Z.of_nat (S (Z.to_nat k - 1))) with k in H by lia.
  exact H.
Qed.

End Checked.

Section OnCheckedBudgets.

Local Open Scope float_scope.

Variable w : World float.
Variable k : Z.
Hypothesis Hk : (1 <= k <= CHECKED_CENTS)%Z.

(** A run of [runMainAgent] on the default plan and a budget that was
    checked. *)
Lemma runMainAgent_checked task text out t :
  planResponse w task = Resolved text ->
  parseSteps text task = Some (defaultSteps task) ->
  runMainAgent w task (centBudget k) = (Resolved out, t) ->
  conserved (centBudget k) (refunded out) = true
  /\ descending (centBudget k) (assigned t) = true.
Proof.
  intros Htext Hparse H. pose proof (budget_checked Hk) as Hc.
  unfold budgetChecked in Hc. apply andb_prop in Hc. destruct Hc as [Hloop _].
  unfold runMainAgent in H. returned.
  match goal with
  | E : planResponse w task = Resolved ?a |- _ =>
      assert (a = text) by congruence; subst a; clear E
  end.
  match goal with
  | E : parseSteps text task = Some ?l |- _ =>
      assert (l = defaultSteps task) by congruence; subst l; clear E
  end.
  match goal with
  | E : runSteps _ _ _ _ _ _ _ = _ |- _ =>
      pose proof (@loopChecked_sound w _ (centBudget k) _ (defaultSteps task)
                    _ _ _ _ _ _ Hloop E) as [Hcons Hdesc]
  end.
  cbn [refunded]. split; [exact Hcons|].
  rewrite !assigned_app. cbn [assigned flat_map app]. now rewrite !app_nil_r.
Qed.

Lemma defaultSteps_checked task :
  affordable (totalAgentBudget (centBudget k)) (defaultSteps task) (centBudget k)
  = defaultSteps task.
Proof.
  pose proof (budget_checked Hk) as Hc.
  unfold budgetChecked in Hc. apply andb_prop in Hc. destruct Hc as [Hloop _].
  exact (@loopChecked_affordable _ (centBudget k) (defaultSteps task) _ Hloop).
Qed.

(** The agents that succeeded, in whichever order. *)
Lemma settled_in_any_order {num} (v : World num) c (l : list Agent) :
  Permutation l (succeeded v c) ->
  (List.length l <= 3)%nat /\ NoDup l
  /\ incl l [SimplifierAgent; AnalogyAgent; InsightAgent].
Proof.
  intros Hperm.
  assert (Hnd : NoDup (succeeded v c)).
  { apply NoDup_filter. repeat constructor; cbn; intuition discriminate. }
  split; [|split].
  - rewrite (Permutation_length Hperm). unfold succeeded.
    etransitivity; [apply filter_length_le | reflexivity].
  - eapply Permutation_NoDup; [apply Permutation_sym, Hperm | exact Hnd].
  - intros a Ha. apply (Permutation_in _ Hperm) in Ha. unfold succeeded in Ha.
    now apply filter_In in Ha.
Qed.

(** A run of [runCodebaseAnalysis] on a budget that was checked. *)
Lemma runCodebaseAnalysis_checked repo persistFn out t :
  runCodebaseAnalysis w repo (centBudget k) persistFn = (Resolved out, t) ->
  conserved (centBudget k) (analysisRefunded out) = true
  /\ descending (centBudget k) (assigned t) = true.
Proof.
  intros H. pose proof (budget_checked Hk) as Hc.
  unfold budgetChecked in Hc. apply andb_prop in Hc. destruct Hc as [_ Hc]. cbn zeta in Hc.
  apply andb_prop in Hc. destruct Hc as [Hle Horders].
  apply runCodebaseAnalysis_balances in H.
  destruct H as (l & Hperm & _ & Has & Hrefund & _).
  destruct (settled_in_any_order _ _ Hperm) as (Hlen & Hnd & Hincl).
  destruct (@ordersChecked_sound _ (centBudget k) l 3 _ _ Hlen Hnd Hincl Horders)
    as [Hcons Hdesc].
  rewrite Has, Hrefund. unfold deductAll in *. cbn [map fold_left balances descending].
  split; [exact Hcons|]. apply andb_true_intro. split; [exact Hle | exact Hdesc].
Qed.

End OnCheckedBudgets.

Section Conservation.


End Conservation.

Section SettlingDown.


End SettlingDown.

Section Exhaustion.


End Exhaustion.

Section Refund.

Context {num : Type} {JS : JsNumber num}.
Variable w : World num.


End Refund.

Section OnBinary64.

Local Open Scope float_scope.




End OnBinary64.

(* ================================================================= *)
(** ** The report that is served *)

Section Reports.

Context {num : Type} {JS : JsNumber num} {NaN : JsNaN num}.
Variable db : Mongo.

(** X24: the handler of [/api/report/:shareId] serves a report only as the
    database gave it: when it answers with a document, the address of the
    database is set, the connection was open or was opened with success,
    and the document is the one found under the identifier of the
    request. *)
Theorem report_served_is_the_one_found (shareId : string) (doc : Report) :
  In (res_json (report_body doc)) (snd (api_report (num := num) db shareId)) ->
  truthy (MONGODB_URI db) = true
  /\ (readyState db = 1%Z \/ connect db (orElse (MONGODB_URI db) "") = Resolved tt)
  /\ findById db shareId = Resolved (Some doc).
Proof.
  unfold api_report, getReport, connectDB.
  destruct (truthy (MONGODB_URI db)) eqn:Huri; cbn [negb];
    [|cbn; intros [[=] | []]].
  destruct (readyState db =? 1)%Z eqn:Hready;
    [apply Z.eqb_eq in Hready|];
    [|destruct (connect db (orElse (MONGODB_URI db) "")) as [[]|failure] eqn:Hconnect];
    destruct (findById db shareId) as [[found|]|message] eqn:Hfound;
    cbn; intros Hin;
    repeat (destruct Hin as [Hin | Hin]);
    try discriminate Hin; try contradiction;
    injection Hin as <-; auto.
Qed.

End Reports.

(* ================================================================= *)
(** ** The services at work *)

(** The summary of the most important of [someFiles], cut to 10
    characters. *)
Lemma buildFilesSummary_size_witness :
  (Z.of_nat (String.length (buildFilesSummary someFiles 1 10)) <= 1 * (Z.of_nat 13 + 10 + 11))%Z.
Proof.
  apply (@buildFilesSummary_size someFiles 1 10 13); [lia | lia |].
  repeat (apply Forall_cons; [cbn; lia|]). apply Forall_nil.
Defined.

(** A file of a source directory, its name in capitals. *)
Lemma files_read_are_allowed_witness :
  shouldIncludeFile "src/Server.JS" = true
  /\ exists dir basename,
       toLowerCase "src/Server.JS" = (dir ++ basename)%string
       /\ (dir = "" \/ exists d, dir = (d ++ "/")%string)
       /\ occurrences "/" basename = 0%nat
       /\ (In basename ALWAYS_INCLUDE
           \/ exists stem ext,
                basename = (stem ++ "." ++ ext)%string
                /\ occurrences "." ext = 0%nat
                /\ In ("." ++ ext)%string ALLOWED_EXTENSIONS).
Proof.
  split; [reflexivity|].
  apply (proj1 (files_read_are_allowed "src/Server.JS") eq_refl).
Defined.

(** An address in the form of ssh, between blanks. *)
Lemma parseGithubUrl_reads_what_the_address_holds_witness :
  parseGithubUrl " git@github.com:owner/repo.git " = Resolved ("owner", "repo")
  /\ every ownerChar "owner" = true /\ every repoChar "repo" = true
  /\ (includes " git@github.com:owner/repo.git " ("github.com/" ++ "owner" ++ "/" ++ "repo") = true
      \/ includes " git@github.com:owner/repo.git " ("github.com:" ++ "owner" ++ "/" ++ "repo") = true).
Proof.
  split; [reflexivity|].
  destruct (@parseGithubUrl_reads_what_the_address_holds
              " git@github.com:owner/repo.git " "owner" "repo" eq_refl)
    as (_ & Howner & _ & Hrepo & Hin).
  repeat split; assumption.
Defined.

(** An address of another host. *)
Lemma parseGithubUrl_needs_the_host_witness :
  includes "https://gitlab.com/owner/repo" "github.com" = false
  /\ parseGithubUrl "https://gitlab.com/owner/repo"
     = Rejected "Invalid GitHub URL. Expected: https://github.com/owner/repo".
Proof.
  split; [reflexivity | apply (parseGithubUrl_needs_the_host "https://gitlab.com/owner/repo")].
  reflexivity.
Defined.

(** The three addresses of a repository whose name holds a dot. *)
Lemma parseGithubUrl_reads_the_usual_addresses_witness :
  parseGithubUrl ("https://github.com/" ++ "octo-cat" ++ "/" ++ "hello.world"
                  ++ "/tree/main?tab=readme#top")
  = Resolved ("octo-cat", "hello.world")
  /\ parseGithubUrl ("https://github.com/" ++ "octo-cat" ++ "/" ++ "hello.world" ++ ".git")
     = Resolved ("octo-cat", "hello.world")
  /\ parseGithubUrl ("git@github.com:" ++ "octo-cat" ++ "/" ++ "hello.world" ++ ".git")
     = Resolved ("octo-cat", "hello.world").
Proof.
  apply (@parseGithubUrl_reads_the_usual_addresses "octo-cat" "hello.world"
           "/tree/main?tab=readme#top");
    first [discriminate | reflexivity].
Defined.

(** The repository of [github]. *)
Lemma fetchRepoContent_keeps_its_limits_witness :
  exists out t,
    fetchRepoContent github "https://github.com/owner/repo" = (Resolved out, t)
    /\ (Z.of_nat (List.length (files (repoContent out))) <= MAX_FILES)%Z
    /\ Forall (fun f => (Z.of_nat (String.length (snd f)) <= MAX_BYTES_PER_FILE)%Z)
         (files (repoContent out))
    /\ (Z.of_nat (totalSize (files (repoContent out))) <= MAX_TOTAL_BYTES)%Z
    /\ fileCount (repoContent out) = List.length (files (repoContent out))
    /\ (List.length (languages (repoContent out)) <= 8)%nat
    /\ NoDup (languages (repoContent out)).
Proof.
  destruct (fetchRepoContent github "https://github.com/owner/repo") as [[out | message] t] eqn:E;
    [|vm_compute in E; discriminate].
  exists out, t. split; [reflexivity|].
  exact (@fetchRepoContent_keeps_its_limits github "https://github.com/owner/repo" out t E).
Defined.

(** The files of the repository of [github]. *)
Lemma fetchRepoContent_returns_files_of_the_tree_witness :
  exists out t,
    fetchRepoContent github "https://github.com/owner/repo" = (Resolved out, t)
    /\ map fst (files (repoContent out)) = ["README.md"; "package.json"; "src/server.js"]
    /\ exists repoRes repoData treeRes treeData,
         parseGithubUrl "https://github.com/owner/repo" = Resolved (owner out, repo out)
         /\ fetchRepo github (repoRequest github (owner out) (repo out)) = Resolved repoRes
         /\ ok repoRes = true /\ body repoRes = Resolved repoData
         /\ fetchTree github (treeRequest github (owner out) (repo out)
                                (orElse (default_branch repoData) "main")) = Resolved treeRes
         /\ ok treeRes = true /\ body treeRes = Resolved treeData
         /\ Forall (fun blob =>
                      In blob (match tree treeData with Some nodes => nodes | None => [] end)
                      /\ type blob = "blob"
                      /\ shouldIncludeFile (path blob) = true)
              (selectBlobs github treeData)
         /\ Forall (served github (owner out) (repo out)
                      (orElse (default_branch repoData) "main")
                      (selectBlobs github treeData))
              (files (repoContent out)).
Proof.
  destruct (fetchRepoContent github "https://github.com/owner/repo") as [[out | message] t] eqn:E;
    [|vm_compute in E; discriminate].
  exists out, t. split; [reflexivity|]. split.
  - vm_compute in E. injection E as <- <-. reflexivity.
  - exact (@fetchRepoContent_returns_files_of_the_tree github "https://github.com/owner/repo"
             out t E).
Defined.

(** The raw host is down. *)
Lemma fetchRepoContent_skips_files_that_fail_witness :
  api_ok rawDown
  /\ parseGithubUrl "https://github.com/owner/repo" = Resolved ("owner", "repo")
  /\ exists out t,
       fetchRepoContent rawDown "https://github.com/owner/repo" = (Resolved out, t)
       /\ owner out = "owner" /\ repo out = "repo"
       /\ ((forall req res, fetchRaw rawDown req = Resolved res -> ok res = false) ->
           files (repoContent out) = [] /\ fileCount (repoContent out) = 0%nat).
Proof.
  assert (Hapi : api_ok rawDown).
  { split; intros req; eexists; eexists; repeat split. }
  split; [exact Hapi|]. split; [reflexivity|].
  exact (@fetchRepoContent_skips_files_that_fail rawDown "https://github.com/owner/repo"
           "owner" "repo" Hapi eq_refl).
Defined.

(** No request is answered. *)
Lemma api_analyze_without_the_repository_witness :
  fst (fetchRepoContent offline "https://github.com/owner/repo") = Rejected "fetch failed"
  /\ exists t,
       api_analyze (num := Q) calm offline someMongo someUUID
         (Some "https://github.com/owner/repo") 1%Q = (Resolved tt, t)
       /\ outside t = []
       /\ requests t = snd (fetchRepoContent offline "https://github.com/owner/repo")
       /\ writes t = [fetching_repo "https://github.com/owner/repo"; error_event "fetch failed"]
       /\ last t res_flushHeaders = res_end.
Proof.
  split; [reflexivity|].
  apply (@api_analyze_without_the_repository Q Exact Exact_NaN calm offline someMongo someUUID
           "https://github.com/owner/repo" 1%Q "fetch failed");
    first [discriminate | reflexivity].
Defined.

(** An analysis with a database: the report is saved and announced. *)
Lemma the_report_announced_was_saved_witness :
  truthy (MONGODB_URI someMongo) = true
  /\ "123e4567e89b42d3" = String_slice (removeAll "-" someUUID) 0 (Some 16%Z)
  /\ exists before after doc,
       snd (api_analyze (num := Q) calm github someMongo someUUID
              (Some "https://github.com/owner/repo") 1%Q)
       = before ++ res_write (agent_event (report_saved "123e4567e89b42d3")) :: after
       /\ In (Db (doc_save doc)) before
       /\ _id doc = "123e4567e89b42d3"
       /\ repoUrl doc = orElse (Some "https://github.com/owner/repo") ""
       /\ save someMongo doc = Resolved tt.
Proof.
  apply (@the_report_announced_was_saved Q Exact Exact_NaN calm github someMongo someUUID
           (Some "https://github.com/owner/repo") 1%Q "123e4567e89b42d3").
  vm_compute. repeat (first [left; reflexivity | right]).
Defined.

(** A database that is connected and holds [someReport]. *)
Lemma report_served_is_the_one_found_witness :
  truthy (MONGODB_URI keeping) = true
  /\ (readyState keeping = 1%Z
      \/ connect keeping (orElse (MONGODB_URI keeping) "") = Resolved tt)
  /\ findById keeping "123e4567e89b42d3" = Resolved (Some someReport).
Proof.
  apply (report_served_is_the_one_found (num := Q) keeping "123e4567e89b42d3" someReport).
  vm_compute. right; left; reflexivity.
Defined.




(** The ledger rejects the payment of the Simplifier: the handler of
    [/api/analyze] writes the error and ends the response, and the
    completions of the two other agents are written to it afterwards. *)
Lemma completions_after_the_end :
  exists before,
    snd (api_analyze (JS := F64) paymentFails github someMongo someUUID
           (Some "https://github.com/owner/repo") 1%float)
    = before
      ++ [ res_write (error_event "INSUFFICIENT_PAYER_BALANCE");
           res_end;
           Outside (Assign 0.83%float);
           res_write (agent_event (agent_complete "Analogy Agent" "analogy"
                                     (ToolOutput "analogy") "tx:Analogy Agent"
                                     0.08%float 0.83%float));
           Outside (Assign 0.75%float);
           res_write (agent_event (agent_complete "Insight Agent" "insight"
                                     (ToolOutput "insight") "tx:Insight Agent"
                                     0.08%float 0.75%float)) ].
Proof.
  set (done := snd (api_analyze (JS := F64) paymentFails github someMongo someUUID
                      (Some "https://github.com/owner/repo") 1%float)).
  exists (firstn (List.length done - 6) done).
  vm_compute. reflexivity.
Qed.
